(** * Package Data: a verification development for the American Gut
    packaging notebook

    The notebook [ipynb/Package Data.ipynb] is a linear script of code
    cells.  Each part of this file embeds the cells one group of
    properties is about:

    - [Py]       exceptions and the error monad the cells run in;
    - [Json]     [json.dumps] and [json.loads] on the values PICRUSt
                 metadata holds (strings and nested lists of strings);
    - [Picrust]  [picrust_parser], [list_of_list_of_str_formatter] and
                 [picrust_formatter] (cell 20);
    - [Kernel]   name binding in a fresh kernel and cells 2 to 10;
    - [Rounding] how near a rounded sum and quotient come to a mean;
    - [Alpha]    the metadata and alpha diversity merge (cells 12 to 18);
    - [Full]     the full PICRUSt table loop (cell 24);
    - [Beta]     the relocation of the distance matrices (cell 26).

    The parts after these look at the same cells from other sides:

    - [PicrustEdges]  what the parser and the formatters do at the edges;
    - [Folders]       the directories of the package (cell 6);
    - [BetaEdges]     what the relocation leaves alone, running it again,
                      running it after cell 6;
    - [AlphaEdges]    the layout of the files of cells 15 and 18, and
                      failed exports;
    - [FullEdges]     cell 24 without and with the ids of cell 15;
    - [KernelEdges]   what the table export has done when it raises.

    Library calls (pandas, biom, h5py, os, shutil) and the command line
    tools the cells shell out to are not part of the repository.  They are
    either left uninterpreted (section variables) or given a model of
    their documented behaviour; each definition says which. *)

From Stdlib Require Import Ascii String.
From Stdlib Require QArith Qabs.
From stdpp Require Import gmap strings list sorting.

#[local] Arguments String.append : simpl nomatch.
#[local] Set Warnings "-clear-no-such-hyp".

(* ===================================================================== *)
(** * Exceptions and results *)
(* ===================================================================== *)

Module Py.

(** The exceptions the cells can raise. *)
Inductive exn : Type :=
| NameError (name : string)
| TypeError (what : string)
| IndexError
| KeyError (key : string)
| ValueError (what : string)
| OSError (what : string)
| External (what : string).

(** A computation either returns or raises. *)
Inductive result (A : Type) : Type :=
| Ok (a : A)
| Raise (e : exn).

Arguments Ok {A} a.
Arguments Raise {A} e.

#[export] Instance result_ret : MRet result := λ A a, Ok a.
#[export] Instance result_bind : MBind result := λ A B f m,
  match m with
  | Ok a => f a
  | Raise e => Raise e
  end.
#[export] Instance result_fmap : FMap result := λ A B f m,
  match m with
  | Ok a => Ok (f a)
  | Raise e => Raise e
  end.

(** [o] or else raise [e]. *)
Definition or_raise {A} (e : exn) (o : option A) : result A :=
  match o with
  | Some a => Ok a
  | None => Raise e
  end.

Definition is_ok {A} (r : result A) : bool :=
  match r with
  | Ok _ => true
  | Raise _ => false
  end.

(** [for x in l: body] on a threaded state. *)
Fixpoint for_each {S A} (body : A → S → result S) (l : list A) (s : S)
  : result S :=
  match l with
  | [] => Ok s
  | x :: l' => s' ← body x s; for_each body l' s'
  end.

Lemma ok_get {A} (r : result A) (d : A) :
  is_ok r = true → r = Ok (match r with Ok a => a | Raise _ => d end).
Proof. by destruct r. Qed.

Lemma bind_ok {A B} (f : A → result B) (m : result A) (b : B) :
  m ≫= f = Ok b → ∃ a, m = Ok a ∧ f a = Ok b.
Proof. destruct m as [a|e]; simpl; [eauto | discriminate]. Qed.

Lemma for_each_app {S A} (body : A → S → result S) l1 l2 (s : S) :
  for_each body (l1 ++ l2) s = for_each body l1 s ≫= for_each body l2.
Proof.
  revert s. induction l1 as [|x l1 IH]; intros s; simpl; [done|].
  destruct (body x s) as [s'|e]; simpl; [apply IH | done].
Qed.

Lemma for_each_ind {S A} (P : S → Prop) (body : A → S → result S) l (s s' : S) :
  P s →
  (∀ x s1 s2, x ∈ l → P s1 → body x s1 = Ok s2 → P s2) →
  for_each body l s = Ok s' → P s'.
Proof.
  revert s. induction l as [|x l IH]; intros s Hs Hbody H; simpl in H.
  - by injection H as <-.
  - apply bind_ok in H as (s1 & H1 & H).
    apply (IH s1); [| |done].
    + apply (Hbody x s s1); [left|done..].
    + intros y ? ? Hy. apply Hbody. by right.
Qed.

(** The iteration for an item of the list: the state before it, the
    state after it, and the run of the items that follow. *)
Lemma for_each_at {S A} (body : A → S → result S) l (s s' : S) (x : A) :
  x ∈ l → NoDup l → for_each body l s = Ok s' →
  ∃ l1 l2 s1 s2,
    l = l1 ++ x :: l2 ∧ (x ∉ l2) ∧
    for_each body l1 s = Ok s1 ∧ body x s1 = Ok s2 ∧ for_each body l2 s2 = Ok s'.
Proof.
  intros Hx Hnd H.
  apply list_elem_of_split in Hx as (l1 & l2 & ->).
  rewrite for_each_app in H. apply bind_ok in H as (s1 & H1 & H).
  simpl in H. apply bind_ok in H as (s2 & H2 & H).
  exists l1, l2, s1, s2. repeat split; try done.
  apply NoDup_app in Hnd as (_ & _ & Hnd).
  apply NoDup_cons in Hnd as [Hx _]. exact Hx.
Qed.

End Py.

Export Py.

Ltac inv_bind H :=
  let a := fresh "a" in
  let Ha := fresh "Hstep" in
  apply bind_ok in H as (a & Ha & H).

(* ===================================================================== *)
(** * json.dumps and json.loads *)
(* ===================================================================== *)

(** The values of the PICRUSt metadata categories are lists of strings
    or lists of lists of strings.  [json] is the fragment of Python
    values built from [str] and [list]; a [str] is modelled by a Rocq
    [string], that is with code points below 256.  [dumps] and [loads]
    follow the encoder and the decoder of the Python 3.6 [json] package
    with their default arguments on that fragment. *)

Module Json.

#[warning="-register-all"] Inductive json : Type :=
| JStr (s : string)
| JList (l : list json).

Fixpoint json_rect' (P : json → Type) (Q : list json → Type)
  (Hstr : ∀ s, P (JStr s)) (Hlist : ∀ l, Q l → P (JList l))
  (Hnil : Q []) (Hcons : ∀ v l, P v → Q l → Q (v :: l)) (v : json) : P v :=
  match v with
  | JStr s => Hstr s
  | JList l =>
    Hlist l ((fix go (l : list json) : Q l :=
                match l with
                | [] => Hnil
                | v :: l' =>
                  Hcons v l' (json_rect' P Q Hstr Hlist Hnil Hcons v) (go l')
                end) l)
  end.

Lemma json_ind' (P : json → Prop) :
  (∀ s, P (JStr s)) → (∀ l, Forall P l → P (JList l)) → ∀ v, P v.
Proof.
  intros Hs Hl.
  apply (json_rect' P (Forall P)); auto.
Qed.

Definition bslash : ascii := "092"%char.
Definition dquote : ascii := "034"%char.

(** [sep.join(l)] *)
Fixpoint join (sep : string) (l : list string) : string :=
  match l with
  | [] => ""
  | [x] => x
  | x :: l' => x +:+ sep +:+ join sep l'
  end.

(** ** Encoder *)

Definition hex_digit (n : N) : ascii :=
  ascii_of_N (if (n <? 10)%N then 48 + n else 87 + n).

(** One character of a string, as [py_encode_basestring_ascii] writes
    it: backslash and quote are escaped, the five short escapes are
    used, the printable ASCII range is kept, everything else becomes a
    four digit lower case unicode escape. *)
Definition escape_char (c : ascii) : string :=
  let n := N_of_ascii c in
  if (n =? 92)%N then String bslash (String bslash "")
  else if (n =? 34)%N then String bslash (String dquote "")
  else if (n =? 8)%N then String bslash "b"
  else if (n =? 12)%N then String bslash "f"
  else if (n =? 10)%N then String bslash "n"
  else if (n =? 13)%N then String bslash "r"
  else if (n =? 9)%N then String bslash "t"
  else if (32 <=? n)%N && (n <=? 126)%N then String c ""
  else String bslash
         ("u00" +:+ String (hex_digit (n / 16)) (String (hex_digit (n mod 16)) "")).

Fixpoint escape (s : string) : string :=
  match s with
  | "" => ""
  | String c r => escape_char c +:+ escape r
  end.

(** [json.dumps(v)]: item separator is a comma and a space. *)
Fixpoint dumps (v : json) : string :=
  match v with
  | JStr s => String dquote (escape s +:+ String dquote "")
  | JList l => "[" +:+ join ", " (map dumps l) +:+ "]"
  end.

(** ** Decoder *)

Definition is_ws (c : ascii) : bool :=
  let n := N_of_ascii c in
  (n =? 32)%N || (n =? 9)%N || (n =? 10)%N || (n =? 13)%N.

Fixpoint skip_ws (s : string) : string :=
  match s with
  | "" => ""
  | String c r => if is_ws c then skip_ws r else s
  end.

Definition hex_val (c : ascii) : option N :=
  let n := N_of_ascii c in
  if (48 <=? n)%N && (n <=? 57)%N then Some (n - 48)%N
  else if (97 <=? n)%N && (n <=? 102)%N then Some (n - 87)%N
  else if (65 <=? n)%N && (n <=? 70)%N then Some (n - 55)%N
  else None.

Definition hex4 (h1 h2 h3 h4 : ascii) : option N :=
  a ← hex_val h1; b ← hex_val h2; c ← hex_val h3; d ← hex_val h4;
  Some (((a * 16 + b) * 16 + c) * 16 + d)%N.

(** The table [BACKSLASH] of the decoder. *)
Definition unescape (e : ascii) : option ascii :=
  let n := N_of_ascii e in
  if (n =? 34)%N then Some dquote
  else if (n =? 92)%N then Some bslash
  else if (n =? 47)%N then Some "/"%char
  else if (n =? 98)%N then Some "008"%char
  else if (n =? 102)%N then Some "012"%char
  else if (n =? 110)%N then Some "010"%char
  else if (n =? 114)%N then Some "013"%char
  else if (n =? 116)%N then Some "009"%char
  else None.

(** [py_scanstring] in strict mode, from just after the opening quote:
    the decoded string and the text after the closing quote.  A unicode
    escape of a code point from 256 on is outside the model. *)
Fixpoint scanstring (s : string) : result (string * string) :=
  match s with
  | "" => Raise (ValueError "Unterminated string")
  | String c r =>
    if (c =? dquote)%char then Ok ("", r)
    else if (c =? bslash)%char then
      match r with
      | "" => Raise (ValueError "Unterminated string")
      | String e r1 =>
        if (e =? "u")%char then
          match r1 with
          | String h1 (String h2 (String h3 (String h4 r2))) =>
            match hex4 h1 h2 h3 h4 with
            | Some n =>
              if (n <? 256)%N then
                '(t, rest) ← scanstring r2; Ok (String (ascii_of_N n) t, rest)
              else Raise (External "code point outside the model")
            | None => Raise (ValueError "Invalid unicode escape")
            end
          | _ => Raise (ValueError "Invalid unicode escape")
          end
        else
          match unescape e with
          | Some ch => '(t, rest) ← scanstring r1; Ok (String ch t, rest)
          | None => Raise (ValueError "Invalid escape")
          end
      end
    else if (N_of_ascii c <? 32)%N then
      Raise (ValueError "Invalid control character")
    else '(t, rest) ← scanstring r; Ok (String c t, rest)
  end.

(** [scan_once] and [JSONArray].  The fuel bounds the number of values
    read; [loads] gives one more than the length of the text, which is
    enough for every text [dumps] writes.  Objects, numbers and the literals are outside the
    model. *)
Fixpoint parse_value (fuel : nat) (s : string) : result (json * string) :=
  match fuel with
  | O => Raise (External "fuel")
  | S n =>
    match s with
    | "" => Raise (ValueError "Expecting value")
    | String c r =>
      if (c =? dquote)%char then
        '(t, rest) ← scanstring r; Ok (JStr t, rest)
      else if (c =? "[")%char then
        match skip_ws r with
        | "" => Raise (ValueError "Expecting value")
        | String c1 r1 =>
          if (c1 =? "]")%char then Ok (JList [], r1)
          else '(l, rest) ← parse_items n (String c1 r1); Ok (JList l, rest)
        end
      else if (c =? "]")%char || (c =? ",")%char then
        Raise (ValueError "Expecting value")
      else Raise (External "json value outside the model")
    end
  end
with parse_items (fuel : nat) (s : string) : result (list json * string) :=
  match fuel with
  | O => Raise (External "fuel")
  | S n =>
    '(v, r) ← parse_value n s;
    match skip_ws r with
    | "" => Raise (ValueError "Expecting ',' delimiter")
    | String c r1 =>
      if (c =? "]")%char then Ok ([v], r1)
      else if (c =? ",")%char then
        '(l, rest) ← parse_items n (skip_ws r1); Ok (v :: l, rest)
      else Raise (ValueError "Expecting ',' delimiter")
    end
  end.

(** [json.loads(s)] *)
Definition loads (s : string) : result json :=
  '(v, rest) ← parse_value (S (String.length s)) (skip_ws s);
  match skip_ws rest with
  | "" => Ok v
  | _ => Raise (ValueError "Extra data")
  end.

(** ** The decoder inverts the encoder *)

Lemma append_assoc (a b c : string) : (a +:+ b) +:+ c = a +:+ (b +:+ c).
Proof. induction a as [|x a IH]; simpl; [done | by rewrite IH]. Qed.

Lemma append_nil_r (a : string) : a +:+ "" = a.
Proof. induction a as [|x a IH]; simpl; [done | by rewrite IH]. Qed.

Lemma length_append (a b : string) :
  String.length (a +:+ b) = String.length a + String.length b.
Proof. induction a as [|x a IH]; simpl; [done | by rewrite IH]. Qed.

(** Reading back one written character. *)
Lemma scanstring_escape_char (c : ascii) (t : string) :
  scanstring (escape_char c +:+ t) =
  ('(u, rest) ← scanstring t; Ok (String c u, rest)).
Proof.
  destruct c as [[] [] [] [] [] [] [] []]; reflexivity.
Qed.

Lemma scanstring_escape (s rest : string) :
  scanstring (escape s +:+ String dquote rest) = Ok (s, rest).
Proof.
  induction s as [|c s IH]; simpl; [done|].
  rewrite append_assoc, scanstring_escape_char, IH. done.
Qed.

(** A written value starts with a quote or a bracket. *)
Lemma dumps_head (v : json) :
  ∃ c r, dumps v = String c r ∧ is_ws c = false ∧
         (c =? "]")%char = false ∧ ((c =? dquote)%char = true ∨ (c =? "[")%char = true).
Proof.
  destruct v; simpl; eexists _, _; (split; [reflexivity|]); auto.
Qed.

Lemma skip_ws_dumps (v : json) (rest : string) :
  skip_ws (dumps v +:+ rest) = dumps v +:+ rest.
Proof.
  destruct (dumps_head v) as (c & r & -> & Hws & _). simpl. by rewrite Hws.
Qed.

(** The number of values the decoder reads for [v]. *)
Fixpoint weight (v : json) : nat :=
  match v with
  | JStr _ => 1
  | JList l => S (list_sum (map (λ v, S (weight v)) l))
  end.

Lemma parse_items_dumps (n : nat) (l : list json) (v : json) (rest : string) :
  Forall (λ v, ∀ fuel rest, weight v ≤ fuel →
            parse_value fuel (dumps v +:+ rest) = Ok (v, rest)) (v :: l) →
  list_sum (map (λ v, S (weight v)) (v :: l)) ≤ n →
  parse_items n (join ", " (map dumps (v :: l)) +:+ String "]" rest)
  = Ok (v :: l, rest).
Proof.
  revert n v. induction l as [|v' l IH]; intros n v Hall Hn.
  - apply Forall_cons in Hall as [Hv _]. simpl in Hn.
    destruct n as [|n]; [lia|]. simpl.
    rewrite Hv by lia. reflexivity.
  - apply Forall_cons in Hall as [Hv Hall].
    change (list_sum (map (λ v, S (weight v)) (v :: v' :: l)))
      with (S (weight v) + list_sum (map (λ v, S (weight v)) (v' :: l))) in Hn.
    destruct n as [|n]; [lia|].
    change (join ", " (map dumps (v :: v' :: l)))
      with (dumps v +:+ ", " +:+ join ", " (map dumps (v' :: l))).
    rewrite !append_assoc.
    cbn [parse_items]. rewrite Hv by lia. cbn [mbind result_bind].
    change (", " +:+ ?x) with (String "," (String " " x)).
    change (skip_ws (String "," ?y)) with (String "," y).
    cbv iota beta.
    change ("," =? "]")%char with false. change ("," =? ",")%char with true.
    cbv iota beta.
    change (skip_ws (String " " ?y)) with (skip_ws y).
    assert (Hskip : skip_ws (join ", " (map dumps (v' :: l)) +:+ String "]" rest)
                    = join ", " (map dumps (v' :: l)) +:+ String "]" rest).
    { destruct l as [|v'' l]; simpl.
      - apply skip_ws_dumps.
      - rewrite !append_assoc. apply skip_ws_dumps. }
    rewrite Hskip, IH; [done | done | lia].
Qed.

Lemma parse_value_dumps (v : json) :
  ∀ fuel rest, weight v ≤ fuel →
    parse_value fuel (dumps v +:+ rest) = Ok (v, rest).
Proof.
  induction v as [s|l IH] using json_ind'; intros fuel rest Hfuel.
  - destruct fuel as [|n]; [simpl in Hfuel; lia|].
    simpl. rewrite append_assoc. simpl. by rewrite scanstring_escape.
  - destruct fuel as [|n]; [simpl in Hfuel; lia|].
    simpl in Hfuel.
    destruct l as [|v l].
    + reflexivity.
    + change (dumps (JList (v :: l)))
        with ("[" +:+ join ", " (map dumps (v :: l)) +:+ "]").
      rewrite !append_assoc.
      assert (Hitems := parse_items_dumps n l v rest IH ltac:(lia)).
      assert (Hskip : skip_ws (join ", " (map dumps (v :: l)) +:+ String "]" rest)
                      = join ", " (map dumps (v :: l)) +:+ String "]" rest).
      { destruct l as [|v'' l]; simpl.
        - apply skip_ws_dumps.
        - rewrite !append_assoc. apply skip_ws_dumps. }
      cbn [append]. cbn [parse_value]. cbn [Ascii.eqb Bool.eqb dquote].
      change ("]" +:+ rest) with (String "]" rest).
      rewrite Hskip.
      destruct (join ", " (map dumps (v :: l)) +:+ String "]" rest) as [|c1 r1] eqn:E.
      { destruct l; simpl in E; destruct (dumps_head v) as (c & r & Hd & _);
          rewrite Hd in E; simpl in E; discriminate. }
      assert (Hc1 : (c1 =? "]")%char = false).
      { destruct (dumps_head v) as (c & r & Hd & _ & Hc & _).
        destruct l; simpl in E; rewrite Hd in E; simpl in E;
          injection E as <- _; exact Hc. }
      rewrite Hc1, Hitems. reflexivity.
Qed.

Lemma weight_le_length (v : json) : weight v ≤ String.length (dumps v).
Proof.
  induction v as [s|l IH] using json_ind'; simpl; [lia|].
  rewrite length_append.
  enough (list_sum (map (λ v, S (weight v)) l)
          ≤ String.length (join ", " (map dumps l)) + 1) by (simpl; lia).
  induction l as [|v l IHl]; [simpl; lia|].
  apply Forall_cons in IH as [Hv IH]. specialize (IHl IH).
  destruct l as [|v' l].
  - simpl. simpl in Hv. lia.
  - change (join ", " (map dumps (v :: v' :: l)))
      with (dumps v +:+ ", " +:+ join ", " (map dumps (v' :: l))).
    rewrite !length_append.
    change (list_sum (map (λ v, S (weight v)) (v :: v' :: l)))
      with (S (weight v) + list_sum (map (λ v, S (weight v)) (v' :: l))).
    change (String.length ", ") with 2. lia.
Qed.

(** The JSON round trip on the modelled values. *)
Lemma loads_dumps (v : json) : loads (dumps v) = Ok v.
Proof.
  unfold loads.
  pose proof (skip_ws_dumps v "") as Hskip.
  pose proof (parse_value_dumps v (S (String.length (dumps v))) "") as Hparse.
  rewrite append_nil_r in Hskip, Hparse.
  rewrite Hskip, Hparse; [done|].
  pose proof (weight_le_length v). lia.
Qed.

End Json.

(* ===================================================================== *)
(** * The PICRUSt metadata parser and formatter (cell 20) *)
(* ===================================================================== *)

Module Picrust.

(** An HDF5 group as the formatters use it: the datasets created in it,
    by name, each a table of strings with one row per observation. *)
Abbreviation group := (gmap string (list (list string))).

Section Parser.

Context {J : Type}.

(** [from json import loads]: the decoder in scope. *)
Variable loads : string → result J.

(** [arg[0]] *)
Definition first {A} (arg : list A) : result A := or_raise IndexError (head arg).

(** The loop of [picrust_parser]: [new_value.append(loads(arg[0]))] for
    each argument. *)
Fixpoint picrust_parser_loop (args : list (list string)) (new_value : list J)
  : result (list J) :=
  match args with
  | [] => Ok new_value
  | arg :: args' =>
    s ← first arg;
    v ← loads s;
    picrust_parser_loop args' (new_value ++ [v])
  end.

(** [def picrust_parser( *args)].  The result [None] is Python's [None]:
    [return new_value if new_value else None]. *)
Definition picrust_parser (args : list (list string)) : result (option (list J)) :=
  new_value ← picrust_parser_loop args [];
  Ok (match new_value with
      | [] => None
      | _ :: _ => Some new_value
      end).

(** How [biom.Table.from_hdf5] uses a parser of [parse_fs]: the dataset
    of the category is read, and the parser is called on each row, as
    its only positional argument. *)
Definition parse_category (parse_f : list (list string) → result (option (list J)))
  (grp : group) (category : string) : result (list (option (list J))) :=
  rows ← or_raise (KeyError category) (grp !! ("metadata/" +:+ category));
  mapM (λ data_row, parse_f [data_row]) rows.

End Parser.

Section Formatter.

Context {J C : Type}.

(** [from json import dumps]: the encoder in scope. *)
Variable dumps : J → string.

(** [def list_of_list_of_str_formatter(grp, header, md, compression)]:
    each entry of [md] becomes a dict with the one key [header], bound
    to the one element array that holds the JSON text of [m[header]]. *)
Definition list_of_list_of_str_formatter
  (grp : group) (header : string) (md : list (gmap string J)) (compression : C)
  : result (group * string * list (gmap string (list string)) * C) :=
  new_md ← mapM (λ m : gmap string J,
                   v ← or_raise (KeyError header) (m !! header);
                   Ok ({[ header := [dumps v] ]} : gmap string (list string))) md;
  Ok (grp, header, new_md, compression).

(** [biom.table.vlen_list_of_str_formatter]: creates the dataset
    [metadata/<header>] of shape (number of entries, longest value),
    shorter rows filled up with empty strings. *)
Definition pad (width : nat) (row : list string) : list string :=
  row ++ replicate (width - length row) "".

Definition vlen_list_of_str_formatter
  (grp : group) (header : string) (md : list (gmap string (list string)))
  (compression : C) : result group :=
  rows ← mapM (λ m : gmap string (list string),
                 or_raise (KeyError header) (m !! header)) md;
  match rows with
  | [] => Raise (ValueError "max() arg is an empty sequence")
  | _ :: _ =>
    let width := max_list (length <$> rows) in
    Ok (<["metadata/" +:+ header := pad width <$> rows]> grp)
  end.

(** [def picrust_formatter( *args)] *)
Definition picrust_formatter
  (grp : group) (header : string) (md : list (gmap string J)) (compression : C)
  : result group :=
  '(grp, header, new_md, compression) ←
    list_of_list_of_str_formatter grp header md compression;
  vlen_list_of_str_formatter grp header new_md compression.

End Formatter.

(** ** Facts *)

Section ParserFacts.

Context {J : Type}.
Variable loads : string → result J.

Lemma picrust_parser_loop_decodes (args : list (list string)) (vs acc : list J) :
  Forall2 (λ arg v, ∃ s, head arg = Some s ∧ loads s = Ok v) args vs →
  picrust_parser_loop loads args acc = Ok (acc ++ vs).
Proof.
  intros H. revert acc.
  induction H as [|arg v args vs (s & Hs & Hv) _ IH]; intros acc; simpl.
  - by rewrite app_nil_r.
  - unfold first. rewrite Hs. simpl. rewrite Hv. simpl.
    rewrite IH, <- app_assoc. done.
Qed.

(** An empty row makes [arg[0]] raise. *)
Lemma picrust_parser_empty_row (args : list (list string)) :
  picrust_parser loads ([] :: args) = Raise IndexError.
Proof. reflexivity. Qed.

(** An error of the decoder is not caught. *)
Lemma picrust_parser_decode_error (s : string) (row : list string)
  (args : list (list string)) (e : exn) :
  loads s = Raise e → picrust_parser loads ((s :: row) :: args) = Raise e.
Proof. intros H. unfold picrust_parser. simpl. rewrite H. done. Qed.

(** C9.  Called with no argument, [picrust_parser] returns [None], not
    an empty list; called with one or more arguments it returns the list
    of the JSON decoded first elements of the arguments, in order. *)
Theorem picrust_parser_returns (args : list (list string)) (vs : list J) :
  picrust_parser loads [] = Ok None ∧
  (args ≠ [] →
   Forall2 (λ arg v, ∃ s, head arg = Some s ∧ loads s = Ok v) args vs →
   picrust_parser loads args = Ok (Some vs) ∧ length vs = length args).
Proof.
  split; [reflexivity|].
  intros Hne H. unfold picrust_parser.
  rewrite (picrust_parser_loop_decodes args vs [] H). simpl.
  destruct H as [|arg v args vs]; [done|].
  split; [done|]. simpl. f_equal. symmetry. by eapply Forall2_length.
Qed.

End ParserFacts.

(** ** The formatter followed by the parser, with Python's [json] *)

Import Json.

Lemma mapM_result_cons {A B} (f : A → result B) (x : A) (l : list A) :
  mapM f (x :: l) = (y ← f x; k ← mapM f l; Ok (y :: k)).
Proof. reflexivity. Qed.

Lemma mapM_result_fmap {A B} (f : A → result B) (g : A → B) (l : list A) :
  (∀ x, x ∈ l → f x = Ok (g x)) → mapM f l = Ok (g <$> l).
Proof.
  induction l as [|x l IH]; intros H; simpl; [done|].
  rewrite (H x) by left. simpl.
  rewrite IH; [done|]. intros y Hy. apply H. by right.
Qed.

Lemma list_of_list_of_str_formatter_ok {C} (grp : group) (header : string)
  (md : list (gmap string json)) (vs : list json) (c : C) :
  Forall2 (λ m v, m !! header = Some v) md vs →
  list_of_list_of_str_formatter dumps grp header md c
  = Ok (grp, header, (λ v, {[ header := [dumps v] ]}) <$> vs, c).
Proof.
  intros H. unfold list_of_list_of_str_formatter.
  assert (mapM (λ m : gmap string json,
                  v ← or_raise (KeyError header) (m !! header);
                  Ok ({[ header := [dumps v] ]} : gmap string (list string))) md
          = Ok ((λ v, {[ header := [dumps v] ]}) <$> vs)) as ->; [|done].
  induction H as [|m v md vs Hm _ IH]; simpl; [done|].
  rewrite Hm. simpl. rewrite IH. done.
Qed.

Lemma max_list_singletons (ss : list string) :
  ss ≠ [] → max_list (length <$> ((λ s : string, [s]) <$> ss)) = 1.
Proof.
  destruct ss as [|s ss]; [done|]. intros _.
  induction ss as [|s' ss IH]; [done|].
  change (max_list (length <$> ((λ s : string, [s]) <$> (s :: s' :: ss))))
    with (1 `max` max_list (length <$> ((λ s : string, [s]) <$> (s' :: ss)))).
  change (max_list (length <$> ((λ s : string, [s]) <$> (s :: ss))))
    with (1 `max` max_list (length <$> ((λ s : string, [s]) <$> ss))) in IH.
  change (max_list (length <$> ((λ s : string, [s]) <$> (s' :: ss))))
    with (1 `max` max_list (length <$> ((λ s : string, [s]) <$> ss))).
  lia.
Qed.

Lemma pad_singletons (ss : list string) :
  pad 1 <$> ((λ s : string, [s]) <$> ss) = (λ s : string, [s]) <$> ss.
Proof.
  induction ss as [|s ss IH]; [done|].
  rewrite !fmap_cons, IH. reflexivity.
Qed.

Lemma vlen_single_rows {C} (grp : group) (header : string) (ss : list string) (c : C) :
  ss ≠ [] →
  vlen_list_of_str_formatter grp header
    ((λ s, {[ header := [s] ]}) <$> ss) c
  = Ok (<["metadata/" +:+ header := (λ s, [s]) <$> ss]> grp).
Proof.
  intros Hne. unfold vlen_list_of_str_formatter.
  assert (mapM (λ m : gmap string (list string),
                  or_raise (KeyError header) (m !! header))
               ((λ s : string, ({[ header := [s] ]} : gmap string (list string))) <$> ss)
          = Ok ((λ s, [s]) <$> ss)) as ->.
  { clear Hne. induction ss as [|s ss IH]; [done|].
    rewrite fmap_cons, mapM_result_cons, IH, lookup_singleton_eq. done. }
  cbn [mbind result_bind].
  pose proof (max_list_singletons ss Hne) as Hw.
  pose proof (pad_singletons ss) as Hp.
  destruct ss as [|s ss]; [done|].
  rewrite !fmap_cons in *. cbv zeta. rewrite Hw, Hp. reflexivity.
Qed.

(** What the stored row of a value is read back as. *)
Lemma picrust_parser_stored (v : json) :
  picrust_parser loads [[dumps v]] = Ok (Some [v]).
Proof. unfold picrust_parser. simpl. rewrite loads_dumps. done. Qed.

(** What [picrust_formatter] leaves in the group. *)
Lemma picrust_formatter_stores {C} (grp : group) (header : string)
  (md : list (gmap string json)) (vs : list json) (c : C) :
  md ≠ [] →
  Forall2 (λ m v, m !! header = Some v) md vs →
  picrust_formatter dumps grp header md c
  = Ok (<["metadata/" +:+ header := (λ v, [dumps v]) <$> vs]> grp).
Proof.
  intros Hne H.
  assert (Hvs : dumps <$> vs ≠ []).
  { destruct H; [done|]. simpl. discriminate. }
  unfold picrust_formatter.
  rewrite (list_of_list_of_str_formatter_ok grp header md vs c H). simpl.
  pose proof (vlen_single_rows grp header (dumps <$> vs) c Hvs) as Hv.
  rewrite <- !list_fmap_compose in Hv. exact Hv.
Qed.

(** What the parser makes of the stored category. *)
Lemma parse_category_stored (grp : group) (header : string) (vs : list json) :
  parse_category (picrust_parser loads)
    (<["metadata/" +:+ header := (λ v, [dumps v]) <$> vs]> grp) header
  = Ok ((λ v, Some [v]) <$> vs).
Proof.
  unfold parse_category. rewrite lookup_insert_eq. simpl.
  induction vs as [|v vs IH]; [done|].
  rewrite !fmap_cons, mapM_result_cons, picrust_parser_stored, IH. done.
Qed.

(** The claim of a round trip identity at the list [l] of strings: the
    table with the one value [l] under the category is formatted, and
    parsing the category back gives the list [l] again. *)
Definition roundtrip_identity_at (l : list string) : Prop :=
  ∃ grp' : group,
    picrust_formatter dumps ∅ "KEGG_Pathways"
      [ {[ "KEGG_Pathways" := JList (JStr <$> l) ]} ] tt = Ok grp' ∧
    parse_category (picrust_parser loads) grp' "KEGG_Pathways"
    = Ok [Some (JStr <$> l)].

(** C5, as amended.  Formatting list valued metadata with
    [picrust_formatter] stores, for each entry, the single JSON text of
    its value, and [picrust_parser] reads each stored row back as a one
    element list whose only element is the original value: the original
    is wrapped once, not returned as it was. *)
Theorem picrust_roundtrip_wraps {C} (grp : group) (header : string)
  (md : list (gmap string json)) (vs : list json) (c : C) :
  md ≠ [] →
  Forall2 (λ m v, m !! header = Some v) md vs →
  ∃ grp' : group,
    picrust_formatter dumps grp header md c = Ok grp' ∧
    grp' !! ("metadata/" +:+ header) = Some ((λ v, [dumps v]) <$> vs) ∧
    parse_category (picrust_parser loads) grp' header
    = Ok ((λ v, Some [v]) <$> vs).
Proof.
  intros Hne H.
  exists (<["metadata/" +:+ header := (λ v, [dumps v]) <$> vs]> grp).
  split; [by apply picrust_formatter_stores|].
  split; [apply lookup_insert_eq | apply parse_category_stored].
Qed.

Lemma picrust_roundtrip_wraps_witness :
  ∃ grp' : group,
    picrust_formatter dumps ∅ "KEGG_Pathways"
      [ {[ "KEGG_Pathways" := JList [JStr "Metabolism"; JStr "Energy"] ]} ] tt
    = Ok grp' ∧
    grp' !! "metadata/KEGG_Pathways"
    = Some [[dumps (JList [JStr "Metabolism"; JStr "Energy"])]] ∧
    parse_category (picrust_parser loads) grp' "KEGG_Pathways"
    = Ok [Some [JList [JStr "Metabolism"; JStr "Energy"]]].
Proof.
  apply (picrust_roundtrip_wraps ∅ "KEGG_Pathways"
           [ {[ "KEGG_Pathways" := JList [JStr "Metabolism"; JStr "Energy"] ]} ]
           [ JList [JStr "Metabolism"; JStr "Energy"] ] tt).
  - discriminate.
  - repeat constructor.
Defined.

(** C5, as stated, fails: the list of two pathway names does not come
    back as itself but wrapped in a list. *)
Lemma picrust_roundtrip_not_identity :
  ¬ roundtrip_identity_at ["Metabolism"; "Energy"].
Proof.
  intros (grp' & Hfmt & Hparse).
  pose proof (picrust_formatter_stores ∅ "KEGG_Pathways"
                [ {[ "KEGG_Pathways" := JList (JStr <$> ["Metabolism"; "Energy"]) ]} ]
                [JList (JStr <$> ["Metabolism"; "Energy"])] tt
                ltac:(discriminate) ltac:(repeat constructor)) as Hstored.
  rewrite Hstored in Hfmt.
  assert (grp' = <["metadata/" +:+ "KEGG_Pathways" :=
                     (λ v, [dumps v]) <$> [JList (JStr <$> ["Metabolism"; "Energy"])]]> ∅)
    as -> by congruence.
  rewrite parse_category_stored in Hparse. discriminate.
Qed.

Lemma picrust_parser_returns_witness :
  picrust_parser loads [] = Ok None ∧
  picrust_parser loads [["[]"; "padding"]; [dumps (JList [JStr "K00001"])]]
  = Ok (Some [JList []; JList [JStr "K00001"]]).
Proof.
  destruct (picrust_parser_returns loads
              [["[]"; "padding"]; [dumps (JList [JStr "K00001"])]]
              [JList []; JList [JStr "K00001"]]) as [H0 H1].
  split; [exact H0|].
  apply H1.
  - discriminate.
  - repeat constructor; eexists; (split; [reflexivity|]); vm_compute; reflexivity.
Defined.

End Picrust.

(* ===================================================================== *)
(** * Names in a fresh kernel (cells 2 to 10) *)
(* ===================================================================== *)

(** The cells are run top to bottom in one namespace.  Here the cells
    are embedded with their names and their calls: a name is read from
    the namespace (or raises [NameError]), a call into a library is an
    event whose outcome the outside decides.  Nothing is assumed about
    the outside: the results below hold for every behaviour of the
    libraries and of the file system. *)

Module Kernel.

(** Python values as far as the cells look into them.  [VObj] is an
    object of a library (a module, a table, an open file); [VAttr o n]
    is the attribute [o.n] of such an object. *)
#[warning="-register-all"] Inductive value : Type :=
| VNone
| VBool (b : bool)
| VStr (s : string)
| VList (l : list value)
| VDict (d : list (value * value))
| VObj (id : nat)
| VAttr (obj : value) (name : string).

(** What a cell asks of the outside. *)
Inductive call : Type :=
| Import (module : string)
| Shell (command : string)
| Call (callee : value) (args : list value) (kwargs : list (string * value))
| Item (obj key : value)
| Iter (obj : value)
| Enter (cm : value)
| Exit (cm : value).

Record state : Type := mkState {
  globals : gmap string value;
  history : list call
}.

(** A statement runs on the state; an exception leaves the state as it
    was when it was raised. *)
Definition M (A : Type) : Type := state → result A * state.

#[export] Instance M_ret : MRet M := λ A a st, (Ok a, st).
#[export] Instance M_bind : MBind M := λ A B f m st,
  match m st with
  | (Ok a, st') => f a st'
  | (Raise e, st') => (Raise e, st')
  end.

Definition raise {A} (e : exn) : M A := λ st, (Raise e, st).

(** The functions of the [builtins] module of Python 3.6. *)
Definition builtins : list string :=
  [ "abs"; "all"; "any"; "ascii"; "bin"; "bool"; "bytearray"; "bytes";
    "callable"; "chr"; "classmethod"; "compile"; "complex"; "delattr";
    "dict"; "dir"; "divmod"; "enumerate"; "eval"; "exec"; "filter";
    "float"; "format"; "frozenset"; "getattr"; "globals"; "hasattr";
    "hash"; "help"; "hex"; "id"; "input"; "int"; "isinstance";
    "issubclass"; "iter"; "len"; "list"; "locals"; "map"; "max";
    "memoryview"; "min"; "next"; "object"; "oct"; "open"; "ord"; "pow";
    "print"; "property"; "range"; "repr"; "reversed"; "round"; "set";
    "setattr"; "slice"; "sorted"; "staticmethod"; "str"; "sum"; "super";
    "tuple"; "type"; "vars"; "zip"; "__import__" ].

(** The namespace of a kernel that has run no cell: the names IPython
    itself provides. *)
Definition fresh : state :=
  mkState (list_to_map ((λ n, (n, VAttr (VObj 0) n))
                          <$> ["In"; "Out"; "get_ipython"; "exit"; "quit"]))
          [].

(** Reading the name [x]: the globals, then the builtins. *)
Definition name (x : string) : M value := λ st,
  match globals st !! x with
  | Some v => (Ok v, st)
  | None =>
    if bool_decide (x ∈ builtins) then (Ok (VAttr (VObj 1) x), st)
    else (Raise (NameError x), st)
  end.

(** [x = v] *)
Definition assign (x : string) (v : value) : M unit := λ st,
  (Ok (), mkState (<[x := v]> (globals st)) (history st)).

Section Cells.

(** The outside: the outcome of a call, given the calls made before. *)
Variable extern : list call → call → result value.

Definition ext (c : call) : M value := λ st,
  (extern (history st) c, mkState (globals st) (history st ++ [c])).

(** A line that starts with an exclamation mark: the command is run by
    the system shell, and its failure raises nothing. *)
Definition shell (command : string) : M unit := λ st,
  (Ok (), mkState (globals st) (history st ++ [Shell command])).

(** [$x] in a shell line: the value of the name, or the text as it is
    when the name is unbound. *)
Definition expand (x : string) : M string := λ st,
  match globals st !! x with
  | Some (VStr s) => (Ok s, st)
  | _ => (Ok ("$" +:+ x), st)
  end.

(** [import m as x] *)
Definition import_as (m x : string) : M unit :=
  v ← ext (Import m); assign x v.

(** [template % args] for a template with [%s] fields. *)
Fixpoint percent (template : string) (args : list string) : string :=
  match template with
  | "" => ""
  | String c rest =>
    match rest with
    | String c' rest' =>
      if (c =? "%")%char && (c' =? "s")%char then
        match args with
        | a :: args' => a +:+ percent rest' args'
        | [] => String c (String c' (percent rest' []))
        end
      else String c (percent rest args)
    | "" => String c ""
    end
  end.

Definition str_of (v : value) : M string :=
  match v with
  | VStr s => mret s
  | _ => raise (External "str() of an object")
  end.

Definition truthy (v : value) : bool :=
  match v with
  | VNone => false
  | VBool b => b
  | VStr s => negb (String.eqb s "")
  | VList l => match l with [] => false | _ => true end
  | VDict d => match d with [] => false | _ => true end
  | VObj _ | VAttr _ _ => true
  end.

(** The items a [for] or a comprehension runs over. *)
Definition iterate (v : value) : M (list value) :=
  match v with
  | VList l => mret l
  | _ =>
    r ← ext (Iter v);
    match r with
    | VList l => mret l
    | _ => raise (TypeError "object is not iterable")
    end
  end.

(** [obj[key]] on an object a library returned. *)
Definition getitem (obj key : value) : M value := ext (Item obj key).

(** [for x in items: body] *)
Fixpoint for_in (x : string) (items : list value) (body : M unit) : M unit :=
  match items with
  | [] => mret ()
  | v :: rest => assign x v;; body;; for_in x rest body
  end.

(** [with cm: body].  The context managers of the cells ([biom_open],
    [h5py.File], [open]) close their file on exit and do not swallow an
    exception of the body. *)
Definition with_ (cm : value) (body : M unit) : M unit := λ st,
  match ext (Enter cm) st with
  | (Raise e, st0) => (Raise e, st0)
  | (Ok _, st0) =>
    match body st0 with
    | (Raise e, st1) => (Raise e, snd (ext (Exit cm) st1))
    | (Ok _, st1) =>
      match ext (Exit cm) st1 with
      | (Raise e, st2) => (Raise e, st2)
      | (Ok _, st2) => (Ok (), st2)
      end
    end
  end.

(** Cell 2. *)
Definition cell2 : M unit :=
  import_as "os" "os";;
  import_as "shutil" "shutil";;
  import_as "biom" "biom";;
  import_as "h5py" "h5py";;
  import_as "numpy" "np";;
  import_as "pandas" "pd".

(** Cell 4. *)
Definition cell4 : M unit :=
  assign "depths"
    (VList [VStr "1250"; VStr "2500"; VStr "5000"; VStr "10000"; VStr "50000"]);;
  assign "alpha_metrics"
    (VList [VStr "observed_otus"; VStr "faiths_pd"; VStr "shannon"]).

(** Cell 6. *)
Definition cell6 : M unit :=
  depths ← name "depths";
  items ← iterate depths;
  for_in "depth" items (
    depth ← name "depth" ≫= str_of;
    assign "dir_path" (VStr (percent "./03.packaged/%s" [depth]));;
    os ← name "os";
    dir_path ← name "dir_path";
    found ← ext (Call (VAttr (VAttr os "path") "exists") [dir_path] []);
    if truthy found then mret ()
    else
      os ← name "os";
      dir_path ← name "dir_path";
      ext (Call (VAttr os "makedirs") [dir_path] []);;
      mret ()).

(** Cell 8: the taxonomy lookup.  The dict comprehension runs over
    [raw_t.ids(axis='observation')] with [id_] local to it. *)
Fixpoint taxa_entries (ids : list value) : M (list (value * value)) :=
  match ids with
  | [] => mret []
  | id_ :: rest =>
    raw_t ← name "raw_t";
    md ← ext (Call (VAttr raw_t "metadata") [id_] [("axis", VStr "observation")]);
    taxonomy ← getitem md (VStr "taxonomy");
    entries ← taxa_entries rest;
    mret ((id_, VDict [(VStr "taxonomy", taxonomy)]) :: entries)
  end.

Definition cell8 : M unit :=
  load_table ← name "load_table";
  raw_t ← ext (Call load_table
                 [VStr "./03.packaged/1250/deblur_125nt_no_blooms.biom"] []);
  assign "raw_t" raw_t;;
  raw_t ← name "raw_t";
  ids ← ext (Call (VAttr raw_t "ids") [] [("axis", VStr "observation")]);
  items ← iterate ids;
  entries ← taxa_entries items;
  assign "taxa_lookup" (VDict entries).

(** Cell 10: the table export. *)
Definition cell10_body : M unit :=
  depth ← name "depth" ≫= str_of;
  assign "old_table_fp"
    (VStr (percent "./02.build_package/02.rarefied/%s/deblur_125nt_0.qza" [depth]));;
  depth ← name "depth" ≫= str_of;
  assign "new_table_fp"
    (VStr (percent "./03.packaged/%s/deblur_125nt_no_blooms_rare.biom" [depth]));;
  assign "temp_dir" (VStr "./table_temp");;
  old ← expand "old_table_fp";
  tmp ← expand "temp_dir";
  shell ("qiime tools export " +:+ old +:+ " --output-dir " +:+ tmp);;
  biom ← name "biom";
  os ← name "os";
  temp_dir ← name "temp_dir";
  joined ← ext (Call (VAttr (VAttr os "path") "join")
                  [temp_dir; VStr "feature-table.biom"] []);
  new_table_fp ← name "new_table_fp";
  table_ ← ext (Call (VAttr biom "load_table") [joined; new_table_fp] []);
  assign "table_" table_;;
  table_ ← name "table_";
  taxa_lookup ← name "taxa_lookup";
  ext (Call (VAttr table_ "add_metadata") [taxa_lookup]
         [("axis", VStr "observation")]);;
  biom ← name "biom";
  new_table_fp ← name "new_table_fp";
  cm ← ext (Call (VAttr (VAttr biom "util") "biom_open")
              [new_table_fp; VStr "r"] []);
  with_ cm (
    table_ ← name "table_";
    f_ ← name "f_";
    ext (Call (VAttr table_ "to_hdf5") [f_; VStr "rarefied with taxa"] []);;
    mret ());;
  os ← name "os";
  temp_dir ← name "temp_dir";
  ext (Call (VAttr os "removedirs") [temp_dir] []);;
  mret ().

Definition cell10 : M unit :=
  depths ← name "depths";
  items ← iterate depths;
  for_in "depth" items cell10_body.

(** Running cells one after the other; the first exception stops the
    run. *)
Fixpoint run_all (cells : list (M unit)) : M unit :=
  match cells with
  | [] => mret ()
  | c :: rest => c;; run_all rest
  end.

End Cells.

(** A call of the method [to_hdf5] of some object. *)
Definition is_to_hdf5 (c : call) : bool :=
  match c with
  | Call (VAttr _ m) _ _ => String.eqb m "to_hdf5"
  | _ => false
  end.

(** ** Facts *)

Definition quiet (cs : list call) : Prop := Forall (λ c, is_to_hdf5 c = false) cs.

(** [m] leaves the name [x] as it is and makes no call of [to_hdf5],
    whether it returns or raises. *)
Definition leaves (x : string) {A} (m : M A) : Prop :=
  ∀ st r st', m st = (r, st') →
    globals st' !! x = globals st !! x ∧
    ∃ cs, history st' = history st ++ cs ∧ quiet cs.

(** [m] raises from every state in which [x] is unbound, without a call
    of [to_hdf5]. *)
Definition fails_without (x : string) {A} (m : M A) : Prop :=
  ∀ st, globals st !! x = None →
    ∃ e st' cs, m st = (Raise e, st') ∧
                history st' = history st ++ cs ∧ quiet cs.

Section CellFacts.

Variable extern : list call → call → result value.

Lemma leaves_ret x {A} (a : A) : leaves x (mret a : M A).
Proof.
  intros st r st' [= <- <-]. split; [done|]. exists []. rewrite app_nil_r. split; [done | constructor].
Qed.

Lemma leaves_raise x {A} (e : exn) : leaves x (raise e : M A).
Proof.
  intros st r st' [= <- <-]. split; [done|]. exists []. rewrite app_nil_r. split; [done | constructor].
Qed.

Lemma leaves_bind x {A B} (m : M A) (f : A → M B) :
  leaves x m → (∀ a, leaves x (f a)) → leaves x (m ≫= f).
Proof.
  intros Hm Hf st r st' H. unfold mbind, M_bind in H.
  destruct (m st) as [[a|e] st1] eqn:E.
  - destruct (Hm _ _ _ E) as (Hx & cs & Hh & Hq).
    destruct (Hf a _ _ _ H) as (Hx' & cs' & Hh' & Hq').
    split; [congruence|]. exists (cs ++ cs').
    rewrite Hh', Hh, app_assoc. split; [done | by apply Forall_app].
  - injection H as <- <-. exact (Hm _ _ _ E).
Qed.

Lemma leaves_name x y : leaves x (name y).
Proof.
  intros st r st' H. unfold name in H.
  assert (st' = st) as ->.
  { destruct (globals st !! y); [|case_bool_decide]; by injection H. }
  split; [done|]. exists []. rewrite app_nil_r. split; [done | constructor].
Qed.

Lemma leaves_assign x y v : x ≠ y → leaves x (assign y v).
Proof.
  intros Hne st r st' [= <- <-]. simpl.
  split; [by rewrite lookup_insert_ne|]. exists []. rewrite app_nil_r. split; [done | constructor].
Qed.

Lemma leaves_ext x c : is_to_hdf5 c = false → leaves x (ext extern c).
Proof.
  intros Hc st r st' [= <- <-]. simpl. split; [done|].
  exists [c]. split; [done|]. by constructor.
Qed.

Lemma leaves_shell x cmd : leaves x (shell cmd).
Proof.
  intros st r st' [= <- <-]. simpl. split; [done|].
  exists [Shell cmd]. split; [done|]. by constructor.
Qed.

Lemma leaves_expand x y : leaves x (expand y).
Proof.
  intros st r st' H. unfold expand in H.
  assert (st' = st) as ->.
  { destruct (globals st !! y) as [[]|]; by injection H. }
  split; [done|]. exists []. rewrite app_nil_r. split; [done | constructor].
Qed.

Lemma leaves_str_of x v : leaves x (str_of v).
Proof. destruct v; first [apply leaves_ret | apply leaves_raise]. Qed.

Lemma leaves_iterate x v : leaves x (iterate extern v).
Proof.
  destruct v; simpl; try apply leaves_ret;
    (apply leaves_bind; [by apply leaves_ext|]);
    intros []; first [apply leaves_ret | apply leaves_raise].
Qed.

Lemma leaves_for_in x y items (body : M unit) :
  x ≠ y → leaves x body → leaves x (for_in y items body).
Proof.
  intros Hne Hb. induction items as [|v items IH]; simpl.
  - apply leaves_ret.
  - apply leaves_bind; [by apply leaves_assign|]. intros _.
    apply leaves_bind; [done|]. intros _. exact IH.
Qed.

Lemma leaves_import_as x m y : x ≠ y → leaves x (import_as extern m y).
Proof.
  intros Hne. apply leaves_bind; [by apply leaves_ext|].
  intros v. by apply leaves_assign.
Qed.

Lemma leaves_run_all x cells :
  Forall (leaves x) cells → leaves x (run_all cells).
Proof.
  induction 1 as [|c cells Hc _ IH]; simpl; [apply leaves_ret|].
  apply leaves_bind; [done|]. intros _. exact IH.
Qed.

Ltac leaves_step :=
  first
    [ apply leaves_ret | apply leaves_raise | apply leaves_name
    | apply leaves_assign; discriminate
    | apply leaves_ext; reflexivity
    | apply leaves_shell | apply leaves_expand | apply leaves_str_of
    | apply leaves_iterate
    | apply leaves_import_as; discriminate
    | apply leaves_for_in; [discriminate|]
    | apply leaves_bind; [|intros ?]
    | match goal with |- leaves _ (if ?b then _ else _) => destruct b end ].

Ltac leaves_auto := repeat leaves_step.

Lemma leaves_cell2 x :
  x ∉ ["os"; "shutil"; "biom"; "h5py"; "np"; "pd"] → leaves x (cell2 extern).
Proof.
  intros Hx. unfold cell2.
  do 5 (apply leaves_bind;
        [apply leaves_import_as; intros ->; apply Hx; set_solver | intros ?]).
  apply leaves_import_as; intros ->; apply Hx; set_solver.
Qed.

Lemma leaves_cell4 x :
  x ∉ ["depths"; "alpha_metrics"] → leaves x cell4.
Proof.
  intros Hx. unfold cell4.
  apply leaves_bind; [|intros ?];
    apply leaves_assign; intros ->; apply Hx; set_solver.
Qed.

Lemma leaves_cell6 x :
  x ∉ ["depth"; "dir_path"] → leaves x (cell6 extern).
Proof.
  intros Hx. unfold cell6.
  apply leaves_bind; [apply leaves_name|]. intros depths.
  apply leaves_bind; [apply leaves_iterate|]. intros items.
  apply leaves_for_in; [intros ->; apply Hx; set_solver|].
  apply leaves_bind; [leaves_auto|]. intros depth.
  apply leaves_bind; [apply leaves_assign; intros ->; apply Hx; set_solver|].
  intros _. leaves_auto.
Qed.

(** The cells before the taxonomy lookup leave every name they do not
    assign unbound, and call no [to_hdf5]. *)
Lemma prefix_leaves x :
  x ∉ ["os"; "shutil"; "biom"; "h5py"; "np"; "pd"; "depths"; "alpha_metrics";
       "depth"; "dir_path"] →
  leaves x (run_all [cell2 extern; cell4; cell6 extern]).
Proof.
  intros Hx. apply leaves_run_all.
  apply Forall_cons. split; [apply leaves_cell2; set_solver|].
  apply Forall_cons. split; [apply leaves_cell4; set_solver|].
  apply Forall_cons. split; [apply leaves_cell6; set_solver|].
  apply Forall_nil_2.
Qed.

(** Cell 8 in a namespace without [load_table]. *)
Lemma cell8_name_error st :
  globals st !! "load_table" = None →
  cell8 extern st = (Raise (NameError "load_table"), st).
Proof.
  intros H. unfold cell8, mbind, M_bind, name. rewrite H. reflexivity.
Qed.

(** ** The table export without [f_] *)

Lemma fails_bind_l x {A B} (m : M A) (f : A → M B) :
  fails_without x m → fails_without x (m ≫= f).
Proof.
  intros Hm st Hx. destruct (Hm st Hx) as (e & st' & cs & E & Hh & Hq).
  exists e, st', cs. unfold mbind, M_bind. rewrite E. done.
Qed.

Lemma fails_bind_r x {A B} (m : M A) (f : A → M B) :
  leaves x m → (∀ a, fails_without x (f a)) → fails_without x (m ≫= f).
Proof.
  intros Hm Hf st Hx. unfold mbind, M_bind.
  destruct (m st) as [[a|e] st1] eqn:E;
    destruct (Hm _ _ _ E) as (Hx1 & cs & Hh & Hq).
  - destruct (Hf a st1) as (e & st' & cs' & E' & Hh' & Hq'); [congruence|].
    exists e, st', (cs ++ cs'). rewrite E', Hh', Hh, app_assoc.
    split; [done|]. split; [done | by apply Forall_app].
  - exists e, st1, cs. done.
Qed.

Lemma fails_name x : x ∉ builtins → fails_without x (name x).
Proof.
  intros Hb st Hx. exists (NameError x), st, [].
  unfold name. rewrite Hx, bool_decide_eq_false_2 by done.
  rewrite app_nil_r. repeat split. constructor.
Qed.

Lemma fails_with x cm (body : M unit) :
  fails_without x body → fails_without x (with_ extern cm body).
Proof.
  intros Hb st Hx. unfold with_, ext. simpl.
  destruct (extern (history st) (Enter cm)) as [v|e].
  - destruct (Hb (mkState (globals st) (history st ++ [Enter cm])) Hx)
      as (e & st' & cs & E & Hh & Hq).
    rewrite E. simpl. eexists e, _, ([Enter cm] ++ cs ++ [Exit cm]).
    split; [reflexivity|]. simpl. simpl in Hh. rewrite Hh, <- !app_assoc.
    split; [done|]. constructor; [done|]. apply Forall_app. split; [done|].
    by constructor.
  - eexists e, _, [Enter cm]. split; [reflexivity|]. split; [done|].
    by constructor.
Qed.

Lemma fails_for_in x y v items (body : M unit) :
  x ≠ y → fails_without x body → fails_without x (for_in y (v :: items) body).
Proof.
  intros Hne Hb. simpl.
  apply fails_bind_r; [by apply leaves_assign|]. intros _.
  by apply fails_bind_l.
Qed.

Lemma cell10_body_fails : fails_without "f_" (cell10_body extern).
Proof.
  unfold cell10_body.
  repeat (apply fails_bind_r; [solve [leaves_auto]|intros ?]).
  apply fails_bind_l. apply fails_with.
  apply fails_bind_r; [apply leaves_name|]. intros table_.
  apply fails_bind_l. apply fails_name. vm_compute. set_solver.
Qed.

Lemma bind_ok_inv {A B} (m : M A) (f : A → M B) st b st' :
  (m ≫= f) st = (Ok b, st') →
  ∃ a st1, m st = (Ok a, st1) ∧ f a st1 = (Ok b, st').
Proof.
  unfold mbind, M_bind. destruct (m st) as [[a|e] st1]; [eauto | discriminate].
Qed.

(** After cells 2 to 6, [depths] is the list of cell 4. *)
Lemma prefix_depths st :
  run_all [cell2 extern; cell4; cell6 extern] fresh = (Ok (), st) →
  globals st !! "depths"
  = Some (VList [VStr "1250"; VStr "2500"; VStr "5000"; VStr "10000"; VStr "50000"]).
Proof.
  intros H. simpl in H.
  apply bind_ok_inv in H as (u2 & st2 & _ & H).
  apply bind_ok_inv in H as (u4 & st4 & H4 & H).
  apply bind_ok_inv in H as (u6 & st6 & H6 & H).
  injection H as <-.
  destruct (leaves_cell6 "depths" ltac:(set_solver) _ _ _ H6) as [-> _].
  unfold cell4, assign, mbind, M_bind in H4. inversion H4; subst; simpl.
  rewrite lookup_insert_ne by done. apply lookup_insert_eq.
Qed.

(** C10.  On a fresh kernel the taxonomy lookup never builds its
    mapping: whatever the libraries do, the run of the cells up to cell 8
    raises and leaves [taxa_lookup] and [raw_t] unbound; and when the
    cells before it have run, cell 8 raises [NameError] on the bare name
    [load_table], which no cell has bound (cell 2 binds [biom], not its
    functions), before it calls anything. *)
Theorem taxonomy_lookup_name_error :
  (∃ e st, run_all [cell2 extern; cell4; cell6 extern; cell8 extern] fresh
           = (Raise e, st) ∧
           globals st !! "taxa_lookup" = None ∧ globals st !! "raw_t" = None) ∧
  (∀ st, run_all [cell2 extern; cell4; cell6 extern] fresh = (Ok (), st) →
         cell8 extern st = (Raise (NameError "load_table"), st) ∧
         globals st !! "load_table" = None).
Proof.
  assert (Hpre : ∀ x,
             x ∈ ["load_table"; "taxa_lookup"; "raw_t"] →
             globals (snd (run_all [cell2 extern; cell4; cell6 extern] fresh)) !! x
             = None).
  { intros x Hx.
    destruct (run_all [cell2 extern; cell4; cell6 extern] fresh) as [r st] eqn:H.
    destruct (prefix_leaves x ltac:(set_solver) _ _ _ H) as [Hg _].
    simpl. rewrite Hg. set_solver by (vm_compute; reflexivity). }
  split.
  - assert (Hrun : run_all [cell2 extern; cell4; cell6 extern; cell8 extern] fresh
                   = (run_all [cell2 extern; cell4; cell6 extern];; cell8 extern) fresh).
    { change (run_all [cell2 extern; cell4; cell6 extern; cell8 extern])
        with (cell2 extern;; cell4;; cell6 extern;; cell8 extern;; mret ()).
      change (run_all [cell2 extern; cell4; cell6 extern])
        with (cell2 extern;; cell4;; cell6 extern;; mret ()).
      unfold mbind, M_bind.
      destruct (cell2 extern fresh) as [[[]|?] s2]; [|done].
      destruct (cell4 s2) as [[[]|?] s4]; [|done].
      destruct (cell6 extern s4) as [[[]|?] s6]; [|done].
      unfold mret, M_ret. by destruct (cell8 extern s6) as [[[]|?] ?]. }
    rewrite Hrun. unfold mbind, M_bind.
    destruct (run_all [cell2 extern; cell4; cell6 extern] fresh)
      as [[[]|e] st]; simpl in Hpre.
    + exists (NameError "load_table"), st.
      rewrite cell8_name_error by (apply Hpre; set_solver).
      split; [done|]. split; apply Hpre; set_solver.
    + exists e, st. split; [done|]. split; apply Hpre; set_solver.
  - intros st H. rewrite H in Hpre. simpl in Hpre.
    assert (globals st !! "load_table" = None) as Hl by (apply Hpre; set_solver).
    split; [by apply cell8_name_error | done].
Qed.

(** C1, on the code.  On a fresh kernel, once cells 2 to 6 have run,
    the table export raises in its first iteration and calls no
    [to_hdf5], whatever the libraries do: no table is saved. *)
Theorem table_export_raises st :
  run_all [cell2 extern; cell4; cell6 extern] fresh = (Ok (), st) →
  ∃ e st' cs, cell10 extern st = (Raise e, st') ∧
              history st' = history st ++ cs ∧ quiet cs.
Proof.
  intros H.
  pose proof (prefix_depths st H) as Hd.
  destruct (prefix_leaves "f_" ltac:(set_solver) _ _ _ H) as [Hf _].
  change (globals fresh !! "f_") with (@None value) in Hf.
  unfold cell10, mbind at 1, M_bind at 1, name. rewrite Hd.
  unfold mbind at 1, M_bind at 1. simpl iterate.
  unfold mret at 1, M_ret at 1.
  by apply (fails_for_in "f_" "depth"); [|apply cell10_body_fails|].
Qed.

End CellFacts.

(** ** Two libraries to run the cells against *)

Definition attr_is (v : value) (n : string) : bool :=
  match v with
  | VAttr _ m => String.eqb m n
  | _ => false
  end.

(** A library that accepts every call: no path exists, every call
    returns a new object, every object iterates as empty. *)
Definition lenient (h : list call) (c : call) : result value :=
  match c with
  | Import _ => Ok (VObj (2 + length h))
  | Shell _ => Ok VNone
  | Call f _ _ =>
    if attr_is f "exists" then Ok (VBool false)
    else if attr_is f "join" then Ok (VStr "./table_temp/feature-table.biom")
    else Ok (VObj (2 + length h))
  | Item _ _ => Ok (VStr "k__Bacteria")
  | Iter _ => Ok (VList [])
  | Enter cm => Ok cm
  | Exit _ => Ok VNone
  end.

(** The same, with the signature of [biom.load_table]: one positional
    argument. *)
Definition one_argument_load_table (h : list call) (c : call) : result value :=
  match c with
  | Call f args _ =>
    if attr_is f "load_table" && negb (length args =? 1) then
      Raise (TypeError "load_table() takes 1 positional argument")
    else lenient h c
  | _ => lenient h c
  end.

Definition after_prefix (extern : list call → call → result value) : state :=
  snd (run_all [cell2 extern; cell4; cell6 extern] fresh).

Example table_export_lenient :
  fst (cell10 lenient (after_prefix lenient)) = Raise (NameError "taxa_lookup").
Proof. vm_compute. reflexivity. Qed.

Example table_export_one_argument :
  fst (cell10 one_argument_load_table (after_prefix one_argument_load_table))
  = Raise (TypeError "load_table() takes 1 positional argument").
Proof. vm_compute. reflexivity. Qed.

(** On a kernel in which [taxa_lookup] is bound by hand, the export
    stops at the name [f_], which the [with] line does not bind. *)
Example table_export_unbound_file :
  fst (cell10 lenient
         (mkState (<["taxa_lookup" := VDict []]> (globals (after_prefix lenient)))
                  (history (after_prefix lenient))))
  = Raise (NameError "f_").
Proof. vm_compute. reflexivity. Qed.

Lemma taxonomy_lookup_name_error_witness :
  cell8 lenient (after_prefix lenient)
  = (Raise (NameError "load_table"), after_prefix lenient).
Proof.
  apply (proj2 (taxonomy_lookup_name_error lenient) (after_prefix lenient)).
  vm_compute. reflexivity.
Defined.

Lemma table_export_raises_witness :
  ∃ e st' cs, cell10 lenient (after_prefix lenient) = (Raise e, st') ∧
              history st' = history (after_prefix lenient) ++ cs ∧ quiet cs.
Proof.
  apply (table_export_raises lenient (after_prefix lenient)).
  vm_compute. reflexivity.
Defined.

End Kernel.

(* ===================================================================== *)
(** * Rounding *)
(* ===================================================================== *)

(** Sums and means of rational numbers, and how near a sum and a
    quotient that are each a little off come to the mean. *)

Module Rounding.

Import QArith_base Qabs.

(** The sum of a list of rationals. *)
Abbreviation total l := (foldr Qplus (inject_Z 0) l).




End Rounding.

(* ===================================================================== *)
(** * The metadata and alpha diversity merge (cells 12 to 18) *)
(* ===================================================================== *)

(** The cells work on pandas data frames and on biom tables.  The frames
    are modelled with the operations the cells use on them, each after
    the behaviour pandas documents for it (and the version of the
    notebook's environment has): [concat] along the columns is an outer
    join on the index, [mean] skips missing values, assigning through
    [.loc] with a list of labels needs every label in the index,
    [dropna] drops a row for a missing value in any column. *)

Module Alpha.

(** [key in d] for an association list, and [d[key]]. *)
Fixpoint assoc {A} (c : string) (l : list (string * A)) : option A :=
  match l with
  | [] => None
  | (k, v) :: l' => if decide (k = c) then Some v else assoc c l'
  end.

(** [depths] and [alpha_metrics] as cell 15 spells them out. *)
Definition depths : list string := ["1250"; "2500"; "5000"; "10000"; "50000"].
Definition alpha_metrics : list string := ["observed_otus"; "faiths_pd"; "shannon"].

(** [%i] of an iteration number below ten. *)
Definition digit (i : nat) : string := String (ascii_of_nat (48 + i)) "".

(** ['%s_%s_%i' % (metric, depth, i)] and ['%s_%s' % (metric, depth)] *)
Definition iteration_name (metric depth : string) (i : nat) : string :=
  metric +:+ "_" +:+ depth +:+ "_" +:+ digit i.
Definition mean_name (metric depth : string) : string :=
  metric +:+ "_" +:+ depth.

(** An exported [alpha-diversity.tsv]: a first column without a header
    that holds the sample ids, and one column of values, as text; a
    value pandas reads as missing is [None]. *)
Record alpha_tsv : Type := mkTsv {
  tsv_header : string;
  tsv_rows : list (string * option string)
}.

(** ** Text files of ids *)

Definition newline : ascii := "010"%char.

(** [text.split('\n')] *)
Fixpoint split_newline (s : string) : list string :=
  match s with
  | "" => [""]
  | String c r =>
    if (c =? newline)%char then "" :: split_newline r
    else match split_newline r with
         | l :: ls => String c l :: ls
         | [] => [String c ""]
         end
  end.

(** The lines of a text file without their line ends, as reading the
    file line by line gives them: a last line that is empty is no
    line. *)
Definition file_lines (text : string) : list string :=
  let pieces := split_newline text in
  match last pieces with
  | Some "" => removelast pieces
  | _ => pieces
  end.

Fixpoint has_char (c : ascii) (s : string) : bool :=
  match s with
  | "" => false
  | String c' r => (c' =? c)%char || has_char c r
  end.

(** An id that can stand on a line of its own. *)
Definition line_id (s : string) : Prop := s ≠ "" ∧ has_char newline s = false.

#[export] Instance line_id_dec s : Decision (line_id s).
Proof. unfold line_id. apply _. Defined.

(** ** How [biom subset-table] reads its file of ids *)

(** The command opens the file in text mode with universal newlines and
    takes [line.strip().split('\t')[0]] of every line that does not
    start with [#].  A character is its code point, below 256. *)

Definition carriage_return : ascii := "013"%char.
Definition tab : ascii := "009"%char.

(** Text mode: a carriage return, alone or before a newline, is read
    as a newline. *)
Fixpoint universal_newlines (s : string) : string :=
  match s with
  | "" => ""
  | String c r =>
    if (c =? carriage_return)%char then
      match r with
      | String c' r' =>
        if (c' =? newline)%char then String newline (universal_newlines r')
        else String newline (universal_newlines r)
      | "" => String newline ""
      end
    else String c (universal_newlines r)
  end.

(** [c.isspace()]: the blanks [str.strip] removes. *)
Definition is_space (c : ascii) : bool :=
  let n := nat_of_ascii c in
  ((9 <=? n) && (n <=? 13)) || ((28 <=? n) && (n <=? 32)) || (n =? 133) || (n =? 160).

Fixpoint lstrip (s : string) : string :=
  match s with
  | "" => ""
  | String c r => if is_space c then lstrip r else s
  end.

Fixpoint rstrip (s : string) : string :=
  match s with
  | "" => ""
  | String c r =>
    match rstrip r with
    | "" => if is_space c then "" else String c ""
    | r' => String c r'
    end
  end.

(** [s.strip()] *)
Definition strip (s : string) : string := rstrip (lstrip s).

(** [s.split('\t')[0]] *)
Fixpoint before_tab (s : string) : string :=
  match s with
  | "" => ""
  | String c r => if (c =? tab)%char then "" else String c (before_tab r)
  end.

(** [line.startswith('#')] *)
Definition starts_with_hash (s : string) : bool :=
  match s with
  | String c _ => (c =? "#")%char
  | "" => false
  end.

(** The ids the command reads from the text of the file, in order. *)
Definition read_ids (text : string) : list string :=
  (λ line, before_tab (strip line))
    <$> filter (λ line, starts_with_hash line = false)
               (file_lines (universal_newlines text)).

(** An id that is read back from a line of the file as it was written:
    it is not empty, its characters are printable and not blank, and
    it does not start with [#]. *)
Definition printable (c : ascii) : bool :=
  (32 <? nat_of_ascii c) && (nat_of_ascii c <? 127).

Fixpoint all_printable (s : string) : bool :=
  match s with
  | "" => true
  | String c r => printable c && all_printable r
  end.

Definition plain_id (s : string) : bool :=
  match s with
  | "" => false
  | String c _ => negb (c =? "#")%char && all_printable s
  end.

Section Frames.

(** The numbers of the float columns, and the arithmetic on them: the
    sum of a row (numpy's reduction), the division of a sum by a count,
    and [float(text)], which raises ([None]) or gives a number or NaN
    ([Some None]). *)
Context {F : Type}.
Variable fsum : list F → F.
Variable fdiv : F → nat → F.
Variable to_float : string → option (option F).

(** A cell holds text (the metadata is read with [dtype=str]) or a
    number; a missing cell (NaN) is an absent key of its column. *)
Inductive cellv : Type :=
| Str (s : string)
| Num (x : F).

Abbreviation series := (gmap string cellv).

(** A data frame: the row labels in order, and the columns in order,
    each with its name.  Names can repeat. *)
Record frame : Type := mkFrame {
  index : list string;
  columns : list (string * series)
}.

(** The value at row [s] of the first column named [c]. *)
Definition cell (f : frame) (s c : string) : option cellv :=
  if decide (s ∈ index f) then ser ← assoc c (columns f); (ser : series) !! s
  else None.

(** The series that holds [g s] at each label [s] of [ix]. *)
Definition series_of (ix : list string) (g : string → option cellv) : series :=
  list_to_map (omap (λ s, (λ v, (s, v)) <$> g s) ix).

(** [.rename(columns=renames)] on one name. *)
Definition rename (renames : list (string * string)) (c : string) : string :=
  default c (assoc c renames).

(** [pd.read_csv(tsv, sep='\t', dtype=str).rename(columns={'Unnamed: 0':
    '#SampleID', metric: new_name}).set_index('#SampleID')] *)
Definition read_alpha (metric new_name : string) (t : alpha_tsv) : result frame :=
  let ids := fst <$> tsv_rows t in
  if decide (NoDup ids) then
    Ok (mkFrame ids
          [(rename [("Unnamed: 0", "#SampleID"); (metric, new_name)] (tsv_header t),
            list_to_map (omap (λ p : string * option string,
                                 (λ v, (p.1, Str v)) <$> p.2) (tsv_rows t)))])
  else Raise (External "repeated sample ids are outside the model").

(** [pd.concat(frames, axis=1)]: the index is kept when all frames have
    the same one, and is the sorted union otherwise; the columns follow
    each other. *)
Definition concat_columns (fs : list frame) : result frame :=
  match fs with
  | [] => Raise (ValueError "No objects to concatenate")
  | f0 :: rest =>
    if decide (Forall (λ f, index f = index f0) rest) then
      Ok (mkFrame (index f0) (concat (columns <$> fs)))
    else if decide (Forall (λ f, NoDup (index f)) fs) then
      Ok (mkFrame (merge_sort String.le (remove_dups (concat (index <$> fs))))
                  (concat (columns <$> fs)))
    else Raise (ValueError "cannot reindex from a duplicate axis")
  end.

(** [.astype(float)] *)
Definition float_cell (v : cellv) : option (option cellv) :=
  match v with
  | Num x => Some (Some (Num x))
  | Str s =>
    match to_float s with
    | None => None
    | Some None => Some None
    | Some (Some x) => Some (Some (Num x))
    end
  end.

Definition astype_float (f : frame) : result frame :=
  if decide (Forall (λ p : string * series,
                       map_Forall (λ _ v, is_Some (float_cell v)) p.2) (columns f))
  then Ok (mkFrame (index f)
             ((λ p : string * series,
                 (p.1, omap (λ v, float_cell v ≫= id) p.2)) <$> columns f))
  else Raise (ValueError "could not convert string to float").

(** [.mean(1)]: for each row the mean of the values that are present,
    NaN when there is none. *)
Definition num (v : cellv) : option F :=
  match v with
  | Num x => Some x
  | Str _ => None
  end.

Definition row_values (f : frame) (s : string) : list F :=
  omap (λ p : string * series, p.2 !! s ≫= num) (columns f).

Definition mean_row (f : frame) (s : string) : option cellv :=
  match row_values f s with
  | [] => None
  | vs => Some (Num (fdiv (fsum vs) (length vs)))
  end.

Definition mean1 (f : frame) : series := series_of (index f) (mean_row f).

(** [m.loc[labels, c] = value]: every label has to be in the index; the
    column [c] is created when there is none of that name, and the rows
    of [labels] get the values the series has at their labels. *)
Fixpoint set_column (c : string) (upd : option series → series)
  (cols : list (string * series)) : list (string * series) :=
  match cols with
  | [] => [(c, upd None)]
  | (k, ser) :: rest =>
    if decide (k = c) then (k, upd (Some ser)) :: rest
    else (k, ser) :: set_column c upd rest
  end.

Definition loc_set (m : frame) (labels : list string) (c : string) (value : series)
  : result frame :=
  if decide (Forall (λ s, s ∈ index m) labels) then
    Ok (mkFrame (index m)
          (set_column c
             (λ old, series_of (index m)
                       (λ s, if decide (s ∈ labels) then value !! s
                             else default ∅ old !! s))
             (columns m)))
  else Raise (KeyError "labels not in index").

(** [.dropna()]: the rows without a missing value in any column. *)
Definition complete (f : frame) (s : string) : Prop :=
  Forall (λ p : string * series, is_Some (p.2 !! s)) (columns f).

#[export] Instance complete_dec f s : Decision (complete f s).
Proof. unfold complete. apply _. Defined.

Definition dropna (f : frame) : frame :=
  mkFrame (filter (complete f) (index f)) (columns f).

(** ** The state of cell 15 *)

(** The variables the cell updates and the files it writes; a family of
    files that differ in the depth is a map from the depth. *)
Record state : Type := mkState {
  (** [map_], the metadata table of cells 12 and 13 *)
  map_ : frame;
  (** [sample_ids] *)
  sample_ids : gmap string (list string);
  (** [./02.build_package/03.alpha/<depth>/<metric>/alpha-diversity.tsv] *)
  alpha_dir : gmap (string * string) alpha_tsv;
  (** [./03.packaged/<depth>/collated_alpha.txt] *)
  collated_alpha_txt : gmap string frame;
  (** [./03.packaged/<depth>/ag_map_with_alpha.txt] *)
  ag_map_with_alpha_txt : gmap string frame;
  (** [./03.packaged/<depth>/sample_id.txt] *)
  sample_id_txt : gmap string string
}.

(** The alpha diversity artifacts
    [./02.build_package/03.alpha/<depth>/<metric>_r<i>.qza], as the table
    each exports to; [None] where there is no artifact to export. *)
Variable artifact : string → string → nat → option alpha_tsv.

(** [!qiime tools export $alpha_artifact --output-dir $alpha_dir]: the
    table is written over the one of the iteration before; a failure of
    the tool raises nothing and leaves the directory as it is. *)
Definition qiime_tools_export (depth metric : string) (i : nat) (st : state) : state :=
  match artifact depth metric i with
  | Some t =>
    mkState (map_ st) (sample_ids st) (<[(depth, metric) := t]> (alpha_dir st))
            (collated_alpha_txt st) (ag_map_with_alpha_txt st) (sample_id_txt st)
  | None => st
  end.

(** The body of [for i in np.arange(0, 10)]. *)
Definition read_iteration (depth metric : string) (i : nat)
  (acc : list frame * state) : result (list frame * state) :=
  let st := qiime_tools_export depth metric i acc.2 in
  t ← or_raise (OSError "alpha-diversity.tsv does not exist")
         (alpha_dir st !! (depth, metric));
  fr ← read_alpha metric (iteration_name metric depth i) t;
  Ok (acc.1 ++ [fr], st).

(** The body of [for metric in ...]. *)
Definition metric_step (depth metric : string) (acc : list frame * state)
  : result (list frame * state) :=
  read ← for_each (read_iteration depth metric) (seq 0 10) ([], acc.2);
  alpha_ ← concat_columns read.1 ≫= astype_float;
  let st := read.2 in
  m ← loc_set (map_ st) (index alpha_) (mean_name metric depth) (mean1 alpha_);
  Ok (acc.1 ++ [alpha_],
      mkState m (sample_ids st) (alpha_dir st) (collated_alpha_txt st)
              (ag_map_with_alpha_txt st) (sample_id_txt st)).

(** The body of [for depth in ...]. *)
Definition depth_step (depth : string) (st : state) : result state :=
  merged ← for_each (metric_step depth) alpha_metrics ([], st);
  collated ← concat_columns merged.1;
  let st := merged.2 in
  Ok (mkState (map_ st)
              (<[depth := index collated]> (sample_ids st))
              (alpha_dir st)
              (<[depth := collated]> (collated_alpha_txt st))
              (<[depth := dropna (map_ st)]> (ag_map_with_alpha_txt st))
              (<[depth := Json.join (String "010" "") (index collated)]>
                 (sample_id_txt st))).

(** Cell 15: [sample_ids = {}], then the loop over the depths. *)
Definition start (st : state) : state :=
  mkState (map_ st) ∅ (alpha_dir st) (collated_alpha_txt st)
          (ag_map_with_alpha_txt st) (sample_id_txt st).

Definition cell15 (st : state) : result state :=
  for_each depth_step depths (start st).

(** The metadata table as accumulated when the iteration for the depth
    [d] writes its files: [map_] at the end of that iteration. *)
Definition accumulated_at (st0 : state) (d : string) (acc : frame) : Prop :=
  ∃ before after st_b st_d,
    depths = before ++ d :: after ∧
    for_each depth_step before (start st0) = Ok st_b ∧
    depth_step d st_b = Ok st_d ∧
    acc = map_ st_d.

(** ** The subsetted tables (cell 18) *)

(** A biom table: the sample ids, the observation ids, and the counts
    by observation and sample. *)
Record table : Type := mkTable {
  samples : list string;
  observations : list string;
  counts : gmap (string * string) F
}.

(** The table cut down to the samples whose id is listed, with every
    observation. *)
Definition keep_samples (ids : list string) (t : table) : table :=
  mkTable (filter (λ s, s ∈ ids) (samples t)) (observations t)
          (filter (λ kv : string * string * F, kv.1.2 ∈ ids) (counts t)).

(** Whether a count is other than zero; a count that is not stored is
    zero. *)
Variable nonzero : F → bool.

(** [np.any(vals)] for the row of an observation. *)
Definition any_value (t : table) (o : string) : bool :=
  existsb (λ s, from_option nonzero false (counts t !! (o, s))) (samples t).

(** [t.filter(any_value, axis='observation')]: the observations
    without a count are removed. *)
Definition remove_empty (t : table) : table :=
  mkTable (samples t)
          (filter (λ o, any_value t o = true) (observations t))
          (filter (λ kv : string * string * F, any_value t kv.1.1 = true) (counts t)).

(** What [biom subset-table --axis sample --ids <file>] makes of an
    HDF5 table.  It loads the table with
    [Table.from_hdf5(f, ids=ids, axis='sample')], which finds the
    samples that are listed, raises when it does not find as many as
    ids are listed, stacks their counts, which raises when there is
    none to stack, and at the end removes the observations that are
    left without a count. *)
Definition subset_samples (t : table) (ids : list string) : result table :=
  let kept := keep_samples ids t in
  if decide (length (samples kept) = length ids) then
    match ids with
    | [] => Raise (ValueError "need at least one array to concatenate")
    | _ :: _ => Ok (remove_empty kept)
    end
  else Raise (ValueError "ids could not be found in the biom table").

(** The tables cell 18 writes:
    [./03.packaged/<depth>/deblur_125nt_no_blooms.biom] and, by depth
    and collapse level, the tables of [./03.packaged/<depth>/picrust/]. *)
Record packaged : Type := mkPackaged {
  deblur_biom : gmap string table;
  picrust_biom : gmap (string * string) table
}.

Section Subset.

(** The tables cell 18 reads:
    [./02.build_package/01.input/deblur_no_blooms_125nt_1250.biom] and
    [picrust_path % collapse]; [None] for a file that is not there. *)
Variable deblur_input : option table.
Variable picrust_input : string → option table.

(** One run of the command: it reads the ids from the file, subsets
    the table and writes the result.  When it fails it writes nothing,
    and the shell line raises nothing. *)
Definition biom_subset_table (input : option table) (ids_file : option string)
  : option table :=
  match input, ids_file with
  | Some t, Some text =>
    match subset_samples t (read_ids text) with
    | Ok t' => Some t'
    | Raise _ => None
    end
  | _, _ => None
  end.

Definition cell18_collapse (st : state) (depth : string)
  (out : packaged) (collapse : string) : packaged :=
  match biom_subset_table (picrust_input collapse) (sample_id_txt st !! depth) with
  | Some t => mkPackaged (deblur_biom out) (<[(depth, collapse) := t]> (picrust_biom out))
  | None => out
  end.

Definition cell18_depth (st : state) (out : packaged) (depth : string) : packaged :=
  let out :=
    match biom_subset_table deblur_input (sample_id_txt st !! depth) with
    | Some t => mkPackaged (<[depth := t]> (deblur_biom out)) (picrust_biom out)
    | None => out
    end in
  foldl (cell18_collapse st depth) out ["_L1"; "_L2"; "_L3"].

(** Cell 18. *)
Definition cell18 (st : state) (out : packaged) : packaged :=
  foldl (cell18_depth st) out depths.

(** [t] is a table of the depth [d] in [out]. *)
Definition subset_output (out : packaged) (d : string) (t : table) : Prop :=
  deblur_biom out !! d = Some t ∨ ∃ collapse, picrust_biom out !! (d, collapse) = Some t.

(** [t] is one of the tables cell 18 reads. *)
Definition subset_input (t : table) : Prop :=
  deblur_input = Some t ∨ ∃ collapse, picrust_input collapse = Some t.

End Subset.

(** ** Facts on the frame operations *)

Lemma assoc_Some {A} (c : string) (l : list (string * A)) (v : A) :
  assoc c l = Some v → (c, v) ∈ l.
Proof.
  induction l as [|[k w] l IH]; simpl; [done|].
  case_decide as Hk.
  - intros [= ->]. subst. left.
  - intros H. right. by apply IH.
Qed.

Lemma lookup_series_of (ix : list string) (g : string → option cellv) (s : string) :
  series_of ix g !! s = if decide (s ∈ ix) then g s else None.
Proof.
  unfold series_of. induction ix as [|a ix IH]; cbn -[decide].
  - rewrite decide_False by set_solver. apply lookup_empty.
  - destruct (decide (a = s)) as [->|Hne].
    + rewrite decide_True by left.
      destruct (g s) as [v|] eqn:E; cbn -[decide].
      * by rewrite lookup_insert_eq.
      * rewrite IH. by case_decide.
    + destruct (g a) as [v|]; cbn -[decide].
      * rewrite lookup_insert_ne by done. rewrite IH.
        repeat case_decide; set_solver.
      * rewrite IH. repeat case_decide; set_solver.
Qed.

Lemma assoc_set_column_eq (c : string) upd (cols : list (string * series)) :
  assoc c (set_column c upd cols) = Some (upd (assoc c cols)).
Proof.
  induction cols as [|[k ser] cols IH]; simpl.
  - by rewrite decide_True.
  - case_decide as Hk; simpl.
    + by rewrite decide_True.
    + by rewrite decide_False.
Qed.

Lemma assoc_set_column_ne (c c' : string) upd (cols : list (string * series)) :
  c ≠ c' → assoc c' (set_column c upd cols) = assoc c' cols.
Proof.
  intros Hne. induction cols as [|[k ser] cols IH]; simpl.
  - by rewrite decide_False.
  - case_decide as Hk; simpl.
    + subst. by rewrite !decide_False.
    + case_decide; [done | apply IH].
Qed.

Lemma loc_set_ok (m m' : frame) labels c value :
  loc_set m labels c value = Ok m' →
  Forall (λ s, s ∈ index m) labels ∧ index m' = index m ∧
  (∀ s, s ∈ index m →
        cell m' s c = if decide (s ∈ labels) then value !! s else cell m s c) ∧
  (∀ s c', c ≠ c' → cell m' s c' = cell m s c').
Proof.
  unfold loc_set. case_decide as Hl; [|discriminate]. intros [= <-].
  split; [done|]. split; [done|]. split.
  - intros s Hs. unfold cell. cbn [index columns].
    rewrite !decide_True by done.
    rewrite assoc_set_column_eq. cbn [mbind option_bind].
    rewrite lookup_series_of.
    rewrite decide_True by done. case_decide; [done|].
    rewrite decide_True by done.
    destruct (assoc c (columns m)); [done | apply lookup_empty].
  - intros s c' Hne. unfold cell. cbn [index columns].
    by rewrite assoc_set_column_ne.
Qed.

Lemma elem_of_dropna (f : frame) (s : string) :
  s ∈ index (dropna f) ↔ s ∈ index f ∧ complete f s.
Proof. unfold dropna. cbn [index]. rewrite list_elem_of_filter. tauto. Qed.


(** ** The steps of cell 15 *)

(** The names of the mean columns of a list of depths. *)
Definition mean_names (ds : list string) : list string :=
  d ← ds; m ← alpha_metrics; [mean_name m d].

Lemma read_iteration_inv d m i acc acc' :
  read_iteration d m i acc = Ok acc' →
  ∃ t fr, alpha_dir acc'.2 !! (d, m) = Some t ∧
          read_alpha m (iteration_name m d i) t = Ok fr ∧
          acc'.1 = acc.1 ++ [fr] ∧
          acc'.2 = qiime_tools_export d m i acc.2.
Proof.
  unfold read_iteration. intros H.
  apply bind_ok in H as (t & Ht & H). apply bind_ok in H as (fr & Hfr & H).
  injection H as <-. exists t, fr. simpl.
  destruct (alpha_dir (qiime_tools_export d m i acc.2) !! (d, m)) eqn:E;
    simpl in Ht; [|discriminate]. by injection Ht as ->.
Qed.

Lemma qiime_tools_export_frame d m i st :
  map_ (qiime_tools_export d m i st) = map_ st ∧
  sample_ids (qiime_tools_export d m i st) = sample_ids st ∧
  collated_alpha_txt (qiime_tools_export d m i st) = collated_alpha_txt st ∧
  ag_map_with_alpha_txt (qiime_tools_export d m i st) = ag_map_with_alpha_txt st ∧
  sample_id_txt (qiime_tools_export d m i st) = sample_id_txt st.
Proof. unfold qiime_tools_export. by destruct (artifact d m i). Qed.

(** What the merge of one metric leaves as it is: the index of the
    metadata, the columns of other names, and the files. *)
Definition same_outputs (st st' : state) : Prop :=
  sample_ids st' = sample_ids st ∧
  collated_alpha_txt st' = collated_alpha_txt st ∧
  ag_map_with_alpha_txt st' = ag_map_with_alpha_txt st ∧
  sample_id_txt st' = sample_id_txt st.

Lemma reads_frame d m its acc acc' :
  for_each (read_iteration d m) its acc = Ok acc' →
  map_ acc'.2 = map_ acc.2 ∧ same_outputs acc.2 acc'.2.
Proof.
  apply (for_each_ind (λ a, map_ a.2 = map_ acc.2 ∧ same_outputs acc.2 a.2)).
  - by repeat split.
  - intros i a1 a2 _ (Hm & Hs & Hc & Ha & Ht) H.
    apply read_iteration_inv in H as (t & fr & _ & _ & _ & ->).
    destruct (qiime_tools_export_frame d m i a1.2) as (E1 & E2 & E3 & E4 & E5).
    unfold same_outputs. rewrite E1, E2, E3, E4, E5. by repeat split.
Qed.

Lemma metric_step_inv d m acc acc' :
  metric_step d m acc = Ok acc' →
  ∃ reads st_r joined alpha_,
    for_each (read_iteration d m) (seq 0 10) ([], acc.2) = Ok (reads, st_r) ∧
    concat_columns reads = Ok joined ∧
    astype_float joined = Ok alpha_ ∧
    loc_set (map_ acc.2) (index alpha_) (mean_name m d) (mean1 alpha_)
    = Ok (map_ acc'.2) ∧
    acc'.1 = acc.1 ++ [alpha_] ∧
    alpha_dir acc'.2 = alpha_dir st_r ∧
    same_outputs acc.2 acc'.2.
Proof.
  unfold metric_step. intros H.
  apply bind_ok in H as ([reads st_r] & Hr & H).
  apply bind_ok in H as (alpha_ & Ha & H).
  apply bind_ok in Ha as (joined & Hj & Ha).
  apply bind_ok in H as (m' & Hm & H). injection H as <-.
  destruct (reads_frame _ _ _ _ _ Hr) as (Hmap & Hout). simpl in *.
  exists reads, st_r, joined, alpha_. rewrite <- Hmap.
  repeat split; try done; apply Hout.
Qed.

Lemma metric_step_frame d m acc acc' :
  metric_step d m acc = Ok acc' →
  index (map_ acc'.2) = index (map_ acc.2) ∧
  (∀ c, c ≠ mean_name m d →
        assoc c (columns (map_ acc'.2)) = assoc c (columns (map_ acc.2))) ∧
  same_outputs acc.2 acc'.2.
Proof.
  intros H. apply metric_step_inv in H
    as (reads & st_r & joined & alpha_ & _ & _ & _ & Hl & _ & _ & Hout).
  unfold loc_set in Hl. case_decide; [|discriminate]. injection Hl as Hl.
  rewrite <- Hl. cbn [index columns]. split; [done|]. split; [|done].
  intros c Hc. by apply assoc_set_column_ne.
Qed.

Lemma depth_step_inv d st st' :
  depth_step d st = Ok st' →
  ∃ frames st_m collated,
    for_each (metric_step d) alpha_metrics ([], st) = Ok (frames, st_m) ∧
    concat_columns frames = Ok collated ∧
    map_ st' = map_ st_m ∧
    sample_ids st' = <[d := index collated]> (sample_ids st_m) ∧
    collated_alpha_txt st' = <[d := collated]> (collated_alpha_txt st_m) ∧
    ag_map_with_alpha_txt st' = <[d := dropna (map_ st_m)]> (ag_map_with_alpha_txt st_m) ∧
    sample_id_txt st'
    = <[d := Json.join (String "010" "") (index collated)]> (sample_id_txt st_m).
Proof.
  unfold depth_step. intros H.
  apply bind_ok in H as ([frames st_m] & Hm & H).
  apply bind_ok in H as (collated & Hc & H). injection H as <-.
  exists frames, st_m, collated. done.
Qed.

Lemma metrics_frame d ms acc acc' :
  for_each (metric_step d) ms acc = Ok acc' →
  index (map_ acc'.2) = index (map_ acc.2) ∧
  (∀ c, (∀ m, m ∈ ms → c ≠ mean_name m d) →
        assoc c (columns (map_ acc'.2)) = assoc c (columns (map_ acc.2))) ∧
  same_outputs acc.2 acc'.2.
Proof.
  revert acc. induction ms as [|m ms IH]; intros acc H; simpl in H.
  - injection H as <-. by repeat split.
  - apply bind_ok in H as (acc1 & H1 & H).
    destruct (metric_step_frame _ _ _ _ H1) as (Hi & Hc & Hs1 & Hs2 & Hs3 & Hs4).
    destruct (IH _ H) as (Hi' & Hc' & Ho1 & Ho2 & Ho3 & Ho4).
    split; [congruence|]. split; [|repeat split; congruence].
    intros c Hn. rewrite Hc'.
    + apply Hc, Hn. left.
    + intros m' Hm'. apply Hn. by right.
Qed.

(** One iteration of the depth loop leaves the files of the other
    depths, and the columns that are no mean of this depth. *)
Lemma depth_step_frame d st st' :
  depth_step d st = Ok st' →
  index (map_ st') = index (map_ st) ∧
  (∀ c, c ∉ mean_names [d] →
        assoc c (columns (map_ st')) = assoc c (columns (map_ st))) ∧
  (∀ d', d' ≠ d →
         sample_ids st' !! d' = sample_ids st !! d' ∧
         collated_alpha_txt st' !! d' = collated_alpha_txt st !! d' ∧
         ag_map_with_alpha_txt st' !! d' = ag_map_with_alpha_txt st !! d' ∧
         sample_id_txt st' !! d' = sample_id_txt st !! d').
Proof.
  intros H. apply depth_step_inv in H
    as (frames & st_m & collated & Hm & _ & Hmap & H1 & H2 & H3 & H4).
  destruct (metrics_frame _ _ _ _ Hm) as (Hi & Hc & Ho1 & Ho2 & Ho3 & Ho4).
  simpl in *. rewrite Hmap. split; [done|]. split.
  - intros c Hn. apply Hc. intros m Hmem ->. apply Hn.
    unfold mean_names. set_solver.
  - intros d' Hne. rewrite H1, H2, H3, H4, !lookup_insert_ne by done.
    by rewrite Ho1, Ho2, Ho3, Ho4.
Qed.

Lemma depths_frame ds st st' :
  for_each depth_step ds st = Ok st' →
  index (map_ st') = index (map_ st) ∧
  (∀ c, c ∉ mean_names ds →
        assoc c (columns (map_ st')) = assoc c (columns (map_ st))) ∧
  (∀ d', d' ∉ ds →
         sample_ids st' !! d' = sample_ids st !! d' ∧
         collated_alpha_txt st' !! d' = collated_alpha_txt st !! d' ∧
         ag_map_with_alpha_txt st' !! d' = ag_map_with_alpha_txt st !! d' ∧
         sample_id_txt st' !! d' = sample_id_txt st !! d').
Proof.
  revert st. induction ds as [|d ds IH]; intros st H; simpl in H.
  - injection H as <-. by repeat split.
  - apply bind_ok in H as (st1 & H1 & H).
    destruct (depth_step_frame _ _ _ H1) as (Hi & Hc & Hf).
    destruct (IH _ H) as (Hi' & Hc' & Hf').
    split; [congruence|]. split.
    + intros c Hn. rewrite Hc', Hc; [done|..];
        intros Hin; apply Hn; unfold mean_names in *; set_solver.
    + intros d' Hn.
      destruct (Hf d') as (? & ? & ? & ?); [set_solver|].
      destruct (Hf' d') as (? & ? & ? & ?); [set_solver|].
      repeat split; congruence.
Qed.

(** The iteration of cell 15 for a depth: the state it starts from, the
    state it ends in, and what is left of both when the cell is done. *)
Lemma cell15_at_depth st0 st_end d :
  cell15 st0 = Ok st_end → d ∈ depths →
  ∃ before after st_b st_d,
    depths = before ++ d :: after ∧ (d ∉ before) ∧
    for_each depth_step before (start st0) = Ok st_b ∧
    depth_step d st_b = Ok st_d ∧
    index (map_ st_b) = index (map_ st0) ∧
    (∀ c, c ∉ mean_names before →
          assoc c (columns (map_ st_b)) = assoc c (columns (map_ st0))) ∧
    sample_ids st_end !! d = sample_ids st_d !! d ∧
    collated_alpha_txt st_end !! d = collated_alpha_txt st_d !! d ∧
    ag_map_with_alpha_txt st_end !! d = ag_map_with_alpha_txt st_d !! d ∧
    sample_id_txt st_end !! d = sample_id_txt st_d !! d.
Proof.
  unfold cell15. intros H Hd.
  assert (Hnd : NoDup depths) by (vm_compute; repeat constructor; set_solver).
  destruct (for_each_at _ _ _ _ d Hd Hnd H)
    as (l1 & l2 & st_b & st_d & Hsplit & Hl2 & Hb & Hstep & Hrest).
  destruct (depths_frame _ _ _ Hb) as (Hi & Hc & _).
  destruct (depths_frame _ _ _ Hrest) as (_ & _ & Hf).
  destruct (Hf d Hl2) as (? & ? & ? & ?).
  exists l1, l2, st_b, st_d. repeat split; try done.
  rewrite Hsplit in Hnd. apply NoDup_app in Hnd as (_ & Hnd & _).
  intros Hin. apply (Hnd d Hin). left.
Qed.

(** ** The sample id file and the collated table *)

Lemma split_newline_line (s : string) :
  has_char newline s = false → split_newline s = [s].
Proof.
  induction s as [|c s IH]; simpl; [done|].
  destruct (c =? newline)%char; simpl; [done|]. intros H. by rewrite IH.
Qed.

Lemma split_newline_app (s t : string) :
  has_char newline s = false →
  split_newline (s +:+ String newline t) = s :: split_newline t.
Proof.
  induction s as [|c s IH]; simpl; [done|].
  destruct (c =? newline)%char; simpl; [done|]. intros H. by rewrite IH.
Qed.

Lemma split_newline_join (ids : list string) :
  Forall line_id ids → ids ≠ [] →
  split_newline (Json.join (String newline "") ids) = ids.
Proof.
  induction 1 as [|s ids [_ Hs] Hids IH]; [done|]. intros _.
  destruct ids as [|s' ids].
  - by apply split_newline_line.
  - change (Json.join (String newline "") (s :: s' :: ids))
      with (s +:+ String newline "" +:+ Json.join (String newline "") (s' :: ids)).
    change (String newline "" +:+ ?x) with (String newline x).
    rewrite split_newline_app by done. by rewrite IH.
Qed.

Lemma file_lines_join (ids : list string) :
  Forall line_id ids → file_lines (Json.join (String newline "") ids) = ids.
Proof.
  intros H. destruct (decide (ids = [])) as [->|Hne]; [done|].
  unfold file_lines. rewrite split_newline_join by done.
  destruct (last ids) as [l|] eqn:E; [|done].
  apply last_Some in E as (ids' & ->).
  apply Forall_app in H as [_ Hl]. apply Forall_singleton in Hl as [Hl _].
  by destruct l.
Qed.

(** Plain ids are read back as they were written. *)
Lemma printable_spec (c : ascii) :
  printable c = true →
  is_space c = false ∧ (c =? carriage_return)%char = false ∧
  (c =? tab)%char = false ∧ (c =? newline)%char = false.
Proof.
  unfold printable, is_space. intros [H1 H2]%andb_true_iff.
  apply Nat.ltb_lt in H1, H2. split.
  - rewrite !orb_false_iff, !andb_false_iff, !Nat.leb_gt, !Nat.eqb_neq. lia.
  - repeat split;
      (match goal with |- (c =? ?x)%char = false => destruct (c =? x)%char eqn:E end;
       [apply Ascii.eqb_eq in E; subst c; vm_compute in H1, H2; lia | done]).
Qed.

Lemma plain_line_id (s : string) : plain_id s = true → line_id s.
Proof.
  intros H. split; [by intros ->|].
  assert (Hall : all_printable s = true).
  { destruct s as [|c r]; [done|]. by apply andb_true_iff in H as [_ ?]. }
  clear H. induction s as [|c r IH]; [done|].
  cbn [all_printable] in Hall. apply andb_true_iff in Hall as [Hc Hr].
  cbn [has_char]. rewrite (IH Hr), orb_false_r.
  by apply printable_spec in Hc as (_ & _ & _ & ->).
Qed.

Lemma plain_all_printable (s : string) : plain_id s = true → all_printable s = true.
Proof. destruct s as [|c r]; [done|]. by intros [_ ?]%andb_true_iff. Qed.

Lemma strip_plain (s : string) : all_printable s = true → strip s = s.
Proof.
  intros H. unfold strip.
  assert (lstrip s = s) as ->.
  { destruct s as [|c r]; [done|]. cbn [all_printable lstrip] in *.
    apply andb_true_iff in H as [Hc _].
    by apply printable_spec in Hc as (-> & _). }
  induction s as [|c r IH]; [done|].
  cbn [all_printable rstrip] in *. apply andb_true_iff in H as [Hc Hr].
  rewrite (IH Hr). destruct r; [|done].
  by apply printable_spec in Hc as (-> & _).
Qed.

Lemma before_tab_plain (s : string) : all_printable s = true → before_tab s = s.
Proof.
  induction s as [|c r IH]; [done|].
  cbn [all_printable before_tab]. intros [Hc Hr]%andb_true_iff.
  apply printable_spec in Hc as (_ & _ & -> & _). by rewrite IH.
Qed.

Lemma has_char_app (c : ascii) (s t : string) :
  has_char c (s +:+ t) = has_char c s || has_char c t.
Proof.
  induction s as [|c' s IH]; [done|].
  cbn [String.append has_char]. by rewrite IH, orb_assoc.
Qed.

Lemma universal_newlines_id (s : string) :
  has_char carriage_return s = false → universal_newlines s = s.
Proof.
  induction s as [|c r IH]; [done|].
  cbn [has_char universal_newlines]. intros [Hc Hr]%orb_false_iff.
  rewrite Hc. by rewrite IH.
Qed.

Lemma join_lines_no_return (ids : list string) :
  Forall (λ s, all_printable s = true) ids →
  has_char carriage_return (Json.join (String newline "") ids) = false.
Proof.
  assert (Hone : ∀ s, all_printable s = true → has_char carriage_return s = false).
  { induction s as [|c r IH]; [done|].
    cbn [all_printable has_char]. intros [Hc Hr]%andb_true_iff.
    apply printable_spec in Hc as (_ & -> & _). by apply IH. }
  induction 1 as [|s ids Hs Hids IH]; [done|].
  destruct ids as [|s' ids]; [by apply Hone|].
  change (Json.join (String newline "") (s :: s' :: ids))
    with (s +:+ String newline "" +:+ Json.join (String newline "") (s' :: ids)).
  rewrite !has_char_app, IH, (Hone s Hs). done.
Qed.

Lemma read_ids_join (ids : list string) :
  Forall (λ s, plain_id s = true) ids →
  read_ids (Json.join (String newline "") ids) = ids.
Proof.
  intros H. unfold read_ids.
  rewrite universal_newlines_id.
  2:{ apply join_lines_no_return. eapply Forall_impl; [exact H|].
      apply plain_all_printable. }
  rewrite file_lines_join.
  2:{ eapply Forall_impl; [exact H|]. apply plain_line_id. }
  induction H as [|s ids Hs _ IH]; [done|].
  assert (starts_with_hash s = false) as Hh.
  { destruct s as [|c r]; [done|]. cbn [plain_id starts_with_hash] in *.
    apply andb_true_iff in Hs as [Hs _]. by apply negb_true_iff in Hs. }
  rewrite filter_cons_True by done. rewrite fmap_cons, IH.
  apply plain_all_printable in Hs.
  by rewrite strip_plain, before_tab_plain.
Qed.

(** C2.  For every depth, the ids written to [sample_id.txt], one per
    line, are the index of the table written to [collated_alpha.txt]:
    the text is the index joined with newlines, and reading the file
    line by line gives the index back. *)
Theorem sample_id_file_is_collated_index (st0 st_end : state) (d : string) :
  cell15 st0 = Ok st_end → d ∈ depths →
  ∃ collated text,
    collated_alpha_txt st_end !! d = Some collated ∧
    sample_id_txt st_end !! d = Some text ∧
    sample_ids st_end !! d = Some (index collated) ∧
    text = Json.join (String newline "") (index collated) ∧
    (Forall line_id (index collated) → file_lines text = index collated).
Proof.
  intros H Hd.
  destruct (cell15_at_depth _ _ _ H Hd)
    as (before & after & st_b & st_d & _ & _ & _ & Hstep & _ & _ & Hs & Hc & _ & Ht).
  apply depth_step_inv in Hstep
    as (frames & st_m & collated & _ & _ & _ & H1 & H2 & _ & H4).
  exists collated, (Json.join (String newline "") (index collated)).
  rewrite Hc, Ht, Hs, H1, H2, H4, !lookup_insert_eq.
  repeat split. apply file_lines_join.
Qed.

(** ** The rows of the written metadata *)

(** Some alpha diversity column of the row [s] is missing. *)
Definition alpha_missing (acc : frame) (s : string) : Prop :=
  Exists (λ p : string * series, p.1 ∈ mean_names depths ∧ p.2 !! s = None)
         (columns acc).

#[export] Instance alpha_missing_dec acc s : Decision (alpha_missing acc s).
Proof. unfold alpha_missing. apply _. Defined.

(** Some column of the row [s] is missing. *)
Definition any_missing (acc : frame) (s : string) : Prop :=
  Exists (λ p : string * series, p.2 !! s = None) (columns acc).

(** The claim C6 for the table [acc] and the file [written]: a row is
    dropped exactly when one of its alpha diversity columns is
    missing. *)
Definition dropped_for_alpha_only (acc written : frame) : Prop :=
  ∀ s, s ∈ index acc → (s ∉ index written ↔ alpha_missing acc s).

Lemma not_complete_any_missing (acc : frame) (s : string) :
  ¬ complete acc s ↔ any_missing acc s.
Proof.
  unfold complete, any_missing.
  induction (columns acc) as [|p l IH].
  - split; [intros H; destruct H; constructor | by intros H%Exists_nil].
  - rewrite Forall_cons, Exists_cons, <- IH.
    destruct (p.2 !! s) as [v|].
    + split; [intros H; right; intros Hl; apply H; eauto|].
      intros [|H] [_ Hl]; done.
    + split; [by left | intros _ [[v Hv] _]; discriminate].
Qed.

Lemma cell15_accumulated st0 st_end d :
  cell15 st0 = Ok st_end → d ∈ depths →
  ∃ acc, accumulated_at st0 d acc ∧
         index acc = index (map_ st0) ∧
         (∀ c, c ∉ mean_names depths →
               assoc c (columns acc) = assoc c (columns (map_ st0))) ∧
         ag_map_with_alpha_txt st_end !! d = Some (dropna acc).
Proof.
  intros H Hd.
  destruct (cell15_at_depth _ _ _ H Hd)
    as (before & after & st_b & st_d & Hsplit & _ & Hb & Hstep & Hi & Hc & _ & _ & Ha & _).
  exists (map_ st_d). split; [by exists before, after, st_b, st_d|].
  destruct (depth_step_frame _ _ _ Hstep) as (Hi' & Hc' & _).
  split; [congruence|]. split.
  - intros c Hn. rewrite Hc', Hc; [done|..]; intros Hin; apply Hn;
      rewrite Hsplit; unfold mean_names in *; set_solver.
  - rewrite Ha.
    apply depth_step_inv in Hstep
      as (frames & st_m & collated & _ & _ & -> & _ & _ & -> & _).
    apply lookup_insert_eq.
Qed.

(** C6, as amended.  For every depth, [ag_map_with_alpha.txt] holds the
    rows of the accumulated metadata table that have no missing value in
    any column: a row is dropped if and only if one of its columns,
    alpha diversity or not, is missing.  The table has the rows of the
    loaded metadata, and the columns that are no alpha means are those
    of the loaded metadata. *)
Theorem ag_map_rows_without_missing (st0 st_end : state) (d : string) :
  cell15 st0 = Ok st_end → d ∈ depths →
  ∃ acc written,
    accumulated_at st0 d acc ∧
    index acc = index (map_ st0) ∧
    (∀ c, c ∉ mean_names depths →
          assoc c (columns acc) = assoc c (columns (map_ st0))) ∧
    ag_map_with_alpha_txt st_end !! d = Some written ∧
    columns written = columns acc ∧
    (∀ s, s ∈ index acc → (s ∉ index written ↔ any_missing acc s)) ∧
    (∀ s, s ∈ index written → s ∈ index acc) ∧
    (∀ s, s ∈ index acc → alpha_missing acc s → s ∉ index written).
Proof.
  intros H Hd.
  destruct (cell15_accumulated _ _ _ H Hd) as (acc & Hacc & Hi & Hc & Hw).
  exists acc, (dropna acc). repeat split; try done.
  - intros Hn. apply not_complete_any_missing. intros Hcomp.
    apply Hn, elem_of_dropna. done.
  - intros Hm%not_complete_any_missing [_ Hcomp]%elem_of_dropna. done.
  - by intros s [? _]%elem_of_dropna.
  - intros s Hs Hm [_ Hcomp]%elem_of_dropna.
    apply (not_complete_any_missing acc s); [|done].
    unfold any_missing, alpha_missing in *.
    eapply Exists_impl; [exact Hm|]. by intros p [_ ?].
Qed.

(** ** The mean columns *)

(** The value column of every exported table is headed by the name of
    its metric: of the artifacts, and of the tables that are in the
    export directories before the cell runs. *)
Definition artifacts_headed : Prop :=
  ∀ d m i t, artifact d m i = Some t → tsv_header t = m.

Definition headed (st : state) : Prop :=
  ∀ d m t, alpha_dir st !! (d, m) = Some t → tsv_header t = m.

Lemma qiime_tools_export_headed d m i st :
  artifacts_headed → headed st → headed (qiime_tools_export d m i st).
Proof.
  intros Ha Hst. unfold qiime_tools_export.
  destruct (artifact d m i) as [t|] eqn:E; [|done].
  intros d' m' t'. cbn [alpha_dir].
  destruct (decide ((d, m) = (d', m'))) as [[= <- <-]|Hne].
  - rewrite lookup_insert_eq. intros [= <-]. by eapply Ha.
  - rewrite lookup_insert_ne by done. apply Hst.
Qed.


Lemma digit_inj i j : i < 10 → j < 10 → digit i = digit j → i = j.
Proof.
  intros Hi Hj [= H]. 
  apply (f_equal nat_of_ascii) in H.
  rewrite !nat_ascii_embedding in H by lia. lia.
Qed.


Lemma mean_name_metric d m m' :
  m ∈ alpha_metrics → m' ∈ alpha_metrics →
  mean_name m d = mean_name m' d → m = m'.
Proof.
  unfold alpha_metrics, mean_name. intros Hm Hm' H.
  repeat (apply elem_of_cons in Hm as [->|Hm]); [..|by apply elem_of_nil in Hm];
    repeat (apply elem_of_cons in Hm' as [->|Hm']);
    try (by apply elem_of_nil in Hm'); try done; simpl in H; discriminate.
Qed.




(** A column of a frame: named [c], with values at labels of the index
    only. *)
Definition column_of (f : frame) (c : string) (p : string * series) : Prop :=
  p.1 = c ∧ ∀ s, is_Some (p.2 !! s) → s ∈ index f.

Lemma read_alpha_spec m new t fr :
  read_alpha m new t = Ok fr → tsv_header t = m → m ∈ alpha_metrics →
  ∃ p, columns fr = [p] ∧ column_of fr new p.
Proof.
  unfold read_alpha. case_decide as Hnd; [|discriminate].
  intros [= <-] Hh Hm. eexists. split; [reflexivity|]. split.
  - cbn [fst]. rewrite Hh. unfold rename. cbn [assoc].
    rewrite decide_False, decide_True; [done..|].
    intros <-. unfold alpha_metrics in Hm. set_solver.
  - cbn [snd index]. intros s [v Hv].
    apply elem_of_list_to_map_2 in Hv.
    apply list_elem_of_omap in Hv as ([s' o] & Hin & Hf).
    destruct o as [w|]; simpl in Hf; [|discriminate]. injection Hf as <- _.
    apply list_elem_of_fmap. by exists (s', Some w).
Qed.

Lemma reads_spec d m its acc acc' :
  artifacts_headed → headed acc.2 → m ∈ alpha_metrics →
  for_each (read_iteration d m) its acc = Ok acc' →
  headed acc'.2 ∧
  ∃ frs, acc'.1 = acc.1 ++ frs ∧
         Forall2 (λ i fr, ∃ p, columns fr = [p] ∧
                               column_of fr (iteration_name m d i) p) its frs.
Proof.
  intros Ha Hh Hm. revert acc Hh.
  induction its as [|i its IH]; intros acc Hh H; simpl in H.
  - injection H as <-. split; [done|]. exists []. by rewrite app_nil_r.
  - apply bind_ok in H as (acc1 & H1 & H).
    apply read_iteration_inv in H1 as (t & fr & Ht & Hfr & Hl & Hst).
    assert (Hh1 : headed acc1.2).
    { rewrite Hst. by apply qiime_tools_export_headed. }
    destruct (IH acc1 Hh1 H) as (Hh' & frs & Hfrs & Hall).
    split; [done|]. exists (fr :: frs). split.
    + rewrite Hfrs, Hl, <- app_assoc. done.
    + constructor; [|done].
      eapply read_alpha_spec; [done| |done]. by eapply Hh1.
Qed.

Lemma concat_columns_spec (fs : list frame) (joined : frame) :
  concat_columns fs = Ok joined →
  columns joined = concat (columns <$> fs) ∧
  (∀ f s, f ∈ fs → s ∈ index f → s ∈ index joined) ∧
  (∀ s, s ∈ index joined → ∃ f, f ∈ fs ∧ s ∈ index f).
Proof.
  unfold concat_columns. destruct fs as [|f0 rest]; [discriminate|].
  case_decide as Heq.
  - intros [= <-]. split; [done|]. cbn [index]. split.
    + intros f s [->|Hin]%elem_of_cons Hs; [done|].
      rewrite Forall_forall in Heq. by rewrite <- (Heq f Hin).
    + intros s Hs. exists f0. split; [left | done].
  - case_decide as Hnd; [|discriminate].
    intros [= <-]. split; [done|]. cbn [index].
    assert (Hmem : ∀ s, s ∈ merge_sort String.le
                              (remove_dups (concat (index <$> f0 :: rest)))
                        ↔ ∃ f, f ∈ f0 :: rest ∧ s ∈ index f).
    { intros s. rewrite merge_sort_Permutation, elem_of_remove_dups.
      rewrite list_elem_of_In, in_concat. split.
      - intros (ix & Hix & Hs). apply list_elem_of_In in Hix, Hs.
        apply list_elem_of_fmap in Hix as (f & -> & Hf). eauto.
      - intros (f & Hf & Hs). exists (index f).
        rewrite <- !list_elem_of_In. split; [|done].
        apply list_elem_of_fmap. eauto. }
    split.
    + intros f s Hf Hs. apply Hmem. eauto.
    + intros s Hs. by apply Hmem.
Qed.

Lemma astype_float_spec (f a : frame) :
  astype_float f = Ok a →
  index a = index f ∧
  columns a = (λ p : string * series,
                 (p.1, omap (λ v, float_cell v ≫= id) p.2)) <$> columns f.
Proof.
  unfold astype_float. case_decide; [|discriminate]. by intros [= <-].
Qed.

(** The frame of a metric: the ten columns of its iterations, in order
    and under their names. *)
Definition iteration_columns (d m : string) (alpha_ : frame) : Prop :=
  Forall2 (λ i p, column_of alpha_ (iteration_name m d i) p)
          (seq 0 10) (columns alpha_).

Lemma singletons_concat (its : list nat) (frs : list frame)
  (R : nat → string * series → Prop) :
  Forall2 (λ i fr, ∃ p, columns fr = [p] ∧ R i p) its frs →
  Forall2 R its (concat (columns <$> frs)).
Proof.
  induction 1 as [|i fr its frs (p & Hp & HR) _ IH]; [constructor|].
  rewrite fmap_cons. cbn [concat]. rewrite Hp. by constructor.
Qed.

Lemma Forall2_elem_r {A B} (R : A → B → Prop) (l : list A) (k : list B) :
  Forall2 R l k → Forall2 (λ x y, y ∈ k ∧ R x y) l k.
Proof.
  induction 1 as [|x y l k HR _ IH]; constructor.
  - split; [left | done].
  - eapply Forall2_impl; [exact IH|]. intros ? ? [? ?]. split; [by right | done].
Qed.

Lemma Forall2_elem_l {A B} (R : A → B → Prop) (l : list A) (k : list B) :
  Forall2 R l k → Forall2 (λ x y, x ∈ l ∧ R x y) l k.
Proof.
  induction 1 as [|x y l k HR _ IH]; constructor.
  - split; [left | done].
  - eapply Forall2_impl; [exact IH|]. intros ? ? [? ?]. split; [by right | done].
Qed.

Lemma read_alpha_NoDup m new t fr : read_alpha m new t = Ok fr → NoDup (index fr).
Proof. unfold read_alpha. case_decide; [|discriminate]. by intros [= <-]. Qed.

Lemma reads_NoDup d m its acc acc' :
  Forall (λ f, NoDup (index f)) acc.1 →
  for_each (read_iteration d m) its acc = Ok acc' →
  Forall (λ f, NoDup (index f)) acc'.1.
Proof.
  intros H0. apply (for_each_ind (λ a, Forall (λ f, NoDup (index f)) a.1)); [done|].
  intros i a1 a2 _ Ha H.
  apply read_iteration_inv in H as (t & fr & _ & Hfr & -> & _).
  apply Forall_app. split; [done|]. apply Forall_singleton.
  by eapply read_alpha_NoDup.
Qed.

Lemma concat_columns_NoDup (fs : list frame) (joined : frame) :
  Forall (λ f, NoDup (index f)) fs →
  concat_columns fs = Ok joined → NoDup (index joined).
Proof.
  unfold concat_columns. destruct fs as [|f0 rest]; [discriminate|].
  intros [H0 _]%Forall_cons. case_decide.
  - by intros [= <-].
  - case_decide; [|discriminate]. intros [= <-]. cbn [index].
    rewrite merge_sort_Permutation. apply NoDup_remove_dups.
Qed.

(** The merge of one metric [m] at depth [d]: the frame of the metric
    and what the assignment to the mean column does to the metadata. *)
Definition merged (d : string) (before after : frame) (m : string) (alpha_ : frame)
  : Prop :=
  NoDup (index alpha_) ∧
  Forall (λ s, s ∈ index before) (index alpha_) ∧
  is_Some (assoc (mean_name m d) (columns after)) ∧
  ∀ s, s ∈ index before →
       cell after s (mean_name m d)
       = if decide (s ∈ index alpha_) then mean_row alpha_ s
         else cell before s (mean_name m d).

Lemma metric_step_spec d m acc acc' :
  metric_step d m acc = Ok acc' →
  ∃ alpha_,
    acc'.1 = acc.1 ++ [alpha_] ∧
    index (map_ acc'.2) = index (map_ acc.2) ∧
    merged d (map_ acc.2) (map_ acc'.2) m alpha_ ∧
    (∀ s c, c ≠ mean_name m d → cell (map_ acc'.2) s c = cell (map_ acc.2) s c).
Proof.
  intros H.
  apply metric_step_inv in H
    as (reads & st_r & joined & alpha_ & Hr & Hj & Hf & Hl & Hacc & Hdir & _).
  pose proof (reads_NoDup d m _ ([], acc.2) _ ltac:(constructor) Hr) as Hnd.
  apply (concat_columns_NoDup _ _ Hnd) in Hj.
  apply astype_float_spec in Hf as (Hix & _).
  pose proof Hl as Hl'.
  apply loc_set_ok in Hl as (Hlab & Hi & Hset & Hother).
  exists alpha_. split; [done|]. split; [done|]. split; [|].
  - split; [by rewrite Hix|]. split; [done|]. split.
    + unfold loc_set in Hl'. case_decide; [|discriminate]. injection Hl' as Hl'.
      rewrite <- Hl'. cbn [columns]. by rewrite assoc_set_column_eq.
    + intros s Hs. rewrite Hset by done. case_decide as Hin; [|done].
      unfold mean1. rewrite lookup_series_of. by rewrite decide_True.
  - intros s c Hc. apply Hother. congruence.
Qed.

(** With the headers in place, the frame of the metric has the columns
    of the ten iterations under their names. *)
Lemma metric_step_columns d m acc acc' :
  artifacts_headed → headed acc.2 → m ∈ alpha_metrics →
  metric_step d m acc = Ok acc' →
  headed acc'.2 ∧
  ∃ alpha_, acc'.1 = acc.1 ++ [alpha_] ∧ iteration_columns d m alpha_.
Proof.
  intros Ha Hh Hm H.
  apply metric_step_inv in H
    as (reads & st_r & joined & alpha_ & Hr & Hj & Hf & Hl & Hacc & Hdir & _).
  destruct (reads_spec d m _ ([], acc.2) _ Ha Hh Hm Hr) as (Hh' & frs & Hfrs & Hall).
  simpl in Hfrs. subst frs. simpl in Hh'.
  apply concat_columns_spec in Hj as (Hcols & Hsub & _).
  apply astype_float_spec in Hf as (Hix & Hcols').
  split; [intros d' m' t; rewrite Hdir; apply Hh'|].
  exists alpha_. split; [done|].
  unfold iteration_columns. rewrite Hcols', Hcols.
  apply Forall2_fmap_r.
  apply Forall2_elem_r in Hall.
  assert (Hjoined : Forall2 (λ i (p : string * series),
                       p.1 = iteration_name m d i ∧
                       ∀ s, is_Some (p.2 !! s) → s ∈ index joined)
                    (seq 0 10) (concat (columns <$> reads))).
  { apply singletons_concat.
    eapply Forall2_impl; [exact Hall|].
    intros i fr (Hin & p & Hp & Hn & Hkeys).
    exists p. split; [done|]. split; [done|]. intros s Hs. eauto. }
  eapply Forall2_impl; [exact Hjoined|].
  intros i p (Hn & Hkeys). split; [done|]. cbn [snd compose].
  intros s [v Hv]. rewrite lookup_omap in Hv. rewrite Hix. apply Hkeys.
  by destruct (p.2 !! s).
Qed.

Lemma cell_ext (f g : frame) (s c : string) :
  index f = index g → assoc c (columns f) = assoc c (columns g) →
  cell f s c = cell g s c.
Proof. unfold cell. by intros -> ->. Qed.

Lemma metrics_spec d ms acc acc' :
  ms ⊆ alpha_metrics → NoDup ms →
  for_each (metric_step d) ms acc = Ok acc' →
  ∃ frames, acc'.1 = acc.1 ++ frames ∧
            Forall2 (merged d (map_ acc.2) (map_ acc'.2)) ms frames.
Proof.
  revert acc. induction ms as [|m ms IH]; intros acc Hsub Hnd H.
  - simpl in H. injection H as <-. exists [].
    rewrite app_nil_r. split; [done | constructor].
  - simpl in H. apply bind_ok in H as (acc1 & H1 & H).
    apply NoDup_cons in Hnd as [Hm Hnd].
    assert (Hmem : m ∈ alpha_metrics) by set_solver.
    destruct (metric_step_spec _ _ _ _ H1)
      as (alpha_ & Hacc1 & Hi1 & (Hnda & Hlab & Hcol & Hset) & Hother).
    destruct (IH acc1 ltac:(set_solver) Hnd H) as (frames & Hacc' & Hall).
    destruct (metrics_frame _ _ _ _ H) as (Hi' & Hc' & _).
    assert (Hkeep : assoc (mean_name m d) (columns (map_ acc'.2))
                    = assoc (mean_name m d) (columns (map_ acc1.2))).
    { apply Hc'. intros m' Hm' Heq. apply Hm.
      assert (m = m') as -> by (eapply mean_name_metric; [done|set_solver|done]).
      done. }
    exists (alpha_ :: frames). split.
    { rewrite Hacc', Hacc1, <- app_assoc. done. }
    constructor.
    + split; [done|]. split; [done|]. split; [by rewrite Hkeep|].
      intros s Hs. rewrite <- Hset by done. by apply cell_ext.
    + apply Forall2_elem_l in Hall.
      eapply Forall2_impl; [exact Hall|].
      intros m' a' (Hm' & Hnd1 & Hl1 & Hc1 & Hs1).
      split; [done|]. rewrite Hi1 in Hl1. split; [done|]. split; [done|].
      intros s Hs. rewrite Hs1 by (by rewrite Hi1).
      case_decide; [done|]. apply Hother.
      intros Heq. apply Hm.
      assert (m' = m) as <- by (eapply mean_name_metric; [set_solver|done|done]).
      done.
Qed.

Lemma metrics_columns d ms acc acc' :
  artifacts_headed → headed acc.2 → ms ⊆ alpha_metrics →
  for_each (metric_step d) ms acc = Ok acc' →
  headed acc'.2 ∧
  ∃ frames, acc'.1 = acc.1 ++ frames ∧ Forall2 (iteration_columns d) ms frames.
Proof.
  intros Ha. revert acc. induction ms as [|m ms IH]; intros acc Hh Hsub H.
  - simpl in H. injection H as <-. split; [done|]. exists [].
    rewrite app_nil_r. split; [done | constructor].
  - simpl in H. apply bind_ok in H as (acc1 & H1 & H).
    assert (Hmem : m ∈ alpha_metrics) by set_solver.
    destruct (metric_step_columns _ _ _ _ Ha Hh Hmem H1)
      as (Hh1 & alpha_ & Hacc1 & Hcols).
    destruct (IH acc1 Hh1 ltac:(set_solver) H) as (Hh' & frames & Hacc' & Hall).
    split; [done|]. exists (alpha_ :: frames). split; [|by constructor].
    rewrite Hacc', Hacc1, <- app_assoc. done.
Qed.

Lemma depth_step_headed d st st' :
  artifacts_headed → headed st → depth_step d st = Ok st' → headed st'.
Proof.
  intros Ha Hh H. unfold depth_step in H.
  apply bind_ok in H as ([frames st_m] & Hm & H).
  apply bind_ok in H as (collated & _ & H). injection H as <-.
  by destruct (metrics_columns d _ ([], st) _ Ha Hh ltac:(done) Hm) as [? _].
Qed.

Lemma depths_headed ds st st' :
  artifacts_headed → headed st → for_each depth_step ds st = Ok st' → headed st'.
Proof.
  intros Ha Hh H.
  apply (for_each_ind headed depth_step ds st st'); [done| |done].
  intros d s1 s2 _ H1 H2. by eapply depth_step_headed.
Qed.

Lemma iteration_columns_names d m alpha_ :
  iteration_columns d m alpha_ →
  (columns alpha_).*1 = iteration_name m d <$> seq 0 10.
Proof.
  unfold iteration_columns. generalize (seq 0 10).
  induction 1 as [|i p its cols [Hp _] _ IH]; [done|].
  rewrite !fmap_cons. by f_equal.
Qed.




Lemma depth_step_spec d st st' :
  depth_step d st = Ok st' →
  ∃ frames collated,
    Forall2 (merged d (map_ st) (map_ st')) alpha_metrics frames ∧
    (artifacts_headed → headed st →
     Forall2 (iteration_columns d) alpha_metrics frames) ∧
    concat_columns frames = Ok collated ∧
    collated_alpha_txt st' !! d = Some collated ∧
    ag_map_with_alpha_txt st' !! d = Some (dropna (map_ st')) ∧
    sample_ids st' !! d = Some (index collated) ∧
    sample_id_txt st' !! d = Some (Json.join (String newline "") (index collated)) ∧
    index (map_ st') = index (map_ st).
Proof.
  intros H.
  destruct (depth_step_frame _ _ _ H) as (Hi & _ & _).
  apply depth_step_inv in H
    as (frames & st_m & collated & Hm & Hc & Hmap & H1 & H2 & H3 & H4).
  assert (Hnd : NoDup alpha_metrics) by (vm_compute; repeat constructor; set_solver).
  destruct (metrics_spec d _ ([], st) _ ltac:(done) Hnd Hm) as (frames' & Hf & Hall).
  simpl in Hf. subst frames'. simpl in Hall.
  exists frames, collated. rewrite Hmap, H1, H2, H3, H4, !lookup_insert_eq.
  rewrite Hmap in Hi. repeat split; try done.
  intros Ha Hh.
  destruct (metrics_columns d _ ([], st) _ Ha Hh ltac:(done) Hm)
    as (_ & frames' & Hf & Hcols).
  simpl in Hf. by subst frames'.
Qed.

Lemma iteration_columns_block_names d (ms : list string) (frames : list frame) c :
  Forall2 (iteration_columns d) ms frames →
  c ∈ (concat (columns <$> frames)).*1 →
  ∃ m i, m ∈ ms ∧ c = iteration_name m d i.
Proof.
  induction 1 as [|m a ms frames Hc _ IH]; simpl.
  - by intros ?%elem_of_nil.
  - rewrite fmap_app, elem_of_app. intros [Hin|Hin].
    + rewrite (iteration_columns_names _ _ _ Hc) in Hin.
      apply list_elem_of_fmap in Hin as (i & -> & _). exists m, i. split; [left|done].
    + destruct (IH Hin) as (m' & i & Hm' & ->). exists m', i. split; [by right|done].
Qed.

(** ** The headers the merge of a metric relies on *)

Section Headers.

(** A property of the exported tables, by depth and metric.  It holds
    of the artifacts, and of the tables that are in the export
    directories. *)
Variable P : string → string → alpha_tsv → Prop.












End Headers.




(** ** The mean columns, with rounding *)

Section Tolerance.

Import QArith_base Qabs.
#[local] Close Scope Q_scope.

(** The float arithmetic rounds.  Each float stands for a rational
    number, [val]; the sum of a list is as near the sum of the numbers
    as [esum] says for its length, relative to the sum of their
    magnitudes, and the division by a count is as near the quotient as
    [ediv] says, relative to its magnitude.  For double precision with
    unit roundoff [u], as long as nothing overflows or underflows,
    [esum n] is [(n - 1) u / (1 - (n - 1) u)] in whatever order the
    sum is taken, and [ediv] is [u]. *)
Variable val : F → Q.
Variable esum : nat → Q.
Variable ediv : Q.
Hypothesis esum_bound : ∀ n, (0 <= esum n)%Q.
Hypothesis ediv_bound : (0 <= ediv)%Q.
Hypothesis fsum_rounds : ∀ l : list F,
  (Qabs (val (fsum l) - Rounding.total (val <$> l))
   <= esum (length l) * Rounding.total ((λ x, Qabs (val x)) <$> l))%Q.
Hypothesis fdiv_rounds : ∀ (x : F) (n : nat), 0 < n →
  (Qabs (val (fdiv x n) - val x / inject_Z (Z.of_nat n))
   <= ediv * Qabs (val x / inject_Z (Z.of_nat n)))%Q.


End Tolerance.

(** ** The samples of the subsetted tables and of the metadata *)

Lemma mean_name_inj d d' m m' :
  m ∈ alpha_metrics → m' ∈ alpha_metrics →
  mean_name m d = mean_name m' d' → m = m' ∧ d = d'.
Proof.
  unfold alpha_metrics, mean_name. intros Hm Hm' H.
  repeat (apply elem_of_cons in Hm as [->|Hm]); [..|by apply elem_of_nil in Hm];
    repeat (apply elem_of_cons in Hm' as [->|Hm']);
    try (by apply elem_of_nil in Hm'); try (simpl in H; discriminate);
    (split; [done|]); simpl in H; congruence.
Qed.

Lemma mean_names_depth m d ds :
  m ∈ alpha_metrics → mean_name m d ∈ mean_names ds → d ∈ ds.
Proof.
  intros Hm. unfold mean_names.
  intros (d' & Hin & Hd')%list_elem_of_bind.
  apply list_elem_of_bind in Hin as (m' & Hin & Hm').
  apply list_elem_of_singleton in Hin.
  by apply mean_name_inj in Hin as [_ ->].
Qed.

Section SubsetFacts.

Variable deblur_input : option table.
Variable picrust_input : string → option table.

(** The table [t] comes from a run of the command at depth [d]. *)
Definition produced (st : state) (d : string) (t : table) : Prop :=
  ∃ base text,
    subset_input deblur_input picrust_input base ∧ sample_id_txt st !! d = Some text ∧
    subset_samples base (read_ids text) = Ok t.

Lemma cell18_collapse_output st d out c d' t :
  subset_output (cell18_collapse picrust_input st d out c) d' t →
  subset_output out d' t ∨ (d' = d ∧ produced st d t).
Proof.
  unfold cell18_collapse, biom_subset_table.
  destruct (picrust_input c) as [base|] eqn:Eb; [|by left].
  destruct (sample_id_txt st !! d) as [text|] eqn:Et; [|by left].
  destruct (subset_samples base (read_ids text)) as [t'|] eqn:Es; [|by left].
  intros [Hd|(c' & Hp)]; cbn [deblur_biom picrust_biom] in *.
  - left. by left.
  - destruct (decide ((d, c) = (d', c'))) as [[= <- <-]|Hne].
    + rewrite lookup_insert_eq in Hp. injection Hp as <-.
      right. split; [done|]. exists base, text. split; [|done]. right. eauto.
    + rewrite lookup_insert_ne in Hp by done. left. right. eauto.
Qed.

Lemma cell18_depth_output st d out d' t :
  subset_output (cell18_depth deblur_input picrust_input st out d) d' t →
  subset_output out d' t ∨ (d' = d ∧ produced st d t).
Proof.
  unfold cell18_depth. cbn [foldl]. intros H.
  repeat (apply cell18_collapse_output in H as [H|H]; [|by right]).
  revert H. unfold biom_subset_table.
  destruct deblur_input as [base|] eqn:Eb; [|by left].
  destruct (sample_id_txt st !! d) as [text|] eqn:Et; [|by left].
  destruct (subset_samples base (read_ids text)) as [t'|] eqn:Es; [|by left].
  intros [Hd|(c' & Hp)]; cbn [deblur_biom picrust_biom] in *.
  - destruct (decide (d = d')) as [<-|Hne].
    + rewrite lookup_insert_eq in Hd. injection Hd as <-.
      right. split; [done|]. exists base, text. split; [by left | done].
    + rewrite lookup_insert_ne in Hd by done. left. by left.
  - left. right. eauto.
Qed.

Lemma cell18_output st ds out d t :
  subset_output (foldl (cell18_depth deblur_input picrust_input st) out ds) d t →
  subset_output out d t ∨ produced st d t.
Proof.
  revert out. induction ds as [|d0 ds IH]; intros out; simpl; [by left|].
  intros [H|H]%IH; [|by right].
  apply cell18_depth_output in H as [H|[-> H]]; [by left | by right].
Qed.

Lemma subset_samples_spec (base t : table) (ids : list string) :
  NoDup (samples base) → NoDup ids →
  subset_samples base ids = Ok t → ∀ s, s ∈ samples t ↔ s ∈ ids.
Proof.
  unfold subset_samples. intros Hb Hi. case_decide as Hlen; [|discriminate].
  intros H.
  assert (t = remove_empty (keep_samples ids base)) as ->.
  { destruct ids; [discriminate|]. by injection H as <-. }
  intros s. cbn [samples remove_empty keep_samples] in *.
  assert (Hperm : filter (λ s, s ∈ ids) (samples base) ≡ₚ ids).
  { apply submseteq_length_Permutation; [|lia].
    apply NoDup_submseteq; [by apply NoDup_filter|].
    by intros x [? _]%list_elem_of_filter. }
  by rewrite Hperm.
Qed.

(** The samples of a subsetted table matching those of the metadata
    file: the claim C3 for a table and a file. *)
Definition same_samples (t : table) (written : frame) : Prop :=
  ∀ s, s ∈ samples t ↔ s ∈ index written.

(** C3, as amended.  For every depth whose sample ids are plain, so
    that the command reads [sample_id.txt] back as it was written, a
    table that cell 18 writes, from an input table that lists each of
    its samples once, holds the samples listed in [sample_id.txt],
    which are the index of the collated table.  A sample of the table
    is in [ag_map_with_alpha.txt] if and only if its row of the
    accumulated metadata has no missing value in any column.  When
    the loaded metadata has no column named as a mean column of the
    depth, every sample of [ag_map_with_alpha.txt] is in the table. *)
Theorem subset_tables_and_metadata
  (st0 st_end : state) (out0 : packaged) (d : string) (t : table)
  (collated written : frame) :
  cell15 st0 = Ok st_end → d ∈ depths →
  collated_alpha_txt st_end !! d = Some collated →
  ag_map_with_alpha_txt st_end !! d = Some written →
  Forall (λ s, plain_id s = true) (index collated) →
  (∀ t0, ¬ subset_output out0 d t0) →
  subset_output (cell18 deblur_input picrust_input st_end out0) d t →
  (∀ base, subset_input deblur_input picrust_input base → NoDup (samples base)) →
  ∃ text acc,
    sample_id_txt st_end !! d = Some text ∧
    read_ids text = index collated ∧
    accumulated_at st0 d acc ∧
    (∀ s, s ∈ samples t ↔ s ∈ read_ids text) ∧
    (∀ s, s ∈ samples t → (s ∈ index written ↔ complete acc s)) ∧
    ((∀ m, m ∈ alpha_metrics → assoc (mean_name m d) (columns (map_ st0)) = None) →
     ∀ s, s ∈ index written → s ∈ samples t).
Proof.
  intros H Hd Hcol Hwr Hplain Hnone Hout Hinputs.
  destruct (cell15_at_depth _ _ _ H Hd)
    as (before & after & st_b & st_d & Hsplit & Hnb & Hb & Hstep & Hib & Hcb
        & _ & Hc & Hw & Ht).
  destruct (depth_step_spec _ _ _ Hstep)
    as (frames & collated' & Hall & _ & Hcat & Hc' & Hw' & _ & Ht' & Hi).
  rewrite Hc, Hc' in Hcol. injection Hcol as ->.
  rewrite Hw, Hw' in Hwr. injection Hwr as <-.
  exists (Json.join (String newline "") (index collated)), (map_ st_d).
  split; [by rewrite Ht|].
  split; [by apply read_ids_join|].
  split; [by exists before, after, st_b, st_d|].
  rewrite read_ids_join by done.
  pose proof (concat_columns_spec _ _ Hcat) as (_ & Hsub & Hsup).
  assert (Hsamples : ∀ s, s ∈ samples t ↔ s ∈ index collated).
  { apply cell18_output in Hout as [Hout|(base & text & Hbase & Htext & Hsubset)];
      [by apply Hnone in Hout|].
    rewrite Ht, Ht' in Htext. injection Htext as <-.
    rewrite read_ids_join in Hsubset by done.
    eapply subset_samples_spec; [by apply Hinputs| |done].
    eapply concat_columns_NoDup; [|done].
    eapply Forall2_Forall_r; [exact Hall|].
    apply Forall_forall. by intros m _ a' (? & _). }
  split; [done|]. split.
  - (* a sample of the table is a row of the metadata *)
    intros s Hs%Hsamples. rewrite elem_of_dropna.
    assert (s ∈ index (map_ st_d)); [|tauto].
    destruct (Hsup s Hs) as (a & Ha & Hsa).
    assert (Hlabs : Forall (λ a, Forall (λ s, s ∈ index (map_ st_b)) (index a)) frames).
    { eapply Forall2_Forall_r; [exact Hall|].
      apply Forall_forall. by intros m _ a' (_ & ? & _). }
    rewrite Forall_forall in Hlabs. specialize (Hlabs a Ha).
    rewrite Forall_forall in Hlabs. rewrite Hi. by apply Hlabs.
  - (* a complete row has a mean of the first metric, which only the
       samples of the collated table were given *)
    intros Hfree s [Hs Hcomp]%elem_of_dropna. apply Hsamples.
    unfold alpha_metrics in Hall.
    apply Forall2_cons_inv_l in Hall as (a1 & frames' & (_ & _ & [ser Hser] & Hset) & _ & ->).
    rewrite Hi in Hs. specialize (Hset s Hs).
    assert (Hval : is_Some (cell (map_ st_d) s (mean_name "observed_otus" d))).
    { unfold cell. rewrite Hi, decide_True by done. rewrite Hser.
      cbn [mbind option_bind].
      unfold complete in Hcomp. rewrite Forall_forall in Hcomp.
      apply (Hcomp (mean_name "observed_otus" d, ser)). by apply assoc_Some. }
    rewrite Hset in Hval. case_decide as Hin.
    + apply (Hsub a1); [left | done].
    + exfalso. unfold cell in Hval. rewrite decide_True in Hval by done.
      rewrite Hcb, Hfree in Hval; [by destruct Hval | set_solver |].
      intros Hmn. apply Hnb. eapply mean_names_depth; [|exact Hmn]. set_solver.
Qed.

End SubsetFacts.

End Frames.

(** ** A small study *)

(** Three samples, of which [s3] has too few reads for any depth and
    [s2] has no age on record; exact rational arithmetic for the
    floats. *)

Abbreviation Q := QArith_base.Q.

Definition qsum (l : list Q) : Q :=
  foldr QArith_base.Qplus (QArith_base.inject_Z 0) l.

Definition qdiv (x : Q) (n : nat) : Q :=
  QArith_base.Qdiv x (QArith_base.inject_Z (Z.of_nat n)).

Fixpoint decimal (s : string) (acc : Z) : option Z :=
  match s with
  | "" => Some acc
  | String c r =>
    let n := Z.of_N (N_of_ascii c) in
    if ((48 <=? n) && (n <=? 57))%Z then decimal r (10 * acc + (n - 48))%Z
    else None
  end.

Definition qfloat (s : string) : option (option Q) :=
  if String.eqb s "nan" then Some None
  else match s with
       | "" => None
       | _ => (λ z, Some (QArith_base.inject_Z z)) <$> decimal s 0
       end.

Definition study_artifact (d m : string) (i : nat) : option alpha_tsv :=
  if bool_decide (d ∈ depths)
  then Some (mkTsv m [("s1", Some "4"); ("s2", Some (digit i))])
  else None.

Definition study_map : frame (F := Q) :=
  mkFrame ["s1"; "s2"; "s3"]
          [("age", {[ "s1" := Str "44"; "s3" := Str "51" ]})].

Definition study : state (F := Q) := mkState study_map ∅ ∅ ∅ ∅ ∅.

Definition study_end : state (F := Q) :=
  match cell15 qsum qdiv qfloat study_artifact study with
  | Ok st => st
  | Raise _ => study
  end.

Definition qnonzero (x : Q) : bool :=
  negb (QArith_base.Qeq_bool x (QArith_base.inject_Z 0)).

(** The observation [otu3] has counts in [s3] only. *)
Definition study_deblur : table (F := Q) :=
  mkTable ["s1"; "s2"; "s3"] ["otu1"; "otu2"; "otu3"]
          {[ ("otu1", "s1") := QArith_base.inject_Z 7;
             ("otu2", "s2") := QArith_base.inject_Z 9;
             ("otu3", "s3") := QArith_base.inject_Z 2 ]}.

Definition study_picrust (collapse : string) : option (table (F := Q)) :=
  Some (mkTable ["s1"; "s2"] ["K00001"]
                {[ ("K00001", "s1") := QArith_base.inject_Z 3 ]}).

Definition study_packaged : packaged (F := Q) :=
  cell18 qnonzero (Some study_deblur) study_picrust study_end (mkPackaged ∅ ∅).

(** The files of depth 1250, and the metadata as accumulated there. *)
Definition study_collated : frame (F := Q) :=
  default (mkFrame [] []) (collated_alpha_txt study_end !! "1250").
Definition study_written : frame (F := Q) :=
  default (mkFrame [] []) (ag_map_with_alpha_txt study_end !! "1250").
Definition study_subset : table (F := Q) :=
  default (mkTable [] [] ∅) (deblur_biom study_packaged !! "1250").
Definition study_at_1250 : state (F := Q) :=
  match depth_step qsum qdiv qfloat study_artifact "1250" (start study) with
  | Ok st => st
  | Raise _ => study
  end.
Definition study_accumulated : frame (F := Q) := map_ study_at_1250.

(** Evaluation by the virtual machine: of an equation, and of a
    decidable proposition. *)
Ltac vm_refl :=
  lazymatch goal with
  | |- ?a = ?b => vm_cast_no_check (@eq_refl _ b)
  end.

Ltac by_compute :=
  lazymatch goal with
  | |- ¬ ?P => apply (bool_decide_eq_false_1 P); vm_refl
  | |- ?P => apply (bool_decide_eq_true_1 P); vm_refl
  end.

Lemma some_get {A} (o : option A) (d : A) :
  bool_decide (is_Some o) = true → o = Some (default d o).
Proof. intros [a ->]%bool_decide_eq_true. done. Qed.

Lemma study_runs : cell15 qsum qdiv qfloat study_artifact study = Ok study_end.
Proof. apply ok_get. vm_refl. Qed.

Lemma study_collated_file : collated_alpha_txt study_end !! "1250" = Some study_collated.
Proof. apply some_get. vm_refl. Qed.

Lemma study_written_file : ag_map_with_alpha_txt study_end !! "1250" = Some study_written.
Proof. apply some_get. vm_refl. Qed.

Lemma study_subset_file : deblur_biom study_packaged !! "1250" = Some study_subset.
Proof. apply some_get. vm_refl. Qed.

Lemma study_artifacts_headed : artifacts_headed study_artifact.
Proof.
  intros d m i t. unfold study_artifact. case_bool_decide; [|discriminate].
  by intros [= <-].
Qed.

Lemma study_headed : headed study.
Proof. intros d m t H. cbn in H. by rewrite lookup_empty in H. Qed.

Lemma study_accumulated_at :
  accumulated_at qsum qdiv qfloat study_artifact study "1250" study_accumulated.
Proof.
  exists [], ["2500"; "5000"; "10000"; "50000"], (start study), study_at_1250.
  split; [reflexivity|]. split; [reflexivity|]. split; [|reflexivity].
  apply ok_get. vm_refl.
Qed.

Lemma sample_id_file_is_collated_index_witness :
  ∃ collated text,
    collated_alpha_txt study_end !! "1250" = Some collated ∧
    sample_id_txt study_end !! "1250" = Some text ∧
    sample_ids study_end !! "1250" = Some (index collated) ∧
    text = Json.join (String newline "") (index collated) ∧
    (Forall line_id (index collated) → file_lines text = index collated).
Proof.
  apply (sample_id_file_is_collated_index qsum qdiv qfloat study_artifact study).
  - exact study_runs.
  - by_compute.
Defined.










Section Exact.

Import QArith_base Qabs.
#[local] Close Scope Q_scope.





End Exact.

Lemma ag_map_rows_without_missing_witness :
  ∃ acc written,
    accumulated_at qsum qdiv qfloat study_artifact study "1250" acc ∧
    index acc = index (map_ study) ∧
    (∀ c, c ∉ mean_names depths →
          assoc c (columns acc) = assoc c (columns (map_ study))) ∧
    ag_map_with_alpha_txt study_end !! "1250" = Some written ∧
    columns written = columns acc ∧
    (∀ s, s ∈ index acc → (s ∉ index written ↔ any_missing acc s)) ∧
    (∀ s, s ∈ index written → s ∈ index acc) ∧
    (∀ s, s ∈ index acc → alpha_missing acc s → s ∉ index written).
Proof.
  apply (ag_map_rows_without_missing qsum qdiv qfloat study_artifact study study_end).
  - exact study_runs.
  - by_compute.
Defined.

(** C6, as stated, fails: the sample [s2] has all its alpha diversity
    values and is dropped all the same, for its missing age. *)
Lemma ag_map_drops_for_other_columns :
  ¬ (∀ acc written,
       accumulated_at qsum qdiv qfloat study_artifact study "1250" acc →
       ag_map_with_alpha_txt study_end !! "1250" = Some written →
       dropped_for_alpha_only acc written).
Proof.
  intros Hclaim.
  assert (Hs : "s2" ∈ index study_accumulated) by by_compute.
  destruct (Hclaim study_accumulated study_written study_accumulated_at
              study_written_file "s2" Hs) as [Hdrop _].
  assert (Hnot : ¬ alpha_missing study_accumulated "s2") by by_compute.
  apply Hnot, Hdrop. by_compute.
Qed.

Lemma subset_tables_and_metadata_witness :
  ∃ text acc,
    sample_id_txt study_end !! "1250" = Some text ∧
    read_ids text = index study_collated ∧
    accumulated_at qsum qdiv qfloat study_artifact study "1250" acc ∧
    (∀ s, s ∈ samples study_subset ↔ s ∈ read_ids text) ∧
    (∀ s, s ∈ samples study_subset → (s ∈ index study_written ↔ complete acc s)) ∧
    ((∀ m, m ∈ alpha_metrics →
           assoc (mean_name m "1250") (columns (map_ study)) = None) →
     ∀ s, s ∈ index study_written → s ∈ samples study_subset).
Proof.
  apply (subset_tables_and_metadata qsum qdiv qfloat study_artifact qnonzero
           (Some study_deblur) study_picrust study study_end (mkPackaged ∅ ∅)
           "1250" study_subset study_collated study_written).
  - exact study_runs.
  - by_compute.
  - exact study_collated_file.
  - exact study_written_file.
  - by_compute.
  - intros t0 [H|[c H]]; cbn in H; rewrite lookup_empty in H; discriminate.
  - left. exact study_subset_file.
  - intros base [[= <-]|[c [= <-]]]; by_compute.
Defined.

(** C3, as stated, fails: the sample [s2] is in the subsetted table of
    depth 1250 and not in the metadata written for that depth. *)
Lemma subset_and_metadata_samples_differ :
  ¬ (∀ t written,
       deblur_biom study_packaged !! "1250" = Some t →
       ag_map_with_alpha_txt study_end !! "1250" = Some written →
       same_samples t written).
Proof.
  intros Hclaim.
  destruct (Hclaim study_subset study_written study_subset_file
              study_written_file "s2") as [Hin _].
  assert (Hnot : "s2" ∉ index study_written) by by_compute.
  apply Hnot, Hin. by_compute.
Qed.

End Alpha.

(* ===================================================================== *)
(** * The full PICRUSt table (cell 24) *)
(* ===================================================================== *)

(** The loop loads the base table, filters it to the samples of a depth
    and writes the result, once per depth.  A biom table is an object:
    [filter] changes the table it is called on unless [inplace] is
    false, in which case it changes a copy.  The tables live in a store
    and the variables of the cell hold references into it. *)

Module Full.

Import Alpha.

Section Loop.

(** The counts of the tables, and the content of an HDF5 file. *)
Context {F File : Type}.

(** [biom.Table.from_hdf5(f_, parse_fs=parse_fs)] on the content of a
    file, and what [t.to_hdf5(fp_, generated_by, format_fs=format_fs)]
    writes. *)
Variable from_hdf5 : File → result (table (F := F)).
Variable to_hdf5 : table (F := F) → string → result File.

(** The file at [fp_in], and [sample_ids] as cell 15 left it. *)
Variable fp_in : File.
Variable sample_ids : gmap string (list string).

Record state : Type := mkState {
  (** the tables in memory, by reference *)
  objects : gmap nat (table (F := F));
  next_object : nat;
  (** the variables [t_in] and [t_depth] *)
  t_in : option nat;
  t_depth : option nat;
  (** what [print] has written *)
  stdout : list string;
  (** [./03.packaged/<depth>/picrust/deblur_no_blooms_125nt_min1250_gg99_normed_pred.biom] *)
  picrust_out : gmap string File
}.

(** A new object. *)
Definition alloc (t : table) (st : state) : nat * state :=
  (next_object st,
   mkState (<[next_object st := t]> (objects st)) (S (next_object st))
           (t_in st) (t_depth st) (stdout st) (picrust_out st)).

Definition deref (l : nat) (st : state) : result table :=
  or_raise (External "no such object") (objects st !! l).

(** [self.copy()] *)
Definition Table_copy (self : nat) (st : state) : result (nat * state) :=
  t ← deref self st; Ok (alloc t st).

(** [[index[id_] for id_ in ids_to_keep]]: the position of each id to
    keep is looked up, which raises [KeyError] on the first id that is
    no sample of the table. *)
Definition known_ids (t : table (F := F)) (ids_to_keep : list string) : result unit :=
  match list_find (λ id_, id_ ∉ samples t) ids_to_keep with
  | Some (_, id_) => Raise (KeyError id_)
  | None => Ok ()
  end.

(** [self.filter(ids_to_keep, axis='sample', inplace=inplace)]:
    [table = self if inplace else self.copy()], then the ids to keep
    are looked up, the samples of [table] whose id is not to keep are
    removed, and [table] is returned. *)
Definition Table_filter (self : nat) (ids_to_keep : list string) (inplace : bool)
  (st : state) : result (nat * state) :=
  target ← (if inplace then Ok (self, st) else Table_copy self st);
  t ← deref target.1 target.2;
  _ ← known_ids t ids_to_keep;
  Ok (target.1,
      mkState (<[target.1 := keep_samples ids_to_keep t]> (objects target.2))
              (next_object target.2) (t_in target.2) (t_depth target.2)
              (stdout target.2) (picrust_out target.2)).

(** ['filtered for %s sequences/sample' % depth] *)
Definition generated_by (depth : string) : string :=
  "filtered for " +:+ depth +:+ " sequences/sample".

(** The body of the loop. *)
Definition cell24_body (depth : string) (st : state) : result state :=
  (* print(depth) *)
  let st := mkState (objects st) (next_object st) (t_in st) (t_depth st)
                    (stdout st ++ [depth]) (picrust_out st) in
  (* id_ = sample_ids[depth] *)
  id_ ← or_raise (KeyError depth) (sample_ids !! depth);
  (* t_in = biom.Table.from_hdf5(f_, parse_fs=parse_fs) *)
  loaded ← from_hdf5 fp_in;
  let new := alloc loaded st in
  let st := mkState (objects new.2) (next_object new.2) (Some new.1) (t_depth new.2)
                    (stdout new.2) (picrust_out new.2) in
  (* t_depth = t_in.filter(id_, axis='sample', inplace=False) *)
  filtered ← Table_filter new.1 id_ false st;
  let st := filtered.2 in
  let st := mkState (objects st) (next_object st) (t_in st) (Some filtered.1)
                    (stdout st) (picrust_out st) in
  (* t_depth.to_hdf5(fp_, 'filtered for ...' % depth, format_fs=format_fs) *)
  t ← deref filtered.1 st;
  content ← to_hdf5 t (generated_by depth);
  Ok (mkState (objects st) (next_object st) (t_in st) (t_depth st)
              (stdout st) (<[depth := content]> (picrust_out st))).

(** [for depth in depths[::-1]] over a list of depths, and cell 24. *)
Definition cell24_loop (ds : list string) (st : state) : result state :=
  for_each cell24_body ds st.

Definition cell24 (st : state) : result state :=
  cell24_loop (reverse depths) st.

(** What the iteration for a depth writes, when it writes. *)
Definition expected (depth : string) : result File :=
  id_ ← or_raise (KeyError depth) (sample_ids !! depth);
  loaded ← from_hdf5 fp_in;
  _ ← known_ids loaded id_;
  to_hdf5 (keep_samples id_ loaded) (generated_by depth).

(** ** Facts *)

Lemma cell24_body_spec (depth : string) (st st' : state) :
  cell24_body depth st = Ok st' →
  ∃ ids loaded content,
    sample_ids !! depth = Some ids ∧
    from_hdf5 fp_in = Ok loaded ∧
    known_ids loaded ids = Ok () ∧
    to_hdf5 (keep_samples ids loaded) (generated_by depth) = Ok content ∧
    t_in st' = Some (next_object st) ∧
    t_depth st' = Some (S (next_object st)) ∧
    objects st' = <[S (next_object st) := keep_samples ids loaded]>
                    (<[next_object st := loaded]> (objects st)) ∧
    next_object st' = S (S (next_object st)) ∧
    stdout st' = stdout st ++ [depth] ∧
    picrust_out st' = <[depth := content]> (picrust_out st).
Proof.
  unfold cell24_body. intros H.
  apply bind_ok in H as (ids & Hids & H).
  apply bind_ok in H as (loaded & Hl & H).
  destruct (sample_ids !! depth) as [ids'|] eqn:E; simpl in Hids; [|discriminate].
  injection Hids as ->.
  unfold Table_filter, Table_copy, deref, alloc in H. cbn -[generated_by known_ids] in H.
  rewrite lookup_insert_eq in H. cbn -[generated_by known_ids] in H.
  rewrite lookup_insert_eq in H. cbn -[generated_by known_ids] in H.
  destruct (known_ids loaded ids) as [[]|e] eqn:Hk; [|discriminate].
  cbn -[generated_by] in H.
  rewrite lookup_insert_eq in H. cbn -[generated_by] in H.
  apply bind_ok in H as (content & Hc & H). injection H as <-. cbn -[generated_by].
  exists ids, loaded, content. rewrite insert_insert_eq. done.
Qed.

Lemma cell24_body_expected (depth : string) (st st' : state) :
  cell24_body depth st = Ok st' →
  ∃ content, expected depth = Ok content ∧
             picrust_out st' = <[depth := content]> (picrust_out st).
Proof.
  intros (ids & loaded & content & Hi & Hl & Hk & Hc & _ & _ & _ & _ & _ & Ho)%cell24_body_spec.
  exists content. split; [|done].
  unfold expected. rewrite Hi. cbn -[generated_by known_ids].
  rewrite Hl. cbn -[generated_by known_ids]. rewrite Hk. done.
Qed.

Lemma cell24_body_runs (depth : string) (st : state) (content : File) :
  expected depth = Ok content →
  ∃ st', cell24_body depth st = Ok st'.
Proof.
  unfold expected. intros H.
  apply bind_ok in H as (ids & Hids & H).
  apply bind_ok in H as (loaded & Hl & H).
  apply bind_ok in H as ([] & Hk & H).
  unfold cell24_body. rewrite Hids. cbn -[generated_by known_ids].
  rewrite Hl. cbn -[generated_by known_ids].
  unfold Table_filter, Table_copy, deref, alloc. cbn -[generated_by known_ids].
  rewrite lookup_insert_eq. cbn -[generated_by known_ids].
  rewrite lookup_insert_eq. cbn -[generated_by known_ids]. rewrite Hk.
  cbn -[generated_by].
  rewrite lookup_insert_eq. cbn -[generated_by]. rewrite H. cbn -[generated_by]. eauto.
Qed.

Lemma cell24_loop_outputs (ds : list string) (st st' : state) :
  cell24_loop ds st = Ok st' →
  (∀ d, d ∈ ds → ∃ content,
          expected d = Ok content ∧
          picrust_out st' !! d = Some content) ∧
  (∀ d, d ∉ ds → picrust_out st' !! d = picrust_out st !! d).
Proof.
  unfold cell24_loop. revert st.
  induction ds as [|d0 ds IH]; intros st H; simpl in H.
  - injection H as <-. split; [by intros d ?%elem_of_nil | done].
  - apply bind_ok in H as (s1 & H1 & H).
    destruct (cell24_body_expected _ _ _ H1) as (content & Hexp & Hout).
    destruct (IH _ H) as (Hin & Hnot). split.
    + intros d Hd. destruct (decide (d ∈ ds)) as [Hds|Hds]; [by apply Hin|].
      apply elem_of_cons in Hd as [->|Hd]; [|done].
      exists content. split; [done|]. rewrite (Hnot _ Hds), Hout.
      apply lookup_insert_eq.
    + intros d Hd. apply not_elem_of_cons in Hd as [Hne Hd].
      rewrite (Hnot _ Hd), Hout. by apply lookup_insert_ne.
Qed.

Lemma cell24_loop_runs (ds : list string) (st : state) :
  Forall (λ d, is_ok (expected d) = true) ds →
  ∃ st', cell24_loop ds st = Ok st'.
Proof.
  unfold cell24_loop. intros H. revert st.
  induction H as [|d ds Hd _ IH]; intros st; simpl; [eauto|].
  destruct (expected d) as [content|] eqn:E;
    [|discriminate].
  destruct (cell24_body_runs d st content E) as (s1 & ->). simpl. apply IH.
Qed.

(** C8.  In the loop of cell 24 the filter works on a copy: after the
    iteration for a depth, the table under [t_in] is the base table as
    loaded and the filtered table is another object, and no older
    object has changed.  The file of a depth holds the base table
    filtered to the samples of that depth, whatever ran before; so the
    loop over the depths in any other order writes the same files. *)
Theorem full_table_filter_leaves_base (ds ds' : list string) (st st1 : state) :
  cell24_loop ds st = Ok st1 →
  (∀ d s s', cell24_body d s = Ok s' →
     ∃ l_in l_depth ids loaded,
       t_in s' = Some l_in ∧ t_depth s' = Some l_depth ∧ l_in ≠ l_depth ∧
       from_hdf5 fp_in = Ok loaded ∧ sample_ids !! d = Some ids ∧
       objects s' !! l_in = Some loaded ∧
       objects s' !! l_depth = Some (keep_samples ids loaded) ∧
       (∀ l, l < next_object s → objects s' !! l = objects s !! l)) ∧
  (∀ d, d ∈ ds →
     ∃ content, expected d = Ok content ∧
                picrust_out st1 !! d = Some content) ∧
  (∀ d, d ∉ ds → picrust_out st1 !! d = picrust_out st !! d) ∧
  (ds ≡ₚ ds' →
   ∃ st2, cell24_loop ds' st = Ok st2 ∧ picrust_out st2 = picrust_out st1).
Proof.
  intros H. destruct (cell24_loop_outputs _ _ _ H) as (Hin & Hnot).
  split; [|split; [done|split; [done|]]].
  - intros d s s' (ids & loaded & content & Hi & Hl & _ & _ & Ht & Htd & Ho & _)%cell24_body_spec.
    exists (next_object s), (S (next_object s)), ids, loaded.
    rewrite Ho. split; [done|]. split; [done|]. split; [lia|].
    split; [done|]. split; [done|]. split; [|split].
    + rewrite lookup_insert_ne by lia. apply lookup_insert_eq.
    + apply lookup_insert_eq.
    + intros l Hl'. rewrite !lookup_insert_ne by lia. done.
  - intros Hperm.
    assert (Hok : Forall (λ d, is_ok (expected d)
                               = true) ds').
    { rewrite <- Hperm. apply Forall_forall. intros d Hd.
      destruct (Hin d Hd) as (content & -> & _). done. }
    destruct (cell24_loop_runs ds' st Hok) as (st2 & H2).
    exists st2. split; [done|].
    destruct (cell24_loop_outputs _ _ _ H2) as (Hin' & Hnot').
    apply map_eq. intros d.
    destruct (decide (d ∈ ds)) as [Hd|Hd].
    + destruct (Hin d Hd) as (c & Hc & ->).
      destruct (Hin' d ltac:(by rewrite <- Hperm)) as (c' & Hc' & ->). congruence.
    + rewrite (Hnot d Hd), (Hnot' d); [done|]. by rewrite <- Hperm.
Qed.

End Loop.

(** ** A run *)

Definition small_table : table (F := nat) :=
  mkTable ["s1"; "s2"; "s3"] ["K00001"]
          {[ ("K00001", "s1") := 3; ("K00001", "s2") := 5; ("K00001", "s3") := 8 ]}.

Definition small_ids : gmap string (list string) :=
  list_to_map [("1250", ["s1"; "s2"; "s3"]); ("2500", ["s1"; "s2"]);
               ("5000", ["s1"; "s2"]); ("10000", ["s1"]); ("50000", ["s1"])].

Definition small_load (content : table (F := nat)) : result (table (F := nat)) :=
  Ok content.
Definition small_save (t : table (F := nat)) (generated_by : string)
  : result (table (F := nat)) := Ok t.

Definition small_start : state (F := nat) (File := table (F := nat)) :=
  mkState ∅ 0 None None [] ∅.

Definition small_end : state (F := nat) (File := table (F := nat)) :=
  match cell24 small_load small_save small_table small_ids small_start with
  | Ok st => st
  | Raise _ => small_start
  end.

Lemma small_runs :
  cell24_loop small_load small_save small_table small_ids (reverse depths) small_start
  = Ok small_end.
Proof. apply ok_get. vm_cast_no_check (@eq_refl bool true). Qed.

Lemma full_table_filter_leaves_base_witness :
  ∃ st2, cell24_loop small_load small_save small_table small_ids depths small_start
         = Ok st2 ∧
         picrust_out st2 = picrust_out small_end.
Proof.
  apply (full_table_filter_leaves_base small_load small_save small_table small_ids
           (reverse depths) depths small_start small_end).
  - exact small_runs.
  - apply reverse_Permutation.
Defined.

End Full.

(* ===================================================================== *)
(** * The distance matrices (cell 26) *)
(* ===================================================================== *)

(** The cell works on the file system: it extracts each beta diversity
    artifact into a temporary directory, moves the distance matrix out
    of the extracted directory and removes what is left.  The file
    system is a finite map from paths to nodes; a path is the list of
    its components below the working directory, which is the empty path
    and always a directory. *)

Module Beta.

Abbreviation path := (list string).

Inductive node (C : Type) : Type :=
| Dir
| File (content : C).

Arguments Dir {C}.
Arguments File {C} content.

#[export] Instance node_eq_dec {C} `{EqDecision C} : EqDecision (node C).
Proof. solve_decision. Defined.

(** What an artifact unpacks to: the directory named by its UUID and
    the tree below it, by path inside that directory. *)
Record archive (C : Type) : Type := mkArchive {
  uuid : string;
  tree : gmap path (node C)
}.

Arguments mkArchive {C} uuid tree.
Arguments uuid {C} a.
Arguments tree {C} a.

Definition metrics : list string :=
  ["bray_curtis"; "unweighted"; "weighted-normalized"; "weighted-unnormalized"].

(** ['./02.build_package/04.beta/%s/temp_dir/' % depth] and the
    directory it is in. *)
Definition beta_dir (depth : string) : path :=
  ["02.build_package"; "04.beta"; depth].
Definition temp_dir (depth : string) : path :=
  beta_dir depth ++ ["temp_dir"].

(** ['./03.packaged/%s/distance' % depth] *)
Definition distance_dir (depth : string) : path :=
  ["03.packaged"; depth; "distance"].

(** ['./02.build_package/04.beta/%s/%s.qza' % (depth, metric)] *)
Definition old_filepath (depth metric : string) : path :=
  beta_dir depth ++ [metric +:+ ".qza"].

(** ['./03.packaged/%s/distance/%s.txt' % (depth, metric)] *)
Definition new_path (depth metric : string) : path :=
  distance_dir depth ++ [metric +:+ ".txt"].

(** ['data/distance-matrix.tsv'] *)
Definition distance_matrix_tsv : path := ["data"; "distance-matrix.tsv"].

(** A plain name: letters, digits, [-], [_] and [.], and not the empty
    name, [.] or [..].  A command line reads a plain name as the one
    word it is.  The UUIDs of artifacts are plain: they are written
    with the digits, the letters [a] to [f] and [-]. *)
Definition plain_char (c : ascii) : bool :=
  let n := nat_of_ascii c in
  ((48 <=? n) && (n <=? 57)) || ((65 <=? n) && (n <=? 90))
  || ((97 <=? n) && (n <=? 122)) || (n =? 45) || (n =? 46) || (n =? 95).

Fixpoint all_plain (s : string) : bool :=
  match s with
  | "" => true
  | String c r => plain_char c && all_plain r
  end.

Definition plain_name (s : string) : bool :=
  all_plain s
  && negb (String.eqb s "") && negb (String.eqb s ".") && negb (String.eqb s "..").

(** ** The words of a command line *)

Definition blank : ascii := " "%char.

(** A text cut at its blanks. *)
Fixpoint split_blank (s : string) : list string :=
  match s with
  | "" => [""]
  | String c r =>
    if (c =? blank)%char then "" :: split_blank r
    else match split_blank r with
         | l :: ls => String c l :: ls
         | [] => [String c ""]
         end
  end.

(** A word that a command takes for an option. *)
Definition dashed (w : string) : bool :=
  match w with
  | String c _ => (c =? "-")%char
  | "" => false
  end.

(** The words the shell makes of a name that stands at the end of a
    path on a command line, without quotes.  A name made of plain
    names with one blank between them gives these names; the ones
    after the first are arguments of the command in their own right,
    and are not to look like options.  Any other name has a blank of
    another kind, or a character that the shell expands or takes for
    syntax: what the shell makes of it is not modelled, [None]. *)
Definition shell_words (name : string) : option (list string) :=
  match split_blank name with
  | w :: ws =>
    if plain_name w && forallb (λ w, plain_name w && negb (dashed w)) ws
    then Some (w :: ws)
    else None
  | [] => None
  end.

Section Relocation.

(** The content of files. *)
Context {C : Type}.

Abbreviation fsys := (gmap path (node C)).

(** Reading the archive of a [.qza] file; [None] when the file is not
    an artifact. *)
Variable unzip : C → option (archive C).

(** The order [os.listdir] gives the entries in is arbitrary. *)
Variable arrange : list string → list string.

(** ** [os] and [shutil] *)

Definition stat (fs : fsys) (p : path) : option (node C) :=
  if decide (p = []) then Some Dir else fs !! p.

(** [os.path.exists(p)] and [os.path.isdir(p)] *)
Definition exists_ (fs : fsys) (p : path) : bool :=
  bool_decide (is_Some (stat fs p)).
Definition isdir (fs : fsys) (p : path) : bool :=
  match stat fs p with
  | Some Dir => true
  | _ => false
  end.

(** [p] is strictly below [dir]. *)
Definition inside (dir p : path) : Prop := dir `prefix_of` p ∧ p ≠ dir.

Definition is_empty (fs : fsys) (dir : path) : bool :=
  bool_decide (map_Forall (λ p _, ¬ inside dir p) fs).

(** [os.mkdir(p)] *)
Definition mkdir (p : path) (fs : fsys) : result fsys :=
  match stat fs p with
  | Some _ => Raise (OSError "File exists")
  | None =>
      match stat fs (removelast p) with
      | Some Dir => Ok (<[p := Dir]> fs)
      | Some (File _) => Raise (OSError "Not a directory")
      | None => Raise (OSError "No such file or directory")
      end
  end.

(** [os.makedirs(name)], on the components of [name] from the last to
    the first: the missing directories above [name] are made first,
    then [name] itself. *)
Fixpoint makedirs_up (rev_name : list string) (fs : fsys) : result fsys :=
  match rev_name with
  | [] => mkdir [] fs
  | _ :: rev_head =>
      fs ← (if exists_ fs (reverse rev_head) then Ok fs
            else makedirs_up rev_head fs);
      mkdir (reverse rev_name) fs
  end.

Definition makedirs (name : path) (fs : fsys) : result fsys :=
  makedirs_up (reverse name) fs.

(** The name of [p] when [p] is an entry of [dir]. *)
Definition entry (dir p : path) : option string :=
  match last p with
  | Some n => if decide (p = dir ++ [n]) then Some n else None
  | None => None
  end.

(** [os.listdir(dir)] *)
Definition listdir (dir : path) (fs : fsys) : result (list string) :=
  match stat fs dir with
  | Some Dir =>
      Ok (arrange (elements (set_omap (D := gset string) (entry dir) (dom fs))))
  | Some (File _) => Raise (OSError "Not a directory")
  | None => Raise (OSError "No such file or directory")
  end.

(** [os.rmdir(p)] *)
Definition rmdir (p : path) (fs : fsys) : result fsys :=
  match fs !! p with
  | Some Dir =>
      if is_empty fs p then Ok (delete p fs)
      else Raise (OSError "Directory not empty")
  | Some (File _) => Raise (OSError "Not a directory")
  | None => Raise (OSError "No such file or directory")
  end.

(** [os.removedirs(name)]: [name] is removed, then the directories
    above it, from the nearest one, as long as they can be; a failure
    there ends the pruning and is not raised. *)
Fixpoint prune (rev_head : list string) (fs : fsys) : fsys :=
  match rev_head with
  | [] => fs
  | _ :: rev_rest =>
      match rmdir (reverse rev_head) fs with
      | Ok fs' => prune rev_rest fs'
      | Raise _ => fs
      end
  end.

Definition removedirs (name : path) (fs : fsys) : result fsys :=
  fs ← rmdir name fs;
  Ok (prune (tail (reverse name)) fs).

(** The tree at [src] put at [dst]. *)
Definition relocate (src dst : path) (fs : fsys) : fsys :=
  kmap (app dst) (kmap (M2 := gmap path) (drop (length src))
                       (filter (λ kv, src `prefix_of` kv.1) fs))
  ∪ filter (λ kv, ¬ src `prefix_of` kv.1) fs.

(** [shutil.move(src, dst)]: into [dst] when [dst] is a directory, else
    a rename, which replaces a file at [dst]. *)
Definition move (src dst : path) (fs : fsys) : result fsys :=
  let real_dst :=
    if isdir fs dst then dst ++ option_list (last src) else dst in
  if isdir fs dst && exists_ fs real_dst
  then Raise (External "shutil.Error: destination path already exists")
  else
    match fs !! src with
    | None => Raise (OSError "No such file or directory")
    | Some n =>
        if negb (isdir fs (removelast real_dst))
        then Raise (OSError "No such file or directory")
        else
          match n, stat fs real_dst with
          | File c, _ => Ok (<[real_dst := File c]> (delete src fs))
          | Dir, None => Ok (relocate src real_dst fs)
          | Dir, Some _ => Raise (OSError "File exists")
          end
    end.

(** ** The commands *)

(** [!qiime tools extract $input --output-dir $output_dir]: the archive
    is unpacked below its UUID in the output directory, which in the
    cell is a directory whenever the artifact is there to unpack.  The
    command line of a cell raises nothing: when the command fails the
    file system is as before. *)
Definition qiime_tools_extract (input output_dir : path) (fs : fsys) : fsys :=
  match fs !! input with
  | Some (File a) =>
      match unzip a with
      | Some ar =>
          if isdir fs output_dir
          then kmap (app (output_dir ++ [uuid ar])) (tree ar)
               ∪ <[output_dir ++ [uuid ar] := Dir]> fs
          else fs
      | None => fs
      end
  | _ => fs
  end.

(** [rm -r] of one path: the tree at the path is removed; a path that
    is not there is reported by the command and changes nothing. *)
Definition remove_tree (p : path) (fs : fsys) : fsys :=
  filter (λ kv, ¬ p `prefix_of` kv.1) fs.

(** [!rm -r $uuid_dir], where [uuid_dir] is the entry [name] of [dir].
    IPython puts the text of the path into the line as it is, without
    quotes, and the shell reads the line.  A plain name is read as the
    one word it is, and the tree at the path is removed.  A name with
    blanks is split: the command is given the path up to the first
    blank, and each further word as a path of its own, from the
    working directory; it removes those that are there, and the entry
    itself stays.  The line raises nothing.  For a name whose words
    are not modelled the model stops. *)
Definition rm_r (dir : path) (name : string) (fs : fsys) : result fsys :=
  match shell_words name with
  | Some (w :: ws) =>
      Ok (foldl (λ fs p, remove_tree p fs) fs
                ((dir ++ [w]) :: ((λ w, [w]) <$> ws)))
  | _ => Raise (External "the words of the name are outside the model")
  end.

(** ** The cell *)

(** The body of the loop over the metrics. *)
Definition cell26_metric (depth metric : string) (fs : fsys) : result fsys :=
  let fs := qiime_tools_extract (old_filepath depth metric) (temp_dir depth) fs in
  (* uuid_dir = os.path.join(temp_dir, os.listdir(temp_dir)[0]) *)
  names ← listdir (temp_dir depth) fs;
  first ← or_raise IndexError (head names);
  let uuid_dir := temp_dir depth ++ [first] in
  (* full_fp = os.path.join(uuid_dir, 'data/distance-matrix.tsv') *)
  let full_fp := uuid_dir ++ distance_matrix_tsv in
  fs ← move full_fp (new_path depth metric) fs;
  (* !rm -r $uuid_dir *)
  rm_r (temp_dir depth) first fs.

(** The body of the loop over the depths. *)
Definition cell26_depth (depth : string) (fs : fsys) : result fsys :=
  (* the path of the temporary directory ends in a slash: it exists
     when it is a directory *)
  fs ← (if negb (isdir fs (temp_dir depth))
        then makedirs (temp_dir depth) fs else Ok fs);
  fs ← (if negb (exists_ fs (distance_dir depth))
        then makedirs (distance_dir depth) fs else Ok fs);
  fs ← for_each (cell26_metric depth) metrics fs;
  removedirs (temp_dir depth) fs.

Definition cell26 (fs : fsys) : result fsys :=
  for_each cell26_depth Alpha.depths fs.

(** The distance matrix in the artifact of a depth and a metric. *)
Definition distance_matrix (fs : fsys) (depth metric : string) : option C :=
  match fs !! old_filepath depth metric with
  | Some (File a) =>
      ar ← unzip a;
      match tree ar !! distance_matrix_tsv with
      | Some (File dm) => Some dm
      | _ => None
      end
  | _ => None
  end.

(** The artifact of a depth and a metric unpacks below a plain name. *)
Definition plain_uuid (fs : fsys) (depth metric : string) : bool :=
  match fs !! old_filepath depth metric with
  | Some (File a) =>
      match unzip a with
      | Some ar => plain_name (uuid ar)
      | None => false
      end
  | _ => false
  end.

(** The state a depth starts from: the artifacts are in place and
    unpack below plain names, the temporary directory is not there or
    is an empty directory, the directory of the depth is there and no
    destination is a directory. *)
Definition absent_or_dir (fs : fsys) (p : path) : bool :=
  match fs !! p with
  | Some (File _) => false
  | _ => true
  end.

Definition ready (fs : fsys) (depth : string) : bool :=
  isdir fs (beta_dir depth)
  && absent_or_dir fs (temp_dir depth)
  && is_empty fs (temp_dir depth)
  && isdir fs ["03.packaged"; depth]
  && absent_or_dir fs (distance_dir depth)
  && forallb (λ m, bool_decide (is_Some (distance_matrix fs depth m))
                   && plain_uuid fs depth m
                   && negb (isdir fs (new_path depth m))) metrics.

(** What a depth leaves: each destination holds the distance matrix of
    its artifact, and nothing is at or below the temporary directory. *)
Definition relocated (fs fs' : fsys) (depth : string) : Prop :=
  (∀ m, m ∈ metrics →
     ∃ dm, distance_matrix fs depth m = Some dm ∧
           fs' !! new_path depth m = Some (File dm)) ∧
  (∀ p, temp_dir depth `prefix_of` p → fs' !! p = None).

(** The paths a depth does not write. *)
Definition untouched (depth : string) (p : path) : Prop :=
  ¬ temp_dir depth `prefix_of` p ∧ p ≠ distance_dir depth ∧
  ∀ m, m ∈ metrics → p ≠ new_path depth m.

(** The paths of a depth. *)
Definition owned (depth : string) (p : path) : Prop :=
  p = beta_dir depth ∨ temp_dir depth `prefix_of` p ∨
  p = ["03.packaged"; depth] ∨ p = distance_dir depth ∨
  ∃ m, p = old_filepath depth m ∨ p = new_path depth m.

(** ** Facts *)

#[local] Instance path_app_inj (l : path) : Inj (=) (=) (app l).
Proof. intros k1 k2 H. by apply app_inv_head in H. Qed.

Lemma entry_Some (dir p : path) (n : string) :
  entry dir p = Some n ↔ p = dir ++ [n].
Proof.
  unfold entry. split.
  - destruct (last p) as [n'|]; [|done].
    destruct (decide (p = dir ++ [n'])); [|done]. by intros [= ->].
  - intros ->. rewrite last_snoc. by rewrite decide_True.
Qed.

Lemma is_empty_true (fs : fsys) (dir : path) :
  is_empty fs dir = true ↔ ∀ p, inside dir p → fs !! p = None.
Proof.
  unfold is_empty. rewrite bool_decide_eq_true, map_Forall_lookup. split.
  - intros H p Hp. destruct (fs !! p) as [x|] eqn:E; [|done].
    by destruct (H p x E).
  - intros H p x E Hp. rewrite (H p Hp) in E. done.
Qed.

Lemma inside_app (dir k : path) : k ≠ [] → inside dir (dir ++ k).
Proof.
  intros Hk. split; [by exists k|].
  intros H. apply Hk. apply (app_inv_head dir). by rewrite app_nil_r.
Qed.

Lemma stat_lookup (fs : fsys) (p : path) : p ≠ [] → stat fs p = fs !! p.
Proof. intros. unfold stat. by rewrite decide_False. Qed.

Lemma isdir_lookup (fs : fsys) (p : path) :
  fs !! p = Some Dir → isdir fs p = true.
Proof. unfold isdir, stat. intros ->. by destruct (decide _). Qed.

Lemma isdir_congr (fs fs' : fsys) (p : path) :
  fs' !! p = fs !! p → isdir fs' p = isdir fs p.
Proof. unfold isdir, stat. by intros ->. Qed.

(** No artifact is named as the temporary directory. *)
Lemma qza_not_temp_dir (m : string) : m +:+ ".qza" ≠ "temp_dir".
Proof.
  intros H.
  do 9 (destruct m as [|? m]; simpl in H; [discriminate H|]).
  discriminate H.
Qed.

(** Paths are compared by their components. *)
Ltac paths :=
  unfold untouched, inside, new_path, old_filepath, temp_dir, distance_dir,
    beta_dir, distance_matrix_tsv in *; simpl in *;
  repeat match goal with
         | H : _ `prefix_of` _ |- _ => destruct H as [? H]; simpl in H
         | |- ¬ _ => intros ?
         | |- _ ≠ _ => intros ?
         end;
  simplify_eq/=; try done;
  try match goal with
      | H : _ +:+ ".qza" = "temp_dir" |- _ => by destruct (qza_not_temp_dir _ H)
      end.

Lemma new_path_inj (d : string) (m1 m2 : string) :
  m1 ∈ metrics → m2 ∈ metrics → new_path d m1 = new_path d m2 → m1 = m2.
Proof.
  unfold metrics. intros H1 H2 H.
  repeat (apply elem_of_cons in H1 as [->|H1]);
    try (by apply elem_of_nil in H1);
    repeat (apply elem_of_cons in H2 as [->|H2]);
    try (by apply elem_of_nil in H2); try done; by paths.
Qed.

Lemma isdir_true (fs : fsys) (p : path) :
  p ≠ [] → isdir fs p = true → fs !! p = Some Dir.
Proof.
  unfold isdir. intros Hp. rewrite (stat_lookup _ _ Hp).
  by destruct (fs !! p) as [[|c]|].
Qed.

Lemma distance_matrix_congr (fs fs' : fsys) (d m : string) :
  fs' !! old_filepath d m = fs !! old_filepath d m →
  distance_matrix fs' d m = distance_matrix fs d m.
Proof. unfold distance_matrix. by intros ->. Qed.

Lemma plain_uuid_congr (fs fs' : fsys) (d m : string) :
  fs' !! old_filepath d m = fs !! old_filepath d m →
  plain_uuid fs' d m = plain_uuid fs d m.
Proof. unfold plain_uuid. by intros ->. Qed.

(** A plain name is one word. *)
Lemma split_blank_plain (s : string) : all_plain s = true → split_blank s = [s].
Proof.
  induction s as [|c r IH]; [done|].
  cbn [all_plain split_blank]. intros [Hc Hr]%andb_true_iff.
  destruct (c =? blank)%char eqn:E.
  - apply Ascii.eqb_eq in E as ->. discriminate Hc.
  - by rewrite IH.
Qed.

Lemma rm_r_plain (dir : path) (name : string) (fs : fsys) :
  plain_name name = true →
  rm_r dir name fs = Ok (remove_tree (dir ++ [name]) fs).
Proof.
  intros H. unfold rm_r, shell_words.
  assert (all_plain name = true) as Hall.
  { unfold plain_name in H. rewrite !andb_true_iff in H. by destruct H as [[[? _] _] _]. }
  rewrite (split_blank_plain _ Hall). cbn [forallb]. rewrite H. done.
Qed.

Lemma distance_matrix_file (fs : fsys) (d m : string) :
  is_Some (distance_matrix fs d m) →
  ∃ a, fs !! old_filepath d m = Some (File a).
Proof.
  unfold distance_matrix. intros [dm H].
  destruct (fs !! old_filepath d m) as [[|a]|]; try done. by exists a.
Qed.

Lemma ready_spec (fs : fsys) (d : string) :
  ready fs d = true →
  fs !! beta_dir d = Some Dir ∧
  absent_or_dir fs (temp_dir d) = true ∧
  (∀ p, inside (temp_dir d) p → fs !! p = None) ∧
  fs !! ["03.packaged"; d] = Some Dir ∧
  absent_or_dir fs (distance_dir d) = true ∧
  (∀ m, m ∈ metrics →
     is_Some (distance_matrix fs d m) ∧ plain_uuid fs d m = true ∧
     isdir fs (new_path d m) = false).
Proof.
  unfold ready. rewrite !andb_true_iff, forallb_forall.
  intros (((((H1 & H2) & H3) & H4) & H5) & H6).
  apply isdir_true in H1; [|done]. apply isdir_true in H4; [|done].
  rewrite is_empty_true in H3.
  repeat split; try done.
  - apply list_elem_of_In, H6 in H. rewrite !andb_true_iff in H.
    destruct H as [[H _] _]. by apply bool_decide_eq_true in H.
  - apply list_elem_of_In, H6 in H. rewrite !andb_true_iff in H.
    by destruct H as [[_ H] _].
  - apply list_elem_of_In, H6 in H. rewrite !andb_true_iff in H.
    destruct H as [_ H]. by apply negb_true_iff in H.
Qed.

(** [os.makedirs] of a path whose parent is there makes the one
    directory. *)
Lemma makedirs_one (q : path) (x : string) (fs : fsys) :
  fs !! (q ++ [x]) = None → isdir fs q = true →
  makedirs (q ++ [x]) fs = Ok (<[q ++ [x] := Dir]> fs).
Proof.
  intros Hp Hq. unfold makedirs. rewrite reverse_snoc.
  cbn [makedirs_up]. rewrite reverse_involutive.
  assert (exists_ fs q = true) as ->.
  { unfold exists_. apply bool_decide_eq_true. unfold isdir in Hq.
    destruct (stat fs q); [by eexists|done]. }
  cbn [mbind result_bind]. rewrite reverse_cons, reverse_involutive.
  unfold mkdir. rewrite stat_lookup, Hp by by destruct q.
  rewrite removelast_last. unfold isdir in Hq.
  by destruct (stat fs q) as [[|c]|].
Qed.

Lemma guarded_makedirs (q : path) (x : string) (fs : fsys) (exists_or_isdir : bool) :
  isdir fs q = true → absent_or_dir fs (q ++ [x]) = true →
  exists_or_isdir = bool_decide (is_Some (fs !! (q ++ [x]))) →
  (if negb exists_or_isdir then makedirs (q ++ [x]) fs else Ok fs)
  = Ok (<[q ++ [x] := Dir]> fs).
Proof.
  unfold absent_or_dir. intros Hq Hp ->.
  destruct (fs !! (q ++ [x])) as [[|c]|] eqn:E; [|done|].
  - rewrite bool_decide_eq_true_2 by by eexists. cbn [negb].
    by rewrite insert_id.
  - rewrite bool_decide_eq_false_2 by by intros [? [=]]. cbn [negb].
    by apply makedirs_one.
Qed.

Section Order.

Hypothesis arrange_perm : ∀ l, arrange l ≡ₚ l.

(** One metric, from a state where the temporary directory is an empty
    directory: the artifact is unpacked, the listing has the one entry,
    the matrix goes to its destination and the rest is removed. *)
Lemma cell26_metric_moves (d m : string) (fs : fsys) (dm : C) :
  fs !! temp_dir d = Some Dir →
  is_empty fs (temp_dir d) = true →
  fs !! distance_dir d = Some Dir →
  distance_matrix fs d m = Some dm →
  plain_uuid fs d m = true →
  isdir fs (new_path d m) = false →
  cell26_metric d m fs = Ok (<[new_path d m := File dm]> fs).
Proof.
  intros Htemp Hempty Hdist Hdm Hplain Hnp.
  rewrite is_empty_true in Hempty.
  unfold distance_matrix in Hdm. unfold plain_uuid in Hplain.
  destruct (fs !! old_filepath d m) as [[|a]|] eqn:Ha; try done.
  destruct (unzip a) as [ar|] eqn:Hz; simpl in Hdm; [|done].
  destruct (tree ar !! distance_matrix_tsv) as [[|c]|] eqn:Ht; try done.
  injection Hdm as ->.
  unfold cell26_metric, qiime_tools_extract.
  rewrite Ha, Hz, (isdir_lookup _ _ Htemp).
  set (ud := temp_dir d ++ [uuid ar]).
  set (fse := kmap (app ud) (tree ar) ∪ <[ud := Dir]> fs).
  assert (E1 : ∀ p, ¬ ud `prefix_of` p → fse !! p = fs !! p).
  { intros p Hp. unfold fse. rewrite lookup_union_r.
    - apply lookup_insert_ne. intros Heq. apply Hp. by rewrite Heq.
    - apply lookup_kmap_None; [apply _|]. intros k ->. destruct Hp. by exists k. }
  assert (E2 : fse !! (ud ++ distance_matrix_tsv) = Some (File dm)).
  { unfold fse. apply lookup_union_Some_l. by rewrite (lookup_kmap (app ud)). }
  assert (E3 : is_Some (fse !! ud)).
  { unfold fse. apply lookup_union_is_Some. right.
    rewrite lookup_insert_eq. by eexists. }
  assert (E4 : ∀ n, is_Some (fse !! (temp_dir d ++ [n])) → n = uuid ar).
  { intros n Hn. destruct (decide (n = uuid ar)) as [|Hne]; [done|].
    rewrite E1, Hempty in Hn.
    - by destruct Hn.
    - by apply inside_app.
    - unfold ud. intros [k Hk]. rewrite <- (assoc_L (++)) in Hk.
      apply app_inv_head in Hk. simpl in Hk. congruence. }
  assert (Hnames : set_omap (D := gset string) (entry (temp_dir d)) (dom fse)
                   = {[ uuid ar ]}).
  { apply set_eq. intros n. rewrite elem_of_set_omap, elem_of_singleton. split.
    - intros (p & Hp & ->%entry_Some). apply E4. by apply elem_of_dom.
    - intros ->. exists ud. split; [by apply elem_of_dom|].
      by apply entry_Some. }
  assert (Htemp' : fse !! temp_dir d = Some Dir).
  { rewrite E1; [done|]. unfold ud. intros [k Hk].
    apply (f_equal length) in Hk. rewrite !length_app in Hk. simpl in Hk. lia. }
  unfold listdir. rewrite stat_lookup, Htemp' by done.
  rewrite Hnames, elements_singleton.
  pose proof (arrange_perm [uuid ar]) as ->%Permutation_singleton_r.
  cbn [mbind result_bind head or_raise].
  fold ud.
  assert (Hnp' : fse !! new_path d m = fs !! new_path d m).
  { apply E1. unfold ud. by paths. }
  unfold move.
  rewrite (isdir_congr _ _ _ Hnp'), Hnp. cbn [andb].
  rewrite E2.
  assert (Hparent : isdir fse (removelast (new_path d m)) = true).
  { apply isdir_lookup. change (removelast (new_path d m)) with (distance_dir d).
    rewrite E1; [done|]. unfold ud. by paths. }
  rewrite Hparent. cbn [negb mbind result_bind].
  rewrite (rm_r_plain _ _ _ Hplain). fold ud. unfold remove_tree.
  f_equal. apply map_eq. intros p.
  destruct (decide (ud `prefix_of` p)) as [Hp|Hp].
  - rewrite map_lookup_filter_None_2.
    + rewrite lookup_insert_ne.
      * symmetry. apply Hempty. destruct Hp as [k ->]. unfold ud.
        rewrite <- (assoc_L (++)). by apply inside_app.
      * intros Heq. rewrite <- Heq in Hp. unfold ud in Hp. by paths.
    + right. intros x _ Hx. by apply Hx.
  - apply option_eq. intros x. rewrite map_lookup_filter_Some. cbn [fst].
    destruct (decide (p = new_path d m)) as [->|Hne].
    + rewrite !lookup_insert_eq. tauto.
    + rewrite !lookup_insert_ne by done.
      rewrite lookup_delete_ne.
      * rewrite E1 by done. tauto.
      * intros Heq. apply Hp. rewrite <- Heq. by eexists.
Qed.

(** The loop over the metrics. *)
Lemma cell26_metrics_move (d : string) (ms : list string) (fs : fsys) :
  ms ⊆ metrics →
  fs !! temp_dir d = Some Dir →
  (∀ p, inside (temp_dir d) p → fs !! p = None) →
  fs !! distance_dir d = Some Dir →
  (∀ m, m ∈ ms →
     is_Some (distance_matrix fs d m) ∧ plain_uuid fs d m = true ∧
     isdir fs (new_path d m) = false) →
  ∃ fs', for_each (cell26_metric d) ms fs = Ok fs' ∧
    (∀ m, m ∈ ms →
       ∃ dm, distance_matrix fs d m = Some dm ∧
             fs' !! new_path d m = Some (File dm)) ∧
    (∀ p, (∀ m, m ∈ ms → p ≠ new_path d m) → fs' !! p = fs !! p).
Proof.
  revert fs. induction ms as [|m0 ms IH]; intros fs Hsub Htemp Hclear Hdist Hms.
  - exists fs. split; [done|]. split; [|done]. by intros m ?%elem_of_nil.
  - destruct (Hms m0) as ([dm0 Hdm0] & Hplain0 & Hnp0); [left|].
    assert (Hm0 : m0 ∈ metrics) by (apply Hsub; left).
    cbn [for_each].
    rewrite (cell26_metric_moves d m0 fs dm0) by (by try apply is_empty_true).
    cbn [mbind result_bind].
    set (fs1 := <[new_path d m0 := File dm0]> fs).
    assert (Hframe : ∀ p, p ≠ new_path d m0 → fs1 !! p = fs !! p).
    { intros p Hp. by apply lookup_insert_ne. }
    assert (Hdm : ∀ m, distance_matrix fs1 d m = distance_matrix fs d m).
    { intros m. apply distance_matrix_congr, Hframe. by paths. }
    assert (Hpl : ∀ m, plain_uuid fs1 d m = plain_uuid fs d m).
    { intros m. apply plain_uuid_congr, Hframe. by paths. }
    destruct (IH fs1) as (fs' & Hrun & Hout & Hrest).
    + intros m Hm. apply Hsub. by right.
    + rewrite Hframe; [done|]. by paths.
    + intros p Hp. rewrite Hframe; [by apply Hclear|].
      intros ->. destruct Hp as [Hp _]. by paths.
    + rewrite Hframe; [done|]. by paths.
    + intros m Hm. rewrite Hdm, Hpl. split; [apply Hms; by right|].
      split; [apply Hms; by right|].
      destruct (decide (new_path d m = new_path d m0)) as [Heq|Hne].
      * unfold isdir. rewrite stat_lookup by by paths.
        rewrite Heq. unfold fs1. by rewrite lookup_insert_eq.
      * rewrite (isdir_congr fs fs1) by by apply Hframe.
        apply Hms. by right.
    + exists fs'. split; [done|]. split.
      * intros m Hm. destruct (decide (m ∈ ms)) as [Hin|Hin].
        { destruct (Hout m Hin) as (dm & Hd & Hl). exists dm.
          by rewrite <- Hdm. }
        apply elem_of_cons in Hm as [->|Hm]; [|done].
        exists dm0. split; [done|]. rewrite Hrest.
        { apply lookup_insert_eq. }
        intros m Hm Heq. apply new_path_inj in Heq; [by subst| done |].
        apply Hsub. by right.
      * intros p Hp. rewrite Hrest.
        { apply Hframe, Hp. left. }
        intros m Hm. apply Hp. by right.
Qed.

(** One depth. *)
Lemma cell26_depth_relocates (d : string) (fs : fsys) :
  ready fs d = true →
  ∃ fs', cell26_depth d fs = Ok fs' ∧ relocated fs fs' d ∧
         ∀ p, untouched d p → fs' !! p = fs !! p.
Proof.
  intros (Hbeta & Htemp & Hclear & Hpack & Hdist & Hms)%ready_spec.
  unfold cell26_depth.
  rewrite (guarded_makedirs (beta_dir d) "temp_dir");
    [|by apply isdir_lookup|done|].
  2:{ change (beta_dir d ++ ["temp_dir"]) with (temp_dir d).
      unfold isdir. rewrite stat_lookup by done. unfold absent_or_dir in Htemp.
      destruct (fs !! temp_dir d) as [[|c]|];
        first [ done
              | symmetry; apply bool_decide_eq_true_2; by eexists
              | symmetry; apply bool_decide_eq_false_2; by intros [? [=]] ]. }
  change (beta_dir d ++ ["temp_dir"]) with (temp_dir d).
  cbn [mbind result_bind].
  set (fs1 := <[temp_dir d := Dir]> fs).
  assert (F1 : ∀ p, p ≠ temp_dir d → fs1 !! p = fs !! p).
  { intros p Hp. by apply lookup_insert_ne. }
  rewrite (guarded_makedirs ["03.packaged"; d] "distance").
  2:{ apply isdir_lookup. by rewrite F1. }
  2:{ unfold absent_or_dir. by rewrite F1. }
  2:{ unfold exists_. by rewrite stat_lookup. }
  change (["03.packaged"; d] ++ ["distance"]) with (distance_dir d).
  cbn [mbind result_bind].
  set (fs2 := <[distance_dir d := Dir]> fs1).
  assert (F2 : ∀ p, p ≠ temp_dir d → p ≠ distance_dir d → fs2 !! p = fs !! p).
  { intros p Hp Hp'. unfold fs2. rewrite lookup_insert_ne by done. by apply F1. }
  assert (Hdm : ∀ m, distance_matrix fs2 d m = distance_matrix fs d m).
  { intros m. apply distance_matrix_congr, F2; by paths. }
  assert (Hpl : ∀ m, plain_uuid fs2 d m = plain_uuid fs d m).
  { intros m. apply plain_uuid_congr, F2; by paths. }
  destruct (cell26_metrics_move d metrics fs2) as (fs3 & -> & Hout & Hrest).
  { done. }
  { unfold fs2. rewrite lookup_insert_ne by by paths.
    unfold fs1. by rewrite lookup_insert_eq. }
  { intros p Hp. rewrite F2; [by apply Hclear|by destruct Hp|].
    intros ->. destruct Hp as [Hp _]. by paths. }
  { unfold fs2. by rewrite lookup_insert_eq. }
  { intros m Hm. rewrite Hdm, Hpl. split; [by apply Hms|].
    split; [by apply Hms|].
    rewrite (isdir_congr fs fs2); [by apply Hms|]. apply F2; by paths. }
  cbn [mbind result_bind].
  assert (F3 : ∀ p, p ≠ temp_dir d → p ≠ distance_dir d →
                    (∀ m, m ∈ metrics → p ≠ new_path d m) → fs3 !! p = fs !! p).
  { intros p ? ? ?. rewrite Hrest by done. by apply F2. }
  assert (Htemp3 : fs3 !! temp_dir d = Some Dir).
  { rewrite Hrest by (intros; by paths).
    unfold fs2. rewrite lookup_insert_ne by by paths.
    unfold fs1. by rewrite lookup_insert_eq. }
  assert (Hclear3 : ∀ p, inside (temp_dir d) p → fs3 !! p = None).
  { intros p Hp. rewrite F3; [by apply Hclear|by destruct Hp|..].
    - intros ->. destruct Hp as [Hp _]. by paths.
    - intros m _ ->. destruct Hp as [Hp _]. by paths. }
  unfold removedirs, rmdir at 1. rewrite Htemp3.
  rewrite (proj2 (is_empty_true fs3 (temp_dir d)) Hclear3).
  cbn [mbind result_bind].
  assert (prune (tail (reverse (temp_dir d))) (delete (temp_dir d) fs3)
          = delete (temp_dir d) fs3) as ->.
  { change (tail (reverse (temp_dir d))) with [d; "04.beta"; "02.build_package"].
    cbn [prune]. change (reverse [d; "04.beta"; "02.build_package"]) with (beta_dir d).
    unfold rmdir. rewrite lookup_delete_ne by by paths.
    rewrite F3, Hbeta; [|by paths..].
    assert (is_empty (delete (temp_dir d) fs3) (beta_dir d) = false) as ->; [|done].
    apply bool_decide_eq_false. rewrite map_Forall_lookup. intros H.
    destruct (Hms "bray_curtis") as [[a Ha]%distance_matrix_file _];
      [unfold metrics; left|].
    apply (H (old_filepath d "bray_curtis") (File a)).
    - rewrite lookup_delete_ne by by paths. rewrite F3; [done|by paths..].
    - by apply inside_app. }
  eexists. split; [done|]. split; [split|].
  - intros m Hm. destruct (Hout m Hm) as (dm & Hd & Hl).
    exists dm. rewrite <- Hdm. split; [done|].
    rewrite lookup_delete_ne by by paths. done.
  - intros p Hp. destruct (decide (p = temp_dir d)) as [->|Hne].
    + apply lookup_delete_eq.
    + rewrite lookup_delete_ne by done. by apply Hclear3.
  - intros p (Hp1 & Hp2 & Hp3).
    assert (p ≠ temp_dir d) by (intros ->; by apply Hp1).
    rewrite lookup_delete_ne by done. by apply F3.
Qed.

(** A depth writes none of the paths of another depth. *)
Lemma owned_untouched (d d' : string) (p : path) :
  d ≠ d' → owned d' p → untouched d p.
Proof.
  intros Hne Hp.
  destruct Hp as [Hp|[Hp|[Hp|[Hp|[m [Hp|Hp]]]]]]; repeat split;
    try (intros m' _); by paths.
Qed.

Lemma ready_frame (d d' : string) (fs fs' : fsys) :
  d ≠ d' → (∀ p, untouched d p → fs' !! p = fs !! p) →
  ready fs d' = true → ready fs' d' = true.
Proof.
  intros Hne Hframe.
  assert (Hown : ∀ p, owned d' p → fs' !! p = fs !! p).
  { intros p Hp. by apply Hframe, (owned_untouched d d'). }
  unfold ready. rewrite !andb_true_iff, !forallb_forall.
  intros (((((H1 & H2) & H3) & H4) & H5) & H6).
  repeat split.
  - rewrite (isdir_congr fs fs'); [done|]. apply Hown. by left.
  - unfold absent_or_dir in *. rewrite Hown; [done|]. right. by left.
  - rewrite is_empty_true in H3. apply is_empty_true. intros p Hp.
    rewrite Hown; [by apply H3|]. right. left. by destruct Hp.
  - rewrite (isdir_congr fs fs'); [done|]. apply Hown. do 2 right. by left.
  - unfold absent_or_dir in *. rewrite Hown; [done|]. do 3 right. by left.
  - intros m Hm.
    rewrite (distance_matrix_congr fs fs'), (plain_uuid_congr fs fs'),
      (isdir_congr fs fs').
    + by apply H6.
    + apply Hown. do 4 right. exists m. by right.
    + apply Hown. do 4 right. exists m. by left.
    + apply Hown. do 4 right. exists m. by left.
Qed.

(** The loop over the depths. *)
Lemma cell26_depths_relocate (ds : list string) (fs : fsys) :
  NoDup ds → (∀ d, d ∈ ds → ready fs d = true) →
  ∃ fs', for_each cell26_depth ds fs = Ok fs' ∧
    (∀ d, d ∈ ds → relocated fs fs' d) ∧
    (∀ p, (∀ d, d ∈ ds → untouched d p) → fs' !! p = fs !! p).
Proof.
  intros Hnd. revert fs. induction Hnd as [|d0 ds Hd0 Hnd IH]; intros fs Hready.
  - exists fs. split; [done|]. split; [|done]. by intros d ?%elem_of_nil.
  - destruct (cell26_depth_relocates d0 fs) as (fs1 & Hrun & Hrel & Hframe);
      [apply Hready; left|].
    assert (Hne : ∀ d, d ∈ ds → d0 ≠ d) by (intros d Hd ->; done).
    destruct (IH fs1) as (fs' & Hrun' & Hrel' & Hframe').
    { intros d Hd. apply (ready_frame d0 d fs); [by apply Hne|done|].
      apply Hready. by right. }
    exists fs'. cbn [for_each]. rewrite Hrun. cbn [mbind result_bind].
    split; [done|]. split.
    + intros d Hd. destruct (decide (d ∈ ds)) as [Hin|Hin].
      * destruct (Hrel' d Hin) as [Hfiles Hgone]. split; [|done].
        intros m Hm. destruct (Hfiles m Hm) as (dm & Hdm & Hl).
        exists dm. split; [|done]. rewrite <- Hdm. symmetry.
        apply distance_matrix_congr, Hframe, (owned_untouched d0 d);
          [by apply Hne|]. do 4 right. exists m. by left.
      * apply elem_of_cons in Hd as [->|Hd]; [|done].
        destruct Hrel as [Hfiles Hgone]. split.
        { intros m Hm. destruct (Hfiles m Hm) as (dm & Hdm & Hl).
          exists dm. split; [done|]. rewrite Hframe'; [done|].
          intros d Hd. apply (owned_untouched d d0); [by apply not_eq_sym, Hne|].
          do 4 right. exists m. by right. }
        intros p Hp. rewrite Hframe'; [by apply Hgone|].
        intros d Hd. apply (owned_untouched d d0); [by apply not_eq_sym, Hne|].
        right. by left.
    + intros p Hp. rewrite Hframe', Hframe; [done|apply Hp; left|].
      intros d Hd. apply Hp. by right.
Qed.

(** C7.  When every depth is ready, which includes that its artifacts
    unpack below plain names, cell 26 runs to its end.  For every
    depth and every metric the destination
    [./03.packaged/<depth>/distance/<metric>.txt] then holds the
    distance matrix of the artifact, which is the file
    [data/distance-matrix.tsv] of the one entry the temporary
    directory had after the extraction, and nothing is at or below the
    temporary directory of the depth.  Both hold as well when the
    iteration for the depth ends. *)
Theorem distance_matrices_relocated (fs : fsys) :
  (∀ d, d ∈ Alpha.depths → ready fs d = true) →
  ∃ fs', cell26 fs = Ok fs' ∧
    ∀ d, d ∈ Alpha.depths →
      relocated fs fs' d ∧
      ∀ before after, Alpha.depths = before ++ d :: after →
        ∃ fs1 fs2, for_each cell26_depth before fs = Ok fs1 ∧
                   cell26_depth d fs1 = Ok fs2 ∧
                   relocated fs fs2 d.
Proof.
  intros Hready.
  assert (Hnd : NoDup Alpha.depths).
  { unfold Alpha.depths. repeat (apply NoDup_cons; split; [set_solver|]).
    apply NoDup_nil_2. }
  destruct (cell26_depths_relocate Alpha.depths fs Hnd Hready)
    as (fs' & Hrun & Hrel & _).
  exists fs'. split; [done|]. intros d Hd. split; [by apply Hrel|].
  intros before after Heq.
  destruct (cell26_depths_relocate (before ++ [d]) fs) as (fs2 & Hrun2 & Hrel2 & _).
  - rewrite Heq, (cons_middle d), (assoc_L (++)) in Hnd.
    by apply NoDup_app in Hnd as [? _].
  - intros d' Hd'. apply Hready. rewrite Heq, (cons_middle d), (assoc_L (++)).
    apply elem_of_app. by left.
  - rewrite for_each_app in Hrun2. apply bind_ok in Hrun2 as (fs1 & H1 & H2).
    cbn [for_each] in H2. apply bind_ok in H2 as (fs2' & H2 & [= ->]).
    exists fs1, fs2. repeat split; try done; apply Hrel2, elem_of_app;
      right; by left.
Qed.

End Order.

End Relocation.

(** ** A run *)

(** Artifacts whose content names them: the archive has the matrix, and
    the files that come with every artifact. *)
Definition packed_unzip (a : string) : option (archive string) :=
  Some (mkArchive ("5f1c-" +:+ a)
          {[ ["VERSION"] := File "QIIME 2";
             ["metadata.yaml"] := File "type: DistanceMatrix";
             ["data"] := Dir;
             ["data"; "distance-matrix.tsv"] := File ("distances " +:+ a) ]}).

Definition packed_fs : gmap path (node string) :=
  list_to_map
    ([(["02.build_package"], Dir); (["02.build_package"; "04.beta"], Dir);
      (["03.packaged"], Dir)]
     ++ (d ← Alpha.depths;
         [(beta_dir d, Dir); (["03.packaged"; d], Dir)]
         ++ (m ← metrics; [(old_filepath d m, File (d +:+ "-" +:+ m))]))).

Lemma packed_ready (d : string) :
  d ∈ Alpha.depths → ready packed_unzip packed_fs d = true.
Proof.
  assert (H : forallb (ready packed_unzip packed_fs) Alpha.depths = true).
  { vm_cast_no_check (@eq_refl bool true). }
  rewrite forallb_forall in H. intros Hd. by apply H, list_elem_of_In.
Qed.

Lemma distance_matrices_relocated_witness :
  ∃ fs', cell26 packed_unzip id packed_fs = Ok fs' ∧
    ∀ d, d ∈ Alpha.depths →
      relocated packed_unzip packed_fs fs' d ∧
      ∀ before after, Alpha.depths = before ++ d :: after →
        ∃ fs1 fs2,
          for_each (cell26_depth packed_unzip id) before packed_fs = Ok fs1 ∧
          cell26_depth packed_unzip id d fs1 = Ok fs2 ∧
          relocated packed_unzip packed_fs fs2 d.
Proof.
  apply (distance_matrices_relocated packed_unzip id).
  - done.
  - exact packed_ready.
Defined.

(** Artifacts that unpack below a name with a blank.  The command line
    is given two paths that are not there and removes nothing, so the
    extracted directories pile up in the temporary directory.  The
    cell fails: at the move, when the listing puts a directory first
    that has lost its matrix, or when the depth is finished and the
    temporary directory is not empty. *)
Definition spaced_unzip (a : string) : option (archive string) :=
  Some (mkArchive ("5f1c " +:+ a)
          {[ ["VERSION"] := File "QIIME 2";
             ["metadata.yaml"] := File "type: DistanceMatrix";
             ["data"] := Dir;
             ["data"; "distance-matrix.tsv"] := File ("distances " +:+ a) ]}).

Example blank_in_uuid :
  cell26 spaced_unzip reverse packed_fs = Raise (OSError "No such file or directory") ∧
  cell26 spaced_unzip id packed_fs = Raise (OSError "Directory not empty").
Proof.
  split.
  - vm_cast_no_check (@eq_refl (result (gmap path (node string)))
                        (Raise (OSError "No such file or directory"))).
  - vm_cast_no_check (@eq_refl (result (gmap path (node string)))
                        (Raise (OSError "Directory not empty"))).
Qed.

(** Without the extraction there is no entry to take. *)
Example nothing_extracted :
  cell26 (λ _ : string, None) id packed_fs = Raise IndexError.
Proof. vm_cast_no_check (@eq_refl (result (gmap path (node string))) (Raise IndexError)). Qed.

End Beta.

(* ===================================================================== *)
(** * More on the parser and the formatter (cell 20) *)
(* ===================================================================== *)

(** What [picrust_parser] and the formatters do at the edges: which
    arguments make them raise, what they read and what they leave. *)

Module PicrustEdges.

Import Json Picrust.

Section Parser.

Context {J : Type}.
Variable loads : string → result J.

(** The first element of [arg] is there and decodes to [v]. *)
Definition decodes (arg : list string) (v : J) : Prop :=
  ∃ s, head arg = Some s ∧ loads s = Ok v.

Lemma picrust_parser_loop_inv (args : list (list string)) (acc r : list J) :
  picrust_parser_loop loads args acc = Ok r →
  ∃ vs, r = acc ++ vs ∧ Forall2 decodes args vs.
Proof.
  revert acc. induction args as [|arg args IH]; intros acc H; simpl in H.
  - injection H as <-. exists []. by rewrite app_nil_r.
  - apply bind_ok in H as (s & Hs & H). apply bind_ok in H as (v & Hv & H).
    destruct (IH _ H) as (vs & -> & Hvs). exists (v :: vs).
    rewrite <- app_assoc. split; [done|]. constructor; [|done].
    exists s. split; [|done]. unfold first in Hs. by destruct (head arg) as [s'|]; simplify_eq/=.
Qed.

Lemma picrust_parser_loop_app (l1 l2 : list (list string)) (acc : list J) :
  picrust_parser_loop loads (l1 ++ l2) acc
  = picrust_parser_loop loads l1 acc ≫= picrust_parser_loop loads l2.
Proof.
  revert acc. induction l1 as [|arg l1 IH]; intros acc; simpl; [done|].
  destruct (first arg) as [s|e]; simpl; [|done].
  destruct (loads s) as [v|e]; simpl; [apply IH | done].
Qed.

(** X1.  When [picrust_parser] returns, it returns [None] only if it
    was called without an argument; otherwise it returns a list with
    one value for each argument, the decoded first element of that
    argument: no argument is skipped. *)
Theorem picrust_parser_returned (args : list (list string)) (r : option (list J)) :
  picrust_parser loads args = Ok r →
  (args = [] ∧ r = None) ∨
  (args ≠ [] ∧ ∃ vs, r = Some vs ∧ length vs = length args ∧
                     Forall2 decodes args vs).
Proof.
  unfold picrust_parser. intros H. apply bind_ok in H as (new_value & Hl & H).
  apply picrust_parser_loop_inv in Hl as (vs & -> & Hvs). simpl in H.
  destruct Hvs as [|arg v args vs Hv Hvs]; injection H as <-; [by left|].
  right. split; [done|]. exists (v :: vs). split; [done|].
  split; [|by constructor]. simpl. f_equal. symmetry. by eapply Forall2_length.
Qed.

(** X2.  The first argument that is empty or does not decode decides
    how [picrust_parser] fails: after arguments that decode, an empty
    argument raises [IndexError], and an argument whose first element
    the decoder rejects raises the error of the decoder. *)
Theorem picrust_parser_first_failure (pre post : list (list string))
  (arg : list string) (vs : list J) :
  Forall2 decodes pre vs →
  (arg = [] → picrust_parser loads (pre ++ arg :: post) = Raise IndexError) ∧
  (∀ s rest e, arg = s :: rest → loads s = Raise e →
               picrust_parser loads (pre ++ arg :: post) = Raise e).
Proof.
  intros Hpre. unfold picrust_parser.
  rewrite picrust_parser_loop_app, (picrust_parser_loop_decodes loads pre vs [] Hpre).
  cbn [mbind result_bind]. split.
  - by intros ->.
  - intros s rest e -> He. simpl. rewrite He. done.
Qed.

(** X3.  [picrust_parser] reads the first element of each argument and
    nothing else: cutting every argument down to its first element
    changes neither the result nor the error. *)
Theorem picrust_parser_reads_first_only (args : list (list string)) :
  picrust_parser loads (take 1 <$> args) = picrust_parser loads args.
Proof.
  unfold picrust_parser.
  assert (∀ acc, picrust_parser_loop loads (take 1 <$> args) acc
                 = picrust_parser_loop loads args acc) as ->; [|done].
  induction args as [|arg args IH]; intros acc; [done|].
  rewrite fmap_cons. simpl.
  assert (first (take 1 arg) = first arg) as -> by by destruct arg.
  destruct (first arg) as [s|e]; simpl; [|done].
  destruct (loads s) as [v|e]; simpl; [apply IH | done].
Qed.

End Parser.

Section Formatter.

Context {J C : Type}.
Variable dumps : J → string.

Lemma mapM_result_inv {A B} (f : A → result B) (l : list A) (k : list B) :
  mapM f l = Ok k → Forall2 (λ x y, f x = Ok y) l k.
Proof.
  revert k. induction l as [|x l IH]; intros k H.
  - injection H as <-. constructor.
  - rewrite mapM_result_cons in H.
    apply bind_ok in H as (y & Hy & H). apply bind_ok in H as (k' & Hk & H).
    injection H as <-. constructor; [done|]. by apply IH.
Qed.

(** X4.  When every entry of the metadata holds a value under the key
    [header], [list_of_list_of_str_formatter] returns the group, the
    header and the compression flag as they were given, and one entry
    for each entry of the metadata, in order: its only key is
    [header], bound to the one JSON text of the value, and the other
    keys of the metadata are left out. *)
Theorem list_of_list_of_str_formatter_passes (grp : group) (header : string)
  (md : list (gmap string J)) (compression : C) :
  (∀ m, m ∈ md → is_Some (m !! header)) →
  ∃ new_md,
    list_of_list_of_str_formatter dumps grp header md compression
    = Ok (grp, header, new_md, compression) ∧
    length new_md = length md ∧
    Forall2 (λ m n, ∃ v, m !! header = Some v ∧
                         n = ({[ header := [dumps v] ]} : gmap string (list string)) ∧
                         ∀ k, k ≠ header → n !! k = None)
            md new_md.
Proof.
  unfold list_of_list_of_str_formatter. intros Hall.
  induction md as [|m md IH].
  - exists []. split; [done|]. split; [done|constructor].
  - destruct IH as (new_md & Hrun & Hlen & Hnew); [intros m' Hm'; apply Hall; by right|].
    destruct (Hall m) as [v Hv]; [left|].
    apply bind_ok in Hrun as (k & Hk & [= <-]).
    exists ({[ header := [dumps v] ]} :: k).
    rewrite mapM_result_cons, Hv. cbn [or_raise mbind result_bind].
    rewrite Hk. split; [done|]. split; [cbn [length]; by rewrite Hlen|].
    constructor; [|done]. exists v. split; [done|]. split; [done|].
    intros k' Hk'. by apply lookup_singleton_ne.
Qed.

End Formatter.

(** X5.  When [picrust_formatter] returns, it has written the one
    dataset [metadata/<header>], with one row for each entry of the
    metadata and one column, whatever the lengths of the values; every
    other dataset of the group is as before. *)
Theorem picrust_formatter_one_column {C} (grp grp' : group) (header : string)
  (md : list (gmap string json)) (compression : C) :
  picrust_formatter dumps grp header md compression = Ok grp' →
  (∃ rows, grp' !! ("metadata/" +:+ header) = Some rows ∧
           length rows = length md ∧ Forall (λ row, length row = 1) rows) ∧
  (∀ k, k ≠ "metadata/" +:+ header → grp' !! k = grp !! k).
Proof.
  intros H.
  assert (Hvs : ∃ vs, Forall2 (λ m v, m !! header = Some v) md vs).
  { unfold picrust_formatter in H. apply bind_ok in H as ([[[g h] new_md] c] & Hl & _).
    unfold list_of_list_of_str_formatter in Hl.
    apply bind_ok in Hl as (k & Hk & _). apply mapM_result_inv in Hk.
    clear -Hk. induction Hk as [|m n md k Hm _ (vs & IH)]; [by exists []|].
    destruct (m !! header) as [v|] eqn:E; [|done].
    exists (v :: vs). by constructor. }
  destruct Hvs as (vs & Hvs).
  assert (md ≠ []) as Hne.
  { intros ->. apply Forall2_nil_inv_l in Hvs as ->.
    unfold picrust_formatter in H. simpl in H. discriminate. }
  rewrite (picrust_formatter_stores grp header md vs compression Hne Hvs) in H.
  injection H as <-. split.
  - exists ((λ v, [dumps v]) <$> vs). split; [apply lookup_insert_eq|].
    rewrite length_fmap. split; [symmetry; by eapply Forall2_length|].
    apply Forall_fmap, Forall_true. done.
  - intros k Hk. by apply lookup_insert_ne.
Qed.

(** X6.  The stored text tells the values apart: two values with the
    same JSON text are equal, so entries with different values get
    different rows. *)
Theorem dumps_tells_apart (v w : json) : dumps v = dumps w → v = w.
Proof.
  intros H. pose proof (loads_dumps v) as Hv. rewrite H, loads_dumps in Hv.
  by injection Hv.
Qed.

Lemma picrust_parser_returned_witness :
  ([["[]"; "padding"]] = [] ∧ Some [JList []] = None) ∨
  ([["[]"; "padding"]] ≠ [] ∧
   ∃ vs, Some [JList []] = Some vs ∧ length vs = length [["[]"; "padding"]] ∧
         Forall2 (decodes loads) [["[]"; "padding"]] vs).
Proof.
  apply (picrust_parser_returned loads [["[]"; "padding"]] (Some [JList []])).
  vm_compute. reflexivity.
Defined.

Lemma picrust_parser_first_failure_witness :
  picrust_parser loads ([["[]"]] ++ [] :: [["[]"]]) = Raise IndexError.
Proof.
  apply (proj1 (picrust_parser_first_failure loads [["[]"]] [["[]"]] [] [JList []]
                  ltac:(repeat constructor; exists "[]"; split; [done|vm_compute; reflexivity]))).
  reflexivity.
Defined.

Lemma list_of_list_of_str_formatter_passes_witness :
  ∃ new_md,
    list_of_list_of_str_formatter dumps (∅ : group) "KEGG_Pathways"
      [ {[ "KEGG_Pathways" := JList [JList [JStr "Metabolism"; JStr "Energy"]] ]};
        {[ "KEGG_Pathways" := JList []; "taxonomy" := JStr "k__Bacteria" ]} ] tt
    = Ok (∅, "KEGG_Pathways", new_md, tt) ∧
    length new_md
    = length [ ({[ "KEGG_Pathways" := JList [JList [JStr "Metabolism"; JStr "Energy"]] ]}
                : gmap string json);
               {[ "KEGG_Pathways" := JList []; "taxonomy" := JStr "k__Bacteria" ]} ] ∧
    Forall2 (λ m n, ∃ v, m !! "KEGG_Pathways" = Some v ∧
                         n = ({[ "KEGG_Pathways" := [dumps v] ]}
                              : gmap string (list string)) ∧
                         ∀ k, k ≠ "KEGG_Pathways" → n !! k = None)
            [ ({[ "KEGG_Pathways" := JList [JList [JStr "Metabolism"; JStr "Energy"]] ]}
               : gmap string json);
              {[ "KEGG_Pathways" := JList []; "taxonomy" := JStr "k__Bacteria" ]} ]
            new_md.
Proof.
  apply (list_of_list_of_str_formatter_passes dumps ∅ "KEGG_Pathways"
           [ {[ "KEGG_Pathways" := JList [JList [JStr "Metabolism"; JStr "Energy"]] ]};
             {[ "KEGG_Pathways" := JList []; "taxonomy" := JStr "k__Bacteria" ]} ] tt).
  intros m Hm.
  repeat (apply elem_of_cons in Hm as [->|Hm]); [..|by apply elem_of_nil in Hm];
    by eexists.
Defined.

Lemma picrust_formatter_one_column_witness :
  (∃ rows, (<["metadata/KEGG_Pathways" := [[dumps (JList [JStr "a"; JStr "b"])]]]> ∅ : group)
           !! ("metadata/" +:+ "KEGG_Pathways") = Some rows ∧
           length rows = length [ ({[ "KEGG_Pathways" := JList [JStr "a"; JStr "b"] ]} : gmap string json) ] ∧
           Forall (λ row, length row = 1) rows) ∧
  (∀ k, k ≠ "metadata/" +:+ "KEGG_Pathways" →
        (<["metadata/KEGG_Pathways" := [[dumps (JList [JStr "a"; JStr "b"])]]]> ∅ : group) !! k
        = (∅ : group) !! k).
Proof.
  apply (picrust_formatter_one_column ∅ _ "KEGG_Pathways"
           [ {[ "KEGG_Pathways" := JList [JStr "a"; JStr "b"] ]} ] tt).
  reflexivity.
Defined.

Lemma dumps_tells_apart_witness : JList [JStr "a"] = JList [JStr "a"].
Proof. apply dumps_tells_apart. reflexivity. Defined.

End PicrustEdges.

(* ===================================================================== *)
(** * The directories of the package (cell 6) *)
(* ===================================================================== *)

(** Cell 6 makes the directory of each depth on the file system of the
    relocation, with [os.path.exists] and [os.makedirs] as there. *)

Module Folders.

Import Beta.

(** ['./03.packaged/%s' % depth] *)
Definition dir_path (depth : string) : path := ["03.packaged"; depth].

Section Cell.

Context {C : Type}.

Abbreviation fsys := (gmap path (node C)).

(** The body of the loop, and cell 6. *)
Definition cell6_body (depth : string) (fs : fsys) : result fsys :=
  if negb (exists_ fs (dir_path depth)) then makedirs (dir_path depth) fs
  else Ok fs.

Definition cell6 (fs : fsys) : result fsys :=
  for_each cell6_body Alpha.depths fs.

(** ** Facts *)

Lemma mkdir_ok (p : path) (fs fs' : fsys) :
  mkdir p fs = Ok fs' → p ≠ [] ∧ fs !! p = None ∧ fs' = <[p := Dir]> fs.
Proof.
  unfold mkdir, stat. destruct (decide (p = [])) as [->|Hp]; [done|].
  destruct (fs !! p) as [n|]; [done|].
  destruct (decide (removelast p = [])); simpl.
  - by intros [= <-].
  - destruct (fs !! removelast p) as [[|c]|]; try done. by intros [= <-].
Qed.

(** [os.makedirs] adds directories and changes nothing that is there. *)
Lemma makedirs_up_grows (rev_name : list string) (fs fs' : fsys) :
  makedirs_up rev_name fs = Ok fs' →
  fs ⊆ fs' ∧ fs' !! reverse rev_name = Some Dir ∧
  ∀ p, fs' !! p ≠ fs !! p →
       p ≠ [] ∧ fs' !! p = Some Dir ∧ p `prefix_of` reverse rev_name.
Proof.
  revert fs fs'. induction rev_name as [|x rev_head IH]; intros fs fs' H.
  - by apply mkdir_ok in H as [? _].
  - cbn [makedirs_up] in H. apply bind_ok in H as (fs1 & H1 & H).
    apply mkdir_ok in H as (Hnil & Hnone & ->).
    assert (fs ⊆ fs1 ∧ ∀ p, fs1 !! p ≠ fs !! p →
                             p ≠ [] ∧ fs1 !! p = Some Dir ∧
                             p `prefix_of` reverse rev_head)
      as [Hsub Hnew].
    { destruct (exists_ fs (reverse rev_head)).
      - injection H1 as <-. split; [done|]. by intros p [].
      - apply IH in H1 as (? & _ & ?). done. }
    split; [|split].
    + etrans; [exact Hsub|]. by apply insert_subseteq.
    + apply lookup_insert_eq.
    + intros p Hp. destruct (decide (p = reverse (x :: rev_head))) as [->|Hne].
      * by rewrite lookup_insert_eq.
      * rewrite lookup_insert_ne in Hp |- * by done.
        destruct (Hnew p Hp) as (? & Hd & Hpre). split; [done|]. split; [done|].
        rewrite reverse_cons. by apply prefix_app_r.
Qed.

Lemma cell6_body_grows (d : string) (fs fs' : fsys) :
  cell6_body d fs = Ok fs' →
  fs ⊆ fs' ∧ is_Some (fs' !! dir_path d) ∧
  ∀ p, fs' !! p ≠ fs !! p →
       p ≠ [] ∧ fs !! p = None ∧ fs' !! p = Some Dir ∧ p `prefix_of` dir_path d.
Proof.
  unfold cell6_body. destruct (exists_ fs (dir_path d)) eqn:E; cbn [negb].
  - intros [= <-]. split; [done|]. split; [|by intros p []].
    unfold exists_ in E. apply bool_decide_eq_true in E.
    by rewrite stat_lookup in E.
  - intros (Hsub & Hd & Hnew)%makedirs_up_grows.
    rewrite reverse_involutive in Hd, Hnew.
    split; [done|]. split; [by eexists|]. intros p Hp.
    destruct (Hnew p Hp) as (? & Hdir & Hpre). split; [done|]. split; [|done].
    destruct (fs !! p) as [n|] eqn:Hn; [|done].
    rewrite (lookup_weaken _ _ _ _ Hn Hsub) in Hp. done.
Qed.

Lemma cell6_loop_grows (ds : list string) (fs fs' : fsys) :
  for_each cell6_body ds fs = Ok fs' →
  fs ⊆ fs' ∧ (∀ d, d ∈ ds → is_Some (fs' !! dir_path d)) ∧
  ∀ p, fs' !! p ≠ fs !! p →
       p ≠ [] ∧ fs !! p = None ∧ fs' !! p = Some Dir ∧
       ∃ d, d ∈ ds ∧ p `prefix_of` dir_path d.
Proof.
  revert fs. induction ds as [|d0 ds IH]; intros fs H; simpl in H.
  - injection H as <-. split; [done|]. split; [by intros d ?%elem_of_nil|].
    by intros p [].
  - apply bind_ok in H as (fs1 & H1 & H).
    apply cell6_body_grows in H1 as (Hsub1 & Hd0 & Hnew1).
    apply IH in H as (Hsub & Hds & Hnew).
    split; [by etrans|]. split.
    + intros d [->|Hd]%elem_of_cons; [|by apply Hds].
      destruct Hd0 as [n Hn]. exists n. by apply (lookup_weaken fs1).
    + intros p Hp.
      assert (fs !! p = None) as Hnone.
      { destruct (fs !! p) as [n|] eqn:Hn; [|done].
        rewrite (lookup_weaken fs fs' p n) in Hp; [done..|by etrans]. }
      destruct (fs1 !! p) as [n|] eqn:Hn.
      * destruct (Hnew1 p) as (? & _ & Hdir & Hpre); [congruence|].
        split; [done|]. split; [done|]. split; [by apply (lookup_weaken fs1)|].
        exists d0. split; [left|done].
      * destruct (Hnew p) as (? & _ & ? & d & ? & ?); [congruence|].
        split; [done|]. split; [done|]. split; [done|].
        exists d. split; [by right|done].
Qed.

Lemma cell6_body_makes (d : string) (fs : fsys) :
  absent_or_dir fs ["03.packaged"] = true →
  ∃ fs', cell6_body d fs = Ok fs'.
Proof.
  unfold absent_or_dir, cell6_body. intros Htop.
  destruct (exists_ fs (dir_path d)) eqn:E; cbn [negb]; [by eexists|].
  assert (fs !! dir_path d = None) as Hd.
  { unfold exists_ in E. apply bool_decide_eq_false in E.
    rewrite stat_lookup in E by done. by apply eq_None_not_Some. }
  unfold dir_path in *. unfold makedirs.
  change (reverse ["03.packaged"; d]) with [d; "03.packaged"].
  cbn [makedirs_up].
  change (reverse ["03.packaged"]) with ["03.packaged"].
  change (reverse [d; "03.packaged"]) with ["03.packaged"; d].
  change (reverse []) with (@nil string).
  unfold exists_ at 1. rewrite stat_lookup by done.
  destruct (fs !! ["03.packaged"]) as [[|c]|] eqn:Et; [|done|].
  - rewrite bool_decide_eq_true_2 by by eexists. cbn [mbind result_bind].
    unfold mkdir. rewrite !stat_lookup, Hd by done.
    change (removelast ["03.packaged"; d]) with ["03.packaged"].
    rewrite Et. by eexists.
  - rewrite bool_decide_eq_false_2 by by intros [? [=]].
    assert (exists_ fs [] = true) as -> by done.
    cbn [mbind result_bind].
    unfold mkdir at 2. rewrite stat_lookup, Et by done.
    change (removelast ["03.packaged"]) with (@nil string).
    assert (stat fs [] = Some Dir) as -> by done.
    cbn [mbind result_bind].
    unfold mkdir. rewrite stat_lookup, lookup_insert_ne, Hd by done.
    change (removelast ["03.packaged"; d]) with ["03.packaged"].
    rewrite stat_lookup, lookup_insert_eq by done. by eexists.
Qed.

Lemma cell6_runs (fs : fsys) :
  absent_or_dir fs ["03.packaged"] = true → ∃ fs', cell6 fs = Ok fs'.
Proof.
  unfold cell6. generalize Alpha.depths. intros ds. revert fs.
  induction ds as [|d0 ds IH]; intros fs0 H0; cbn [for_each]; [by eexists|].
  destruct (cell6_body_makes d0 fs0 H0) as (fs1 & H1). rewrite H1.
  cbn [mbind result_bind]. apply IH.
  apply cell6_body_grows in H1 as (Hsub & _ & Hnew).
  unfold absent_or_dir in *.
  destruct (fs1 !! ["03.packaged"]) as [[|c]|] eqn:E1; [done| |done].
  destruct (Hnew ["03.packaged"]) as (_ & _ & ? & _); [|congruence].
  rewrite E1. by destruct (fs0 !! ["03.packaged"]) as [[|c']|].
Qed.

(** What cell 6 changes is [03.packaged] or the directory of a depth. *)
Lemma cell6_frame (fs fs' : fsys) (p : path) :
  cell6 fs = Ok fs' →
  p ≠ ["03.packaged"] → (∀ d, d ∈ Alpha.depths → p ≠ dir_path d) →
  fs' !! p = fs !! p.
Proof.
  intros (Hsub & _ & Hnew)%cell6_loop_grows Htop Hdirs.
  destruct (fs !! p) as [n|] eqn:Hn; [by apply (lookup_weaken fs)|].
  destruct (fs' !! p) as [n|] eqn:Hn'; [|done].
  destruct (Hnew p) as (Hne & _ & _ & d & Hd & [k Hk]); [congruence|].
  unfold dir_path in Hk.
  destruct p as [|a [|b [|c p]]]; simplify_eq/=.
  by destruct (Hdirs _ Hd).
Qed.

Lemma cell6_made (fs fs' : fsys) (d : string) :
  cell6 fs = Ok fs' → d ∈ Alpha.depths →
  absent_or_dir fs (dir_path d) = true → fs' !! dir_path d = Some Dir.
Proof.
  intros (Hsub & Hds & Hnew)%cell6_loop_grows Hd Habs.
  unfold absent_or_dir in Habs.
  destruct (fs !! dir_path d) as [[|c]|] eqn:E; [|done|].
  - by apply (lookup_weaken fs).
  - destruct (Hds d Hd) as [n Hn].
    destruct (Hnew (dir_path d)) as (_ & _ & ? & _); [congruence|done].
Qed.

(** X7.  Unless a file named [03.packaged] is in the way, cell 6 runs
    to its end.  Afterwards the directory of every depth exists; a
    path that was there is there as it was, a path that was missing
    before is a directory, and it is [03.packaged] or the directory of
    a depth: nothing else is made, nothing is removed. *)
Theorem packaged_directories_made (fs : fsys) :
  absent_or_dir fs ["03.packaged"] = true →
  ∃ fs', cell6 fs = Ok fs' ∧
    fs ⊆ fs' ∧
    (∀ d, d ∈ Alpha.depths → is_Some (fs' !! dir_path d)) ∧
    (∀ d, d ∈ Alpha.depths → fs !! dir_path d = None →
          fs' !! dir_path d = Some Dir) ∧
    (∀ p, fs' !! p ≠ fs !! p →
          fs !! p = None ∧ fs' !! p = Some Dir ∧
          (p = ["03.packaged"] ∨ ∃ d, d ∈ Alpha.depths ∧ p = dir_path d)).
Proof.
  intros Htop. destruct (cell6_runs fs Htop) as (fs' & H). exists fs'.
  split; [done|]. pose proof H as (Hsub & Hds & Hnew)%cell6_loop_grows.
  split; [done|]. split; [done|]. split.
  - intros d Hd Hnone. apply (cell6_made fs); [done..|].
    unfold absent_or_dir. by rewrite Hnone.
  - intros p Hp. destruct (Hnew p Hp) as (Hne & Hnone & Hdir & d & Hd & Hpre).
    split; [done|]. split; [done|].
    destruct Hpre as [k Hk]. unfold dir_path in Hk.
    destruct p as [|a [|b [|c p]]]; simplify_eq/=.
    + by left.
    + right. eexists. split; [eassumption|done].
Qed.

(** X8.  Cell 6 can be run again: once it has run to its end, another
    run changes nothing and raises nothing, whatever the file system
    was to start with. *)
Theorem packaged_directories_again (fs fs' : fsys) :
  cell6 fs = Ok fs' → cell6 fs' = Ok fs'.
Proof.
  intros (_ & Hds & _)%cell6_loop_grows. unfold cell6.
  revert Hds. generalize Alpha.depths. intros ds.
  induction ds as [|d0 ds IH]; intros H; cbn [for_each]; [done|].
  assert (cell6_body d0 fs' = Ok fs') as ->.
  { unfold cell6_body.
    assert (exists_ fs' (dir_path d0) = true) as ->; [|done].
    unfold exists_. apply bool_decide_eq_true. rewrite stat_lookup by done.
    apply H. left. }
  cbn [mbind result_bind]. apply IH. intros d Hd. apply H. by right.
Qed.

(** X9.  With a file named [03.packaged] in the way, cell 6 raises
    the [OSError] of [os.makedirs] at the first depth whose directory
    is missing: [os.path.exists] does not tell a file from a
    directory, and the cell does not look at [03.packaged] itself. *)
Theorem packaged_file_in_the_way (fs : fsys) (c : C) :
  fs !! ["03.packaged"] = Some (File c) →
  (∃ d, d ∈ Alpha.depths ∧ fs !! dir_path d = None) →
  cell6 fs = Raise (OSError "Not a directory").
Proof.
  intros Htop. unfold cell6. generalize Alpha.depths. intros ds.
  induction ds as [|d0 ds IH]; intros (d & Hd & Hnone);
    [by apply elem_of_nil in Hd|].
  cbn [for_each].
  destruct (fs !! dir_path d0) as [n|] eqn:E.
  - assert (cell6_body d0 fs = Ok fs) as ->.
    { unfold cell6_body.
      assert (exists_ fs (dir_path d0) = true) as ->; [|done].
      unfold exists_. apply bool_decide_eq_true. by rewrite stat_lookup, E. }
    cbn [mbind result_bind]. apply IH. exists d. split; [|done].
    apply elem_of_cons in Hd as [->|Hd]; [congruence|done].
  - assert (cell6_body d0 fs = Raise (OSError "Not a directory")) as ->; [|done].
    unfold cell6_body.
    assert (exists_ fs (dir_path d0) = false) as ->.
    { unfold exists_. apply bool_decide_eq_false. rewrite stat_lookup, E by done.
      by intros [? [=]]. }
    cbn [negb]. unfold dir_path in *. unfold makedirs.
    change (reverse ["03.packaged"; d0]) with [d0; "03.packaged"].
    cbn [makedirs_up].
    change (reverse ["03.packaged"]) with ["03.packaged"].
    change (reverse [d0; "03.packaged"]) with ["03.packaged"; d0].
    unfold exists_ at 1. rewrite stat_lookup, Htop by done.
    rewrite bool_decide_eq_true_2 by by eexists. cbn [mbind result_bind].
    unfold mkdir. rewrite !stat_lookup, E by done.
    change (removelast ["03.packaged"; d0]) with ["03.packaged"].
    by rewrite Htop.
Qed.

End Cell.

(** ** A run *)

Definition bare : gmap path (node string) :=
  {[ ["03.packaged"; "1250"] := Dir; ["notes.txt"] := File "American Gut" ]}.

Definition blocked : gmap path (node string) :=
  {[ ["03.packaged"] := File "not a directory" ]}.

Lemma packaged_directories_made_witness :
  ∃ fs', cell6 bare = Ok fs' ∧
    bare ⊆ fs' ∧
    (∀ d, d ∈ Alpha.depths → is_Some (fs' !! dir_path d)) ∧
    (∀ d, d ∈ Alpha.depths → bare !! dir_path d = None →
          fs' !! dir_path d = Some Dir) ∧
    (∀ p, fs' !! p ≠ bare !! p →
          bare !! p = None ∧ fs' !! p = Some Dir ∧
          (p = ["03.packaged"] ∨ ∃ d, d ∈ Alpha.depths ∧ p = dir_path d)).
Proof. apply (packaged_directories_made bare). reflexivity. Defined.

Definition bare_made :=
  match cell6 bare return gmap path (node string) with
  | Ok fs => fs
  | Raise _ => bare
  end.

Lemma bare_runs : cell6 bare = Ok bare_made.
Proof. apply ok_get. vm_cast_no_check (@eq_refl bool true). Qed.

Lemma packaged_directories_again_witness : cell6 bare_made = Ok bare_made.
Proof. apply (packaged_directories_again bare bare_made). exact bare_runs. Defined.

Lemma packaged_file_in_the_way_witness :
  cell6 blocked = Raise (OSError "Not a directory").
Proof.
  apply (packaged_file_in_the_way blocked "not a directory").
  - reflexivity.
  - exists "1250". split; [left | reflexivity].
Defined.

End Folders.

(* ===================================================================== *)
(** * More on the relocation (cells 6 and 26) *)
(* ===================================================================== *)

(** What cell 26 leaves alone, what a second run does, how it fails
    when an artifact does not unpack, and how it follows cell 6. *)

Module BetaEdges.

Import Beta Folders.

Section Edges.

Context {C : Type}.
Variable unzip : C → option (archive C).
Variable arrange : list string → list string.
Hypothesis arrange_perm : ∀ l, arrange l ≡ₚ l.

Abbreviation fsys := (gmap path (node C)).

(** The state cell 6 is run from for cell 26 to follow: as [ready],
    with the artifacts in place and unpacking below plain names, but
    the directory of the depth may still be missing. *)
Definition arranged (fs : fsys) (depth : string) : bool :=
  isdir fs (beta_dir depth)
  && absent_or_dir fs (temp_dir depth)
  && is_empty fs (temp_dir depth)
  && absent_or_dir fs (dir_path depth)
  && absent_or_dir fs (distance_dir depth)
  && forallb (λ m, bool_decide (is_Some (distance_matrix unzip fs depth m))
                   && plain_uuid unzip fs depth m
                   && negb (isdir fs (new_path depth m))) metrics.

(** [p] is written by some depth. *)
Definition touched (p : path) : bool :=
  existsb (λ d, bool_decide (temp_dir d `prefix_of` p)
                || bool_decide (p = distance_dir d)
                || bool_decide (p ∈ new_path d <$> metrics)) Alpha.depths.

(** ** Facts *)

Ltac paths :=
  unfold untouched, inside, new_path, old_filepath, temp_dir, distance_dir,
    beta_dir, distance_matrix_tsv, dir_path in *; simpl in *;
  repeat match goal with
         | H : _ `prefix_of` _ |- _ => destruct H as [? H]; simpl in H
         | |- ¬ _ => intros ?
         | |- _ ≠ _ => intros ?
         end;
  simplify_eq/=; try done;
  try match goal with
      | H : _ +:+ ".qza" = "temp_dir" |- _ => by destruct (qza_not_temp_dir _ H)
      end.

Lemma touched_false (p : path) :
  touched p = false ↔ ∀ d, d ∈ Alpha.depths → untouched d p.
Proof.
  unfold touched. rewrite <- not_true_iff_false, existsb_exists. split.
  - intros H d Hd. unfold untouched.
    destruct (decide (temp_dir d `prefix_of` p)) as [Hp|Hp].
    { destruct H. exists d. split; [by apply list_elem_of_In|].
      by rewrite (bool_decide_eq_true_2 _ Hp). }
    destruct (decide (p = distance_dir d)) as [Hq|Hq].
    { destruct H. exists d. split; [by apply list_elem_of_In|].
      rewrite (bool_decide_eq_true_2 _ Hq). by rewrite orb_true_r. }
    split; [done|]. split; [done|]. intros m Hm ->.
    destruct H. exists d. split; [by apply list_elem_of_In|].
    rewrite (bool_decide_eq_true_2 (new_path d m ∈ new_path d <$> metrics)).
    + by rewrite orb_true_r.
    + by apply list_elem_of_fmap_2.
  - intros H (d & Hd%list_elem_of_In & Ht).
    destruct (H d Hd) as (H1 & H2 & H3).
    rewrite !orb_true_iff, !bool_decide_eq_true in Ht.
    destruct Ht as [[Ht|Ht]|Ht]; [done..|].
    apply list_elem_of_fmap in Ht as (m & -> & Hm). by apply (H3 m).
Qed.

Lemma touched_true (p : path) :
  touched p = true →
  ∃ d, d ∈ Alpha.depths ∧
       (temp_dir d `prefix_of` p ∨ p = distance_dir d ∨
        ∃ m, m ∈ metrics ∧ p = new_path d m).
Proof.
  unfold touched. rewrite existsb_exists.
  intros (d & Hd%list_elem_of_In & Ht). exists d. split; [done|].
  rewrite !orb_true_iff, !bool_decide_eq_true in Ht.
  destruct Ht as [[Ht|Ht]|Ht]; [by left|by right; left|].
  apply list_elem_of_fmap in Ht as (m & -> & Hm). right. right. by exists m.
Qed.

(** The artifacts and the directories they are in are written by no
    depth. *)
Lemma artifact_untouched (d d' m : string) : untouched d' (old_filepath d m).
Proof. repeat split; try (intros m' _); by paths. Qed.

Lemma beta_dir_untouched (d d' : string) : untouched d' (beta_dir d).
Proof. repeat split; try (intros m' _); by paths. Qed.

Lemma dir_path_untouched (d d' : string) : untouched d' (dir_path d).
Proof. repeat split; try (intros m' _); by paths. Qed.

Lemma ready_intro (fs : fsys) (d : string) :
  fs !! beta_dir d = Some Dir →
  absent_or_dir fs (temp_dir d) = true →
  (∀ p, inside (temp_dir d) p → fs !! p = None) →
  fs !! dir_path d = Some Dir →
  absent_or_dir fs (distance_dir d) = true →
  (∀ m, m ∈ metrics →
        is_Some (distance_matrix unzip fs d m) ∧ plain_uuid unzip fs d m = true ∧
        isdir fs (new_path d m) = false) →
  ready unzip fs d = true.
Proof.
  intros H1 H2 H3 H4 H5 H6. unfold ready.
  rewrite !andb_true_iff, forallb_forall. repeat split; try done.
  - by apply isdir_lookup.
  - by apply is_empty_true.
  - by apply isdir_lookup.
  - intros m Hm%list_elem_of_In. destruct (H6 m Hm) as (Ha & Hp & Hb).
    rewrite Hb, Hp. by rewrite bool_decide_eq_true_2.
Qed.

Lemma arranged_spec (fs : fsys) (d : string) :
  arranged fs d = true →
  fs !! beta_dir d = Some Dir ∧
  absent_or_dir fs (temp_dir d) = true ∧
  (∀ p, inside (temp_dir d) p → fs !! p = None) ∧
  absent_or_dir fs (dir_path d) = true ∧
  absent_or_dir fs (distance_dir d) = true ∧
  (∀ m, m ∈ metrics →
     is_Some (distance_matrix unzip fs d m) ∧ plain_uuid unzip fs d m = true ∧
     isdir fs (new_path d m) = false).
Proof.
  unfold arranged. rewrite !andb_true_iff, forallb_forall.
  intros (((((H1 & H2) & H3) & H4) & H5) & H6).
  apply isdir_true in H1; [|done]. rewrite is_empty_true in H3.
  repeat split; try done.
  - apply list_elem_of_In, H6 in H. rewrite !andb_true_iff in H.
    destruct H as [[H _] _]. by apply bool_decide_eq_true in H.
  - apply list_elem_of_In, H6 in H. rewrite !andb_true_iff in H.
    by destruct H as [[_ H] _].
  - apply list_elem_of_In, H6 in H. rewrite !andb_true_iff in H.
    destruct H as [_ H]. by apply negb_true_iff in H.
Qed.

(** [os.removedirs(name)] changes no path that is not [name] or above
    it. *)
Lemma rmdir_ok (p : path) (fs fs' : fsys) :
  rmdir p fs = Ok fs' → fs' = delete p fs.
Proof.
  unfold rmdir. destruct (fs !! p) as [[|c]|]; try done.
  destruct (is_empty fs p); [|done]. by intros [= <-].
Qed.

Lemma prune_frame (rev_head : list string) (fs : fsys) (p : path) :
  (∀ k, k `suffix_of` rev_head → p ≠ reverse k) →
  prune rev_head fs !! p = fs !! p.
Proof.
  revert fs. induction rev_head as [|x rest IH]; intros fs Hp; [done|].
  cbn [prune]. destruct (rmdir (reverse (x :: rest)) fs) as [fs1|e] eqn:E; [|done].
  apply rmdir_ok in E as ->. rewrite IH.
  - apply lookup_delete_ne. apply not_eq_sym, Hp. done.
  - intros k Hk. apply Hp. by apply suffix_cons_r.
Qed.

Lemma removedirs_frame (name : path) (fs fs' : fsys) (p : path) :
  removedirs name fs = Ok fs' → ¬ p `prefix_of` name → fs' !! p = fs !! p.
Proof.
  unfold removedirs. intros H Hp. apply bind_ok in H as (fs1 & H1 & [= <-]).
  apply rmdir_ok in H1 as ->. rewrite prune_frame.
  - apply lookup_delete_ne. intros <-. by apply Hp.
  - intros k Hk ->. apply Hp.
    assert (k `suffix_of` reverse name) as [l Hl].
    { etrans; [exact Hk|]. destruct (reverse name); [done|]. by apply suffix_cons_r. }
    exists (reverse l). by rewrite <- reverse_app, <- Hl, reverse_involutive.
Qed.

(** A depth leaves its directory of distance matrices in place. *)
Lemma cell26_depth_distance (d : string) (fs fs' : fsys) :
  ready unzip fs d = true →
  cell26_depth unzip arrange d fs = Ok fs' →
  fs' !! distance_dir d = Some Dir.
Proof.
  intros (Hbeta & Htemp & Hclear & Hpack & Hdist & Hms)%ready_spec.
  unfold cell26_depth.
  rewrite (guarded_makedirs (beta_dir d) "temp_dir");
    [|by apply isdir_lookup|done|].
  2:{ change (beta_dir d ++ ["temp_dir"]) with (temp_dir d).
      unfold isdir. rewrite stat_lookup by done. unfold absent_or_dir in Htemp.
      destruct (fs !! temp_dir d) as [[|c]|];
        first [ done
              | symmetry; apply bool_decide_eq_true_2; by eexists
              | symmetry; apply bool_decide_eq_false_2; by intros [? [=]] ]. }
  change (beta_dir d ++ ["temp_dir"]) with (temp_dir d).
  cbn [mbind result_bind].
  set (fs1 := <[temp_dir d := Dir]> fs).
  assert (F1 : ∀ p, p ≠ temp_dir d → fs1 !! p = fs !! p).
  { intros p Hp. by apply lookup_insert_ne. }
  rewrite (guarded_makedirs ["03.packaged"; d] "distance").
  2:{ apply isdir_lookup. by rewrite F1. }
  2:{ unfold absent_or_dir. by rewrite F1. }
  2:{ unfold exists_. by rewrite stat_lookup. }
  change (["03.packaged"; d] ++ ["distance"]) with (distance_dir d).
  cbn [mbind result_bind].
  set (fs2 := <[distance_dir d := Dir]> fs1).
  assert (F2 : ∀ p, p ≠ temp_dir d → p ≠ distance_dir d → fs2 !! p = fs !! p).
  { intros p Hp Hp'. unfold fs2. rewrite lookup_insert_ne by done. by apply F1. }
  destruct (cell26_metrics_move unzip arrange arrange_perm d metrics fs2)
    as (fs3 & -> & _ & Hrest).
  { done. }
  { unfold fs2. rewrite lookup_insert_ne by by paths.
    unfold fs1. by rewrite lookup_insert_eq. }
  { intros p Hp. rewrite F2; [by apply Hclear|by destruct Hp|].
    intros ->. destruct Hp as [Hp _]. by paths. }
  { unfold fs2. by rewrite lookup_insert_eq. }
  { intros m Hm.
    rewrite (distance_matrix_congr unzip fs fs2), (plain_uuid_congr unzip fs fs2),
      (isdir_congr fs fs2); [by apply Hms|apply F2; by paths..]. }
  cbn [mbind result_bind]. intros H.
  rewrite (removedirs_frame _ _ _ _ H) by by paths.
  rewrite Hrest by (intros; by paths).
  unfold fs2. by rewrite lookup_insert_eq.
Qed.

Lemma cell26_depths_distance (ds : list string) (fs fs' : fsys) :
  NoDup ds → (∀ d, d ∈ ds → ready unzip fs d = true) →
  for_each (cell26_depth unzip arrange) ds fs = Ok fs' →
  ∀ d, d ∈ ds → fs' !! distance_dir d = Some Dir.
Proof.
  intros Hnd. revert fs. induction Hnd as [|d0 ds Hd0 Hnd IH]; intros fs Hready H.
  - by intros d ?%elem_of_nil.
  - cbn [for_each] in H. apply bind_ok in H as (fs1 & H1 & H).
    destruct (cell26_depth_relocates unzip arrange arrange_perm d0 fs)
      as (fs1' & Hrun & _ & Hframe); [apply Hready; left|].
    assert (fs1' = fs1) as -> by congruence.
    assert (Hready1 : ∀ d, d ∈ ds → ready unzip fs1 d = true).
    { intros d Hd. apply (ready_frame unzip d0 d fs); [by intros ->|done|].
      apply Hready. by right. }
    intros d [->|Hd]%elem_of_cons; [|by apply (IH fs1)].
    destruct (cell26_depths_relocate unzip arrange arrange_perm ds fs1 Hnd Hready1)
      as (fs'' & Hrun' & _ & Hframe').
    assert (fs'' = fs') as -> by congruence.
    rewrite Hframe'.
    + apply (cell26_depth_distance d0 fs); [apply Hready; left|done].
    + intros d' Hd'. apply (owned_untouched d' d0); [by intros ->|].
      do 3 right. by left.
Qed.

(** Once cell 26 has run, every depth is ready again. *)
Lemma cell26_ready_again (fs fs' : fsys) :
  (∀ d, d ∈ Alpha.depths → ready unzip fs d = true) →
  cell26 unzip arrange fs = Ok fs' →
  (∀ d, d ∈ Alpha.depths → ready unzip fs' d = true) ∧
  (∀ d m, distance_matrix unzip fs' d m = distance_matrix unzip fs d m) ∧
  (∀ d, d ∈ Alpha.depths → relocated unzip fs fs' d) ∧
  (∀ d, d ∈ Alpha.depths → fs' !! distance_dir d = Some Dir) ∧
  (∀ p, (∀ d, d ∈ Alpha.depths → untouched d p) → fs' !! p = fs !! p).
Proof.
  intros Hready H.
  assert (Hnd : NoDup Alpha.depths).
  { unfold Alpha.depths. repeat (apply NoDup_cons; split; [set_solver|]).
    apply NoDup_nil_2. }
  pose proof (cell26_depths_distance _ _ _ Hnd Hready H) as Hdist.
  destruct (cell26_depths_relocate unzip arrange arrange_perm _ fs Hnd Hready)
    as (fs'' & Hrun & Hrel & Hframe).
  assert (fs'' = fs') as -> by (unfold cell26 in H; congruence).
  assert (Hdm : ∀ d m, distance_matrix unzip fs' d m = distance_matrix unzip fs d m).
  { intros d m. apply distance_matrix_congr, Hframe. intros d' _.
    apply artifact_untouched. }
  assert (Hpl : ∀ d m, plain_uuid unzip fs' d m = plain_uuid unzip fs d m).
  { intros d m. apply plain_uuid_congr, Hframe. intros d' _.
    apply artifact_untouched. }
  split; [|done]. intros d Hd.
  destruct (ready_spec unzip fs d (Hready d Hd))
    as (Hbeta & Htemp & Hclear & Hpack & Hdd & Hms).
  destruct (Hrel d Hd) as [Hfiles Hgone].
  apply ready_intro.
  - rewrite Hframe; [done|]. intros d' _. apply beta_dir_untouched.
  - unfold absent_or_dir. by rewrite Hgone.
  - intros p [Hp _]. by apply Hgone.
  - rewrite Hframe; [done|]. intros d' _. apply dir_path_untouched.
  - unfold absent_or_dir. by rewrite (Hdist d Hd).
  - intros m Hm. rewrite Hdm, Hpl. split; [by apply Hms|].
    split; [by apply Hms|].
    destruct (Hfiles m Hm) as (dm & _ & Hl).
    unfold isdir. rewrite stat_lookup, Hl by done. done.
Qed.

(** X10.  From a ready state, in which the artifacts unpack below
    plain names, cell 26 writes below the temporary directories, the
    directories of the distance matrices and the destinations, and
    nowhere else: every other path is as before.  The artifacts it
    unpacks are among them: they are neither moved nor changed. *)
Theorem relocation_leaves_the_rest (fs fs' : fsys) :
  (∀ d, d ∈ Alpha.depths → ready unzip fs d = true) →
  cell26 unzip arrange fs = Ok fs' →
  (∀ p, touched p = false → fs' !! p = fs !! p) ∧
  (∀ d m, fs' !! old_filepath d m = fs !! old_filepath d m).
Proof.
  intros Hready H.
  destruct (cell26_ready_again fs fs' Hready H) as (_ & _ & _ & _ & Hframe).
  split.
  - intros p Hp. by apply Hframe, touched_false.
  - intros d m. apply Hframe. intros d' _. apply artifact_untouched.
Qed.

(** X11.  Cell 26 can be run again: after a run from a ready state,
    in which the artifacts unpack below plain names, every depth is
    ready again, and a second run ends with the same file system, the
    same matrices at the destinations and no temporary directory. *)
Theorem relocation_again (fs fs' : fsys) :
  (∀ d, d ∈ Alpha.depths → ready unzip fs d = true) →
  cell26 unzip arrange fs = Ok fs' →
  (∀ d, d ∈ Alpha.depths → ready unzip fs' d = true) ∧
  cell26 unzip arrange fs' = Ok fs'.
Proof.
  intros Hready H.
  destruct (cell26_ready_again fs fs' Hready H)
    as (Hready' & Hdm & Hrel & Hdist & Hframe).
  split; [done|].
  assert (Hnd : NoDup Alpha.depths).
  { unfold Alpha.depths. repeat (apply NoDup_cons; split; [set_solver|]).
    apply NoDup_nil_2. }
  destruct (cell26_depths_relocate unzip arrange arrange_perm _ fs' Hnd Hready')
    as (fs'' & Hrun & _).
  unfold cell26. rewrite Hrun. f_equal.
  destruct (cell26_ready_again fs' fs'' Hready' Hrun)
    as (_ & _ & Hrel' & Hdist' & Hframe').
  apply map_eq. intros p. destruct (touched p) eqn:Ht.
  - apply touched_true in Ht as (d & Hd & [Hp|[->|(m & Hm & ->)]]).
    + destruct (Hrel d Hd) as [_ Hg]. destruct (Hrel' d Hd) as [_ Hg'].
      by rewrite Hg, Hg'.
    + by rewrite Hdist, Hdist'.
    + destruct (Hrel d Hd) as [Hf _]. destruct (Hrel' d Hd) as [Hf' _].
      destruct (Hf m Hm) as (dm & Hd1 & ->).
      destruct (Hf' m Hm) as (dm' & Hd2 & ->).
      rewrite Hdm in Hd2. congruence.
  - apply Hframe'. by apply touched_false.
Qed.

(** X12.  An artifact that is missing or does not unpack is not
    reported as such: the extraction fails without an exception, the
    temporary directory stays empty, and the depth raises [IndexError]
    at [os.listdir(temp_dir)[0]]. *)
Theorem relocation_without_artifact (d : string) (fs : fsys) :
  fs !! beta_dir d = Some Dir →
  absent_or_dir fs (temp_dir d) = true →
  is_empty fs (temp_dir d) = true →
  fs !! dir_path d = Some Dir →
  absent_or_dir fs (distance_dir d) = true →
  (∀ a, fs !! old_filepath d "bray_curtis" = Some (File a) → unzip a = None) →
  cell26_depth unzip arrange d fs = Raise IndexError.
Proof.
  intros Hbeta Htemp Hclear Hpack Hdist Hart.
  rewrite is_empty_true in Hclear.
  unfold cell26_depth.
  rewrite (guarded_makedirs (beta_dir d) "temp_dir");
    [|by apply isdir_lookup|done|].
  2:{ change (beta_dir d ++ ["temp_dir"]) with (temp_dir d).
      unfold isdir. rewrite stat_lookup by done. unfold absent_or_dir in Htemp.
      destruct (fs !! temp_dir d) as [[|c]|];
        first [ done
              | symmetry; apply bool_decide_eq_true_2; by eexists
              | symmetry; apply bool_decide_eq_false_2; by intros [? [=]] ]. }
  change (beta_dir d ++ ["temp_dir"]) with (temp_dir d).
  cbn [mbind result_bind].
  set (fs1 := <[temp_dir d := Dir]> fs).
  assert (F1 : ∀ p, p ≠ temp_dir d → fs1 !! p = fs !! p).
  { intros p Hp. by apply lookup_insert_ne. }
  rewrite (guarded_makedirs ["03.packaged"; d] "distance").
  2:{ apply isdir_lookup. by rewrite F1. }
  2:{ unfold absent_or_dir. by rewrite F1. }
  2:{ unfold exists_. by rewrite stat_lookup. }
  change (["03.packaged"; d] ++ ["distance"]) with (distance_dir d).
  cbn [mbind result_bind].
  set (fs2 := <[distance_dir d := Dir]> fs1).
  assert (F2 : ∀ p, p ≠ temp_dir d → p ≠ distance_dir d → fs2 !! p = fs !! p).
  { intros p Hp Hp'. unfold fs2. rewrite lookup_insert_ne by done. by apply F1. }
  assert (cell26_metric unzip arrange d "bray_curtis" fs2 = Raise IndexError)
    as Hfirst.
  { unfold cell26_metric.
    assert (qiime_tools_extract unzip (old_filepath d "bray_curtis") (temp_dir d) fs2
            = fs2) as ->.
    { unfold qiime_tools_extract. rewrite F2 by by paths.
      destruct (fs !! old_filepath d "bray_curtis") as [[|a]|] eqn:E; try done.
      by rewrite (Hart a). }
    unfold listdir. rewrite stat_lookup by done.
    assert (fs2 !! temp_dir d = Some Dir) as ->.
    { unfold fs2. rewrite lookup_insert_ne by by paths.
      unfold fs1. by rewrite lookup_insert_eq. }
    assert (set_omap (D := gset string) (entry (temp_dir d)) (dom fs2) = ∅) as ->.
    { apply set_eq. intros n. rewrite elem_of_set_omap, elem_of_empty.
      split; [|done]. intros (p & Hp & ->%entry_Some).
      apply elem_of_dom in Hp. rewrite F2, Hclear in Hp.
      - by destruct Hp.
      - by apply inside_app.
      - intros H. apply (f_equal length) in H. rewrite length_app in H.
        simpl in H. lia.
      - by paths. }
    rewrite elements_empty.
    pose proof (arrange_perm []) as ->%Permutation_nil_r. done. }
  unfold metrics. cbn [for_each]. rewrite Hfirst. done.
Qed.

(** X13.  Cell 26 follows cell 6: from a state in which the artifacts
    are in place and unpack below plain names, and [03.packaged] is
    missing or a directory, cell 6 makes the directories of the depths,
    and cell 26 then runs to its end with every matrix at its
    destination. *)
Theorem directories_then_relocation (fs : fsys) :
  absent_or_dir fs ["03.packaged"] = true →
  (∀ d, d ∈ Alpha.depths → arranged fs d = true) →
  ∃ fs1 fs2,
    cell6 fs = Ok fs1 ∧ cell26 unzip arrange fs1 = Ok fs2 ∧
    ∀ d, d ∈ Alpha.depths → relocated unzip fs fs2 d.
Proof.
  intros Htop Harr. destruct (cell6_runs fs Htop) as (fs1 & H1).
  assert (F : ∀ p, p ≠ ["03.packaged"] →
                   (∀ d, d ∈ Alpha.depths → p ≠ dir_path d) →
                   fs1 !! p = fs !! p).
  { intros p ? ?. by apply cell6_frame. }
  assert (Hdm : ∀ d m, distance_matrix unzip fs1 d m = distance_matrix unzip fs d m).
  { intros d m. apply distance_matrix_congr, F; [|intros d' _]; by paths. }
  assert (Hpl : ∀ d m, plain_uuid unzip fs1 d m = plain_uuid unzip fs d m).
  { intros d m. apply plain_uuid_congr, F; [|intros d' _]; by paths. }
  assert (Hready : ∀ d, d ∈ Alpha.depths → ready unzip fs1 d = true).
  { intros d Hd.
    destruct (arranged_spec fs d (Harr d Hd))
      as (Hbeta & Htemp & Hclear & Hpack & Hdist & Hms).
    apply ready_intro.
    - rewrite F; [done| |intros d' _]; by paths.
    - unfold absent_or_dir in *. rewrite F; [done| |intros d' _]; by paths.
    - intros p Hp. rewrite F; [by apply Hclear| |intros d' _];
        destruct Hp as [Hp _]; by paths.
    - by apply (cell6_made fs).
    - unfold absent_or_dir in *. rewrite F; [done| |intros d' _]; by paths.
    - intros m Hm. rewrite Hdm, Hpl, (isdir_congr fs fs1); [by apply Hms|].
      apply F; [|intros d' _]; by paths. }
  assert (Hnd : NoDup Alpha.depths).
  { unfold Alpha.depths. repeat (apply NoDup_cons; split; [set_solver|]).
    apply NoDup_nil_2. }
  destruct (cell26_depths_relocate unzip arrange arrange_perm _ fs1 Hnd Hready)
    as (fs2 & Hrun & Hrel & _).
  exists fs1, fs2. split; [done|]. split; [done|].
  intros d Hd. destruct (Hrel d Hd) as [Hfiles Hgone]. split; [|done].
  intros m Hm. destruct (Hfiles m Hm) as (dm & Hd1 & Hl).
  exists dm. by rewrite <- Hdm.
Qed.

End Edges.

(** ** A run *)

Definition packed_done :=
  match cell26 packed_unzip id packed_fs return gmap path (node string) with
  | Ok fs => fs
  | Raise _ => packed_fs
  end.

Lemma packed_runs : cell26 packed_unzip id packed_fs = Ok packed_done.
Proof. apply ok_get. vm_cast_no_check (@eq_refl bool true). Qed.

(** The artifacts, and no directory of the package yet. *)
Definition delivered : gmap path (node string) :=
  list_to_map
    ([(["02.build_package"], Dir); (["02.build_package"; "04.beta"], Dir)]
     ++ (d ← Alpha.depths;
         (beta_dir d, Dir)
         :: (m ← metrics; [(old_filepath d m, File (d +:+ "-" +:+ m))]))).

Lemma delivered_arranged (d : string) :
  d ∈ Alpha.depths → arranged packed_unzip delivered d = true.
Proof.
  assert (H : forallb (arranged packed_unzip delivered) Alpha.depths = true).
  { vm_cast_no_check (@eq_refl bool true). }
  rewrite forallb_forall in H. intros Hd. by apply H, list_elem_of_In.
Qed.

(** A depth whose artifacts have not been made. *)
Definition undelivered : gmap path (node string) :=
  {[ ["02.build_package"; "04.beta"; "1250"] := Dir;
     ["03.packaged"; "1250"] := Dir ]}.

Lemma relocation_leaves_the_rest_witness :
  (∀ p, touched p = false → packed_done !! p = packed_fs !! p) ∧
  (∀ d m, packed_done !! old_filepath d m = packed_fs !! old_filepath d m).
Proof.
  apply (relocation_leaves_the_rest packed_unzip id (λ l, reflexivity l)
           packed_fs packed_done).
  - exact packed_ready.
  - exact packed_runs.
Defined.

Lemma relocation_again_witness :
  (∀ d, d ∈ Alpha.depths → ready packed_unzip packed_done d = true) ∧
  cell26 packed_unzip id packed_done = Ok packed_done.
Proof.
  apply (relocation_again packed_unzip id (λ l, reflexivity l)
           packed_fs packed_done).
  - exact packed_ready.
  - exact packed_runs.
Defined.

Lemma relocation_without_artifact_witness :
  cell26_depth packed_unzip id "1250" undelivered = Raise IndexError.
Proof.
  apply (relocation_without_artifact packed_unzip id (λ l, reflexivity l)
           "1250" undelivered); try reflexivity.
  intros a H. discriminate H.
Defined.

Lemma directories_then_relocation_witness :
  ∃ fs1 fs2,
    cell6 delivered = Ok fs1 ∧ cell26 packed_unzip id fs1 = Ok fs2 ∧
    ∀ d, d ∈ Alpha.depths → relocated packed_unzip delivered fs2 d.
Proof.
  apply (directories_then_relocation packed_unzip id (λ l, reflexivity l) delivered).
  - reflexivity.
  - exact delivered_arranged.
Defined.

End BetaEdges.

(* ===================================================================== *)
(** * More on the alpha diversity merge (cells 15 and 18) *)
(* ===================================================================== *)

(** What the files of cell 15 hold besides the means, what a failed
    export does to it, and what cell 18 writes from its files. *)

Module AlphaEdges.

Import Alpha.

Section Merge.

Context {F : Type}.
Variable fsum : list F → F.
Variable fdiv : F → nat → F.
Variable to_float : string → option (option F).
Variable artifact : string → string → nat → option alpha_tsv.

(** The names of the columns of [collated_alpha.txt] for a depth. *)
Definition collated_names (d : string) : list string :=
  m ← alpha_metrics; iteration_name m d <$> seq 0 10.

(** ** Facts *)

Lemma start_headed (st : state (F := F)) : headed st → headed (start st).
Proof. done. Qed.

(** The iteration of cell 15 for a depth, with its frames. *)
Lemma cell15_depth (st0 st_end : state) (d : string) (collated : frame) :
  cell15 fsum fdiv to_float artifact st0 = Ok st_end → d ∈ depths →
  collated_alpha_txt st_end !! d = Some collated →
  ∃ before after st_b st_d frames,
    depths = before ++ d :: after ∧ (d ∉ before) ∧
    for_each (depth_step fsum fdiv to_float artifact) before (start st0) = Ok st_b ∧
    depth_step fsum fdiv to_float artifact d st_b = Ok st_d ∧
    index (map_ st_b) = index (map_ st0) ∧
    Forall2 (merged fsum fdiv d (map_ st_b) (map_ st_d)) alpha_metrics frames ∧
    (artifacts_headed artifact → headed st0 →
     Forall2 (iteration_columns d) alpha_metrics frames) ∧
    concat_columns frames = Ok collated ∧
    sample_ids st_end !! d = Some (index collated) ∧
    sample_id_txt st_end !! d
    = Some (Json.join (String newline "") (index collated)) ∧
    ag_map_with_alpha_txt st_end !! d = Some (dropna (map_ st_d)).
Proof.
  intros Hrun Hd Hc.
  destruct (cell15_at_depth _ _ _ _ _ _ _ Hrun Hd)
    as (before & after & st_b & st_d & Heq & Hnot & Hb & Hstep & Hix & _
        & Hs & Hcol & Hag & Htxt).
  destruct (depth_step_spec _ _ _ _ _ _ _ Hstep)
    as (frames & collated' & Hm & Hh & Hcc & Hc' & Hag' & Hs' & Htxt' & _).
  assert (collated' = collated) as -> by congruence.
  exists before, after, st_b, st_d, frames.
  repeat split; try done; try congruence.
  intros Ha Hh0. apply Hh; [done|].
  by apply (depths_headed fsum fdiv to_float artifact before (start st0)).
Qed.

(** X14.  When cell 15 runs to its end, every sample of
    [collated_alpha.txt] (and so of [sample_ids] and of
    [sample_id.txt]) is a row of the metadata table: a sample of an
    alpha diversity artifact that the metadata does not know makes the
    assignment through [.loc] raise.  The samples are listed once. *)
Theorem collated_samples_have_metadata (st0 st_end : state) (d : string)
  (collated : frame) :
  cell15 fsum fdiv to_float artifact st0 = Ok st_end → d ∈ depths →
  collated_alpha_txt st_end !! d = Some collated →
  sample_ids st_end !! d = Some (index collated) ∧
  NoDup (index collated) ∧
  ∀ s, s ∈ index collated → s ∈ index (map_ st0).
Proof.
  intros Hrun Hd Hc.
  destruct (cell15_depth _ _ _ _ Hrun Hd Hc)
    as (before & after & st_b & st_d & frames & _ & _ & _ & _ & Hix & Hm & _
        & Hcc & Hs & _).
  split; [done|].
  assert (Hf : Forall (λ f, NoDup (index f) ∧
                            Forall (λ s, s ∈ index (map_ st0)) (index f)) frames).
  { clear -Hm Hix. induction Hm as [|m f ms fs (Hnd & Hin & _) _ IH]; constructor;
      [|done]. by rewrite <- Hix. }
  split.
  - apply (concat_columns_NoDup frames); [|done].
    eapply Forall_impl; [exact Hf|]. by intros f [? _].
  - intros s Hs'.
    destruct (concat_columns_spec _ _ Hcc) as (_ & _ & Hfrom).
    destruct (Hfrom s Hs') as (f & Hfin & Hsf).
    rewrite Forall_forall in Hf. destruct (Hf f Hfin) as [_ Hall].
    rewrite Forall_forall in Hall. by apply Hall.
Qed.

(** X15.  When the exported tables carry the name of their metric as
    the header of their values, [collated_alpha.txt] of a depth has
    thirty columns: for each metric, in the order of the loop, the ten
    iterations named [<metric>_<depth>_<i>], in order. *)
Theorem collated_columns (st0 st_end : state) (d : string) (collated : frame) :
  artifacts_headed artifact → headed st0 →
  cell15 fsum fdiv to_float artifact st0 = Ok st_end → d ∈ depths →
  collated_alpha_txt st_end !! d = Some collated →
  (columns collated).*1 = collated_names d ∧
  length (columns collated) = 30.
Proof.
  intros Ha Hh Hrun Hd Hc.
  destruct (cell15_depth _ _ _ _ Hrun Hd Hc)
    as (before & after & st_b & st_d & frames & _ & _ & _ & _ & _ & _ & Hcols
        & Hcc & _).
  specialize (Hcols Ha Hh).
  destruct (concat_columns_spec _ _ Hcc) as (Hcolumns & _).
  assert (Hnames : (columns collated).*1 = collated_names d).
  { rewrite Hcolumns. unfold collated_names. clear -Hcols.
    induction Hcols as [|m f ms fs Hf _ IH]; [done|].
    rewrite fmap_cons. cbn [concat]. rewrite fmap_app, IH.
    by rewrite (iteration_columns_names _ _ _ Hf). }
  split; [done|].
  rewrite <- (length_fmap fst), Hnames. reflexivity.
Qed.

(** The columns of the means that are there after some depths. *)
Lemma depth_step_means (d : string) (st st' : state) (m : string) :
  depth_step fsum fdiv to_float artifact d st = Ok st' → m ∈ alpha_metrics →
  is_Some (assoc (mean_name m d) (columns (map_ st'))).
Proof.
  intros Hstep Hm.
  destruct (depth_step_spec _ _ _ _ _ _ _ Hstep) as (frames & _ & Hmerged & _).
  clear -Hmerged Hm.
  induction Hmerged as [|m' f ms fs (_ & _ & Hsome & _) _ IH];
    [by apply elem_of_nil in Hm|].
  apply elem_of_cons in Hm as [->|Hm]; [done | by apply IH].
Qed.

Lemma depths_means (ds : list string) (st st' : state) (d m : string) :
  for_each (depth_step fsum fdiv to_float artifact) ds st = Ok st' →
  d ∈ ds → m ∈ alpha_metrics →
  is_Some (assoc (mean_name m d) (columns (map_ st'))).
Proof.
  revert st. induction ds as [|d0 ds IH]; intros st H Hd Hm;
    [by apply elem_of_nil in Hd|].
  cbn [for_each] in H. apply bind_ok in H as (st1 & H1 & H).
  destruct (decide (d ∈ ds)) as [Hin|Hin]; [by apply (IH st1)|].
  apply elem_of_cons in Hd as [->|Hd]; [|done].
  destruct (depths_frame _ _ _ _ _ _ _ H) as (_ & Hcols & _).
  rewrite Hcols; [by apply (depth_step_means d0 st)|].
  intros Hc. by apply mean_names_depth in Hc.
Qed.

Lemma depths_NoDup : NoDup depths.
Proof.
  unfold depths. repeat (apply NoDup_cons; split; [set_solver|]).
  apply NoDup_nil_2.
Qed.

(** X16.  The metadata table is filled depth after depth, and each
    depth writes it as it is then: [ag_map_with_alpha.txt] of a depth
    has the columns of the means of that depth and of the depths
    before it, and for the depths after it only what the metadata
    came with. *)
Theorem ag_map_columns_by_depth (st0 st_end : state) (before after : list string)
  (d : string) (written : frame) :
  cell15 fsum fdiv to_float artifact st0 = Ok st_end →
  depths = before ++ d :: after →
  ag_map_with_alpha_txt st_end !! d = Some written →
  (∀ m d', m ∈ alpha_metrics → d' ∈ before ++ [d] →
           is_Some (assoc (mean_name m d') (columns written))) ∧
  (∀ m d', m ∈ alpha_metrics → d' ∈ after →
           assoc (mean_name m d') (columns written)
           = assoc (mean_name m d') (columns (map_ st0))).
Proof.
  intros Hrun Heq Hw. unfold cell15 in Hrun.
  pose proof depths_NoDup as Hnd. rewrite Heq in Hrun, Hnd.
  rewrite (cons_middle d), (assoc_L (++)) in Hrun, Hnd.
  rewrite for_each_app in Hrun. apply bind_ok in Hrun as (st_d & Hd & Hafter).
  apply NoDup_app in Hnd as (_ & Hdisj & _).
  assert (Hwritten : written = dropna (map_ st_d)).
  { destruct (depths_frame _ _ _ _ _ _ _ Hafter) as (_ & _ & Hfiles).
    destruct (Hfiles d) as (_ & _ & Hag & _).
    { apply Hdisj, elem_of_app. right. left. }
    rewrite Hag in Hw.
    rewrite for_each_app in Hd. apply bind_ok in Hd as (st_b & _ & Hstep).
    cbn [for_each] in Hstep. apply bind_ok in Hstep as (st_d' & Hstep & [= ->]).
    destruct (depth_step_spec _ _ _ _ _ _ _ Hstep) as (? & ? & _ & _ & _ & _ & Hag' & _).
    congruence. }
  subst written. cbn [dropna columns]. split.
  - intros m d' Hm Hd'. by apply (depths_means (before ++ [d]) (start st0)).
  - intros m d' Hm Hd'.
    destruct (depths_frame _ _ _ _ _ _ _ Hd) as (_ & Hcols & _).
    rewrite Hcols; [done|].
    intros Hc%mean_names_depth; [|done]. by apply (Hdisj d').
Qed.

(** X17.  A failed export is not noticed when an earlier iteration of
    the same depth and metric has left its table in the directory:
    the iteration after it reads that table again without an error,
    and contributes the same samples and the same values under the
    name of the new iteration. *)
Theorem failed_export_reads_stale_table (d m : string) (i : nat)
  (acc : list (frame (F := F))) (st : state (F := F)) (t : alpha_tsv)
  (fr : frame (F := F)) :
  artifact d m i = Some t → artifact d m (S i) = None →
  read_alpha m (iteration_name m d i) t = Ok fr →
  ∃ (fr' : frame (F := F)) (st' : state (F := F)),
    for_each (read_iteration artifact d m) [i; S i] (acc, st)
    = Ok (acc ++ [fr; fr'], st') ∧
    alpha_dir st' !! (d, m) = Some t ∧
    index fr' = index fr ∧
    (columns fr').*2 = (columns fr).*2 ∧
    (columns fr').*1
    = [rename [("Unnamed: 0", "#SampleID"); (m, iteration_name m d (S i))]
              (tsv_header t)].
Proof.
  intros Hi HSi Hfr.
  assert (Hframe : ∃ fr' : frame (F := F),
             read_alpha m (iteration_name m d (S i)) t = Ok fr' ∧
             index fr' = index fr ∧ (columns fr').*2 = (columns fr).*2 ∧
             (columns fr').*1
             = [rename [("Unnamed: 0", "#SampleID"); (m, iteration_name m d (S i))]
                       (tsv_header t)]).
  { unfold read_alpha in *. destruct (decide (NoDup (tsv_rows t).*1)); [|done].
    injection Hfr as <-. by eexists. }
  destruct Hframe as (fr' & Hfr' & Hix & Hvals & Hname).
  set (st1 := mkState (map_ st) (sample_ids st) (<[(d, m) := t]> (alpha_dir st))
                      (collated_alpha_txt st) (ag_map_with_alpha_txt st)
                      (sample_id_txt st)).
  assert (H1 : read_iteration artifact d m i (acc, st) = Ok (acc ++ [fr], st1)).
  { unfold read_iteration, qiime_tools_export. rewrite Hi.
    cbn [alpha_dir snd fst]. rewrite lookup_insert_eq. cbn [or_raise mbind result_bind].
    by rewrite Hfr. }
  assert (H2 : read_iteration artifact d m (S i) (acc ++ [fr], st1)
               = Ok ((acc ++ [fr]) ++ [fr'], st1)).
  { unfold read_iteration, qiime_tools_export. rewrite HSi.
    cbn [alpha_dir snd fst st1]. rewrite lookup_insert_eq.
    cbn [or_raise mbind result_bind]. by rewrite Hfr'. }
  exists fr', st1. cbn [for_each]. rewrite H1. cbn [mbind result_bind].
  rewrite H2. cbn [mbind result_bind]. rewrite <- app_assoc.
  split; [done|]. split; [apply lookup_insert_eq|done].
Qed.

End Merge.

Section Subset.

Context {F : Type}.
Variable fsum : list F → F.
Variable fdiv : F → nat → F.
Variable to_float : string → option (option F).
Variable artifact : string → string → nat → option alpha_tsv.
Variable nonzero : F → bool.
Variable deblur_input : option (table (F := F)).
Variable picrust_input : string → option (table (F := F)).

(** The command on a table that has every listed sample. *)
Lemma subset_samples_total (base : table (F := F)) (ids : list string) :
  ids ≠ [] →
  NoDup (samples base) → NoDup ids → (∀ s, s ∈ ids → s ∈ samples base) →
  subset_samples nonzero base ids
  = Ok (remove_empty nonzero (keep_samples ids base)).
Proof.
  intros Hne Hb Hi Hsub. unfold subset_samples.
  rewrite decide_True; [by destruct ids|]. apply Permutation_length.
  cbn [keep_samples samples].
  apply NoDup_Permutation; [by apply NoDup_filter|done|].
  intros s. rewrite list_elem_of_filter. naive_solver.
Qed.

Lemma cell18_collapse_deblur (st : state) (d : string) (out : packaged) (c : string) :
  deblur_biom (cell18_collapse nonzero picrust_input st d out c) = deblur_biom out.
Proof. unfold cell18_collapse. by destruct (biom_subset_table _ _ _). Qed.

Lemma cell18_depth_deblur (st : state) (out : packaged) (d : string) :
  deblur_biom (cell18_depth nonzero deblur_input picrust_input st out d)
  = match biom_subset_table nonzero deblur_input (sample_id_txt st !! d) with
    | Some t => <[d := t]> (deblur_biom out)
    | None => deblur_biom out
    end.
Proof.
  unfold cell18_depth. cbn [foldl]. rewrite !cell18_collapse_deblur.
  by destruct (biom_subset_table nonzero deblur_input _).
Qed.

Lemma cell18_collapse_picrust (st : state) (d : string) (out : packaged) (c : string) :
  picrust_biom (cell18_collapse nonzero picrust_input st d out c)
  = match biom_subset_table nonzero (picrust_input c) (sample_id_txt st !! d) with
    | Some t => <[(d, c) := t]> (picrust_biom out)
    | None => picrust_biom out
    end.
Proof. unfold cell18_collapse. by destruct (biom_subset_table _ _ _). Qed.

Lemma cell18_depth_picrust (st : state) (out : packaged) (d d' c : string)
  (t : table) :
  (d' = d ∧ c ∈ ["_L1"; "_L2"; "_L3"] ∧
   biom_subset_table nonzero (picrust_input c) (sample_id_txt st !! d) = Some t) ∨
  picrust_biom out !! (d', c) = Some t ∧
  (d' = d → biom_subset_table nonzero (picrust_input c) (sample_id_txt st !! d) = Some t) →
  picrust_biom (cell18_depth nonzero deblur_input picrust_input st out d) !! (d', c) = Some t.
Proof.
  intros H. unfold cell18_depth. cbn [foldl].
  rewrite !cell18_collapse_picrust.
  set (out1 := match biom_subset_table nonzero deblur_input (sample_id_txt st !! d) with
               | Some t0 => mkPackaged (<[d:=t0]> (deblur_biom out)) (picrust_biom out)
               | None => out
               end).
  assert (picrust_biom out1 = picrust_biom out) as Ho.
  { unfold out1. by destruct (biom_subset_table nonzero deblur_input _). }
  assert (Hstep : ∀ (pb : gmap (string * string) table) c0,
             (d' = d ∧ c = c0 ∧
              biom_subset_table nonzero (picrust_input c) (sample_id_txt st !! d) = Some t) ∨
             pb !! (d', c) = Some t ∧
             (d' = d → biom_subset_table nonzero (picrust_input c) (sample_id_txt st !! d)
                       = Some t) →
             match biom_subset_table nonzero (picrust_input c0) (sample_id_txt st !! d) with
             | Some t0 => <[(d, c0) := t0]> pb
             | None => pb
             end !! (d', c) = Some t).
  { intros pb c0 [(-> & -> & Hs)|[Hpb Hs]].
    - rewrite Hs. apply lookup_insert_eq.
    - destruct (biom_subset_table nonzero (picrust_input c0) _) as [t0|] eqn:E; [|done].
      destruct (decide ((d, c0) = (d', c))) as [[= -> ->]|Hne].
      + rewrite lookup_insert_eq. rewrite Hs in E by done. congruence.
      + by rewrite lookup_insert_ne. }
  rewrite Ho.
  destruct H as [(-> & Hc & Hs)|[Hpb Hs]].
  - apply elem_of_cons in Hc as [->|Hc].
    { apply Hstep. right. split; [|done]. apply Hstep. right. split; [|done].
      apply Hstep. by left. }
    apply elem_of_cons in Hc as [->|Hc].
    { apply Hstep. right. split; [|done]. apply Hstep. by left. }
    apply elem_of_cons in Hc as [->|Hc]; [|by apply elem_of_nil in Hc].
    apply Hstep. by left.
  - apply Hstep. right. split; [|done]. apply Hstep. right. split; [|done].
    apply Hstep. by right.
Qed.

(** X19.  Cell 18 writes from what cell 15 left: when the collated
    table of a depth has samples, their ids are plain (printable,
    without blanks, no [#] in front) and the table the command reads
    has every one of them, the table it writes for the depth is the
    input table cut down to the samples of [collated_alpha.txt],
    without the observations that are left with no count; this holds
    for the deblur table and for the PICRUSt table of each collapse
    level. *)
Theorem subset_tables_written (st0 st_end : state) (out0 : packaged)
  (d : string) (collated : frame) :
  cell15 fsum fdiv to_float artifact st0 = Ok st_end → d ∈ depths →
  collated_alpha_txt st_end !! d = Some collated →
  index collated ≠ [] →
  Forall (λ s, plain_id s = true) (index collated) →
  (∀ base, deblur_input = Some base → NoDup (samples base) →
           (∀ s, s ∈ index collated → s ∈ samples base) →
           deblur_biom (cell18 nonzero deblur_input picrust_input st_end out0) !! d
           = Some (remove_empty nonzero (keep_samples (index collated) base))) ∧
  (∀ c base, c ∈ ["_L1"; "_L2"; "_L3"] → picrust_input c = Some base →
             NoDup (samples base) →
             (∀ s, s ∈ index collated → s ∈ samples base) →
             picrust_biom (cell18 nonzero deblur_input picrust_input st_end out0) !! (d, c)
             = Some (remove_empty nonzero (keep_samples (index collated) base))).
Proof.
  intros Hrun Hd Hc Hsome Hplain.
  destruct (cell15_depth _ _ _ _ _ _ _ _ Hrun Hd Hc)
    as (before & after & st_b & st_d & frames & _ & _ & _ & _ & _ & Hm & _ & Hcc
        & _ & Htxt & _).
  assert (Hnd : NoDup (index collated)).
  { apply (concat_columns_NoDup frames); [|done].
    clear -Hm. induction Hm as [|m f ms fs (? & _) _ IH]; by constructor. }
  assert (Hsub : ∀ base : table (F := F), NoDup (samples base) →
                         (∀ s, s ∈ index collated → s ∈ samples base) →
                         biom_subset_table nonzero (Some base) (sample_id_txt st_end !! d)
                         = Some (remove_empty nonzero
                                   (keep_samples (index collated) base))).
  { intros base Hb Hin. unfold biom_subset_table.
    rewrite Htxt, read_ids_join by done.
    by rewrite subset_samples_total. }
  unfold cell18. split.
  - intros base Hdeblur Hb Hin. specialize (Hsub base Hb Hin).
    rewrite <- Hdeblur in Hsub. clear -Hsub Hd.
    assert (∀ ds out,
              d ∈ ds ∨ deblur_biom out !! d
                       = Some (remove_empty nonzero (keep_samples (index collated) base)) →
              deblur_biom (foldl (cell18_depth nonzero deblur_input picrust_input st_end) out ds)
              !! d = Some (remove_empty nonzero (keep_samples (index collated) base))) as Hfold.
    { induction ds as [|d0 ds IH]; intros out H; cbn [foldl].
      - destruct H as [H|H]; [by apply elem_of_nil in H|done].
      - apply IH. rewrite cell18_depth_deblur.
        destruct (decide (d0 = d)) as [->|Hne].
        + right. rewrite Hsub. apply lookup_insert_eq.
        + destruct H as [[->|H]%elem_of_cons|H]; [done|by left|right].
          destruct (biom_subset_table nonzero deblur_input (sample_id_txt st_end !! d0));
            [|done].
          by rewrite lookup_insert_ne. }
    apply Hfold. by left.
  - intros c base Hcin Hp Hb Hin. specialize (Hsub base Hb Hin).
    rewrite <- Hp in Hsub. clear -Hsub Hd Hcin.
    assert (∀ ds out,
              d ∈ ds ∨ picrust_biom out !! (d, c)
                       = Some (remove_empty nonzero (keep_samples (index collated) base)) →
              picrust_biom (foldl (cell18_depth nonzero deblur_input picrust_input st_end) out ds)
              !! (d, c) = Some (remove_empty nonzero (keep_samples (index collated) base))) as Hfold.
    { induction ds as [|d0 ds IH]; intros out H; cbn [foldl].
      - destruct H as [H|H]; [by apply elem_of_nil in H|done].
      - apply IH.
        destruct (decide (d0 = d)) as [->|Hne].
        + right. apply cell18_depth_picrust. by left.
        + destruct H as [[->|H]%elem_of_cons|H]; [done|by left|right].
          apply cell18_depth_picrust. right. split; [done|]. by intros ->. }
    apply Hfold. by left.
Qed.

End Subset.

(** ** The small study again *)

(** The study with the export of iteration 1 failing. *)
Definition patchy_artifact (d m : string) (i : nat) : option alpha_tsv :=
  if bool_decide (i = 1) then None else study_artifact d m i.

Lemma collated_samples_have_metadata_witness :
  sample_ids study_end !! "1250" = Some (index study_collated) ∧
  NoDup (index study_collated) ∧
  ∀ s, s ∈ index study_collated → s ∈ index (map_ study).
Proof.
  apply (collated_samples_have_metadata qsum qdiv qfloat study_artifact
           study study_end "1250" study_collated).
  - exact study_runs.
  - by_compute.
  - exact study_collated_file.
Defined.

Lemma collated_columns_witness :
  (columns study_collated).*1 = collated_names "1250" ∧
  length (columns study_collated) = 30.
Proof.
  apply (collated_columns qsum qdiv qfloat study_artifact study study_end
           "1250" study_collated).
  - exact study_artifacts_headed.
  - exact study_headed.
  - exact study_runs.
  - by_compute.
  - exact study_collated_file.
Defined.

Lemma ag_map_columns_by_depth_witness :
  (∀ m d', m ∈ alpha_metrics → d' ∈ [] ++ ["1250"] →
           is_Some (assoc (mean_name m d') (columns study_written))) ∧
  (∀ m d', m ∈ alpha_metrics → d' ∈ ["2500"; "5000"; "10000"; "50000"] →
           assoc (mean_name m d') (columns study_written)
           = assoc (mean_name m d') (columns (map_ study))).
Proof.
  apply (ag_map_columns_by_depth qsum qdiv qfloat study_artifact study study_end
           [] ["2500"; "5000"; "10000"; "50000"] "1250" study_written).
  - exact study_runs.
  - reflexivity.
  - exact study_written_file.
Defined.

Definition first_table : alpha_tsv :=
  mkTsv "shannon" [("s1", Some "4"); ("s2", Some "0")].

Definition first_read : frame (F := Q) :=
  mkFrame ["s1"; "s2"]
          [("shannon_1250_0", {[ "s1" := Str "4"; "s2" := Str "0" ]})].

Lemma failed_export_reads_stale_table_witness :
  ∃ (fr' : frame (F := Q)) (st' : state (F := Q)),
    for_each (read_iteration patchy_artifact "1250" "shannon") [0; 1] ([], study)
    = Ok ([] ++ [first_read; fr'], st') ∧
    alpha_dir st' !! ("1250", "shannon") = Some first_table ∧
    index fr' = index first_read ∧
    (columns fr').*2 = (columns first_read).*2 ∧
    (columns fr').*1
    = [rename [("Unnamed: 0", "#SampleID");
               ("shannon", iteration_name "shannon" "1250" 1)]
              (tsv_header first_table)].
Proof.
  apply (failed_export_reads_stale_table patchy_artifact "1250" "shannon" 0
           [] study first_table first_read).
  - reflexivity.
  - reflexivity.
  - vm_compute. reflexivity.
Defined.

Lemma subset_tables_written_witness :
  deblur_biom study_packaged !! "1250"
  = Some (remove_empty qnonzero (keep_samples (index study_collated) study_deblur)).
Proof.
  apply (proj1 (subset_tables_written qsum qdiv qfloat study_artifact qnonzero
                  (Some study_deblur) study_picrust study study_end
                  (mkPackaged ∅ ∅) "1250" study_collated
                  study_runs ltac:(by_compute) study_collated_file
                  ltac:(by_compute) ltac:(by_compute))).
  - reflexivity.
  - by_compute.
  - apply Forall_forall. by_compute.
Defined.

(** The observation [otu3], which has counts in [s3] only, is not in
    the table written for depth 1250. *)
Example subset_drops_empty_observation :
  observations study_subset = ["otu1"; "otu2"] ∧ samples study_subset = ["s1"; "s2"].
Proof. split; vm_refl. Qed.

End AlphaEdges.

(* ===================================================================== *)
(** * More on the full PICRUSt table (cells 15 and 24) *)
(* ===================================================================== *)

(** How cell 24 fails without the ids of cell 15, and what it writes
    with them. *)

Module FullEdges.

Import Alpha Full.

Section Loop.

Context {F File : Type}.
Variable from_hdf5 : File → result (table (F := F)).
Variable to_hdf5 : table (F := F) → string → result File.
Variable fp_in : File.




Section AfterMerge.

Variable fsum : list F → F.
Variable fdiv : F → nat → F.
Variable to_float : string → option (option F).
Variable artifact : string → string → nat → option alpha_tsv.

(** Every id to keep is a sample of the table: the lookup raises
    nothing. *)
Lemma known_ids_ok (t : table (F := F)) (ids : list string) :
  Forall (λ s, s ∈ samples t) ids → known_ids t ids = Ok ().
Proof.
  intros H. unfold known_ids.
  assert (list_find (λ id_, id_ ∉ samples t) ids = None) as ->; [|done].
  apply list_find_None. eapply Forall_impl; [exact H|]. by intros s Hs Hn.
Qed.

(** X22.  Cell 24 follows cell 15: with the [sample_ids] cell 15
    leaves, a base table that loads and has every sample of the
    collated tables, and a writer that does not fail, cell 24 runs to
    its end, and the file of each depth holds the base table cut down
    to the samples of [collated_alpha.txt] of that depth. *)
Theorem full_tables_follow_collated (st0 st_end : Alpha.state)
  (base : table (F := F)) (st : Full.state) :
  cell15 fsum fdiv to_float artifact st0 = Ok st_end →
  from_hdf5 fp_in = Ok base →
  (∀ d collated, d ∈ depths → collated_alpha_txt st_end !! d = Some collated →
                 Forall (λ s, s ∈ samples base) (index collated)) →
  (∀ t g, is_ok (to_hdf5 t g) = true) →
  ∃ st', cell24 from_hdf5 to_hdf5 fp_in (Alpha.sample_ids st_end) st = Ok st' ∧
    ∀ d, d ∈ depths →
      ∃ collated content,
        collated_alpha_txt st_end !! d = Some collated ∧
        to_hdf5 (keep_samples (index collated) base) (generated_by d) = Ok content ∧
        picrust_out st' !! d = Some content.
Proof.
  intros Hrun Hbase Hknown Hwrite.
  assert (Hids : ∀ d, d ∈ depths →
             ∃ collated, collated_alpha_txt st_end !! d = Some collated ∧
                         Alpha.sample_ids st_end !! d = Some (index collated)).
  { intros d Hd.
    destruct (cell15_at_depth _ _ _ _ _ _ _ Hrun Hd)
      as (before & after & st_b & st_d & _ & _ & _ & Hstep & _ & _ & Hs & Hc & _).
    destruct (depth_step_spec _ _ _ _ _ _ _ Hstep)
      as (frames & collated & _ & _ & _ & Hc' & _ & Hs' & _).
    exists collated. split; congruence. }
  assert (Hexp : ∀ d, d ∈ depths →
             ∃ collated,
               collated_alpha_txt st_end !! d = Some collated ∧
               expected from_hdf5 to_hdf5 fp_in (Alpha.sample_ids st_end) d
               = to_hdf5 (keep_samples (index collated) base) (generated_by d)).
  { intros d Hd. destruct (Hids d Hd) as (collated & Hc & Hs).
    exists collated. split; [done|]. unfold expected. rewrite Hs.
    cbn [or_raise mbind result_bind]. rewrite Hbase.
    cbn [mbind result_bind]. by rewrite (known_ids_ok base _ (Hknown d _ Hd Hc)). }
  destruct (cell24_loop_runs from_hdf5 to_hdf5 fp_in (Alpha.sample_ids st_end)
              (reverse depths) st) as (st' & Hloop).
  { apply Forall_forall. intros d Hd%elem_of_reverse.
    destruct (Hexp d Hd) as (collated & _ & ->). apply Hwrite. }
  exists st'. split; [done|]. intros d Hd.
  destruct (cell24_loop_outputs _ _ _ _ _ _ _ Hloop) as [Hout _].
  destruct (Hout d) as (content & Hcontent & Hfile); [by apply elem_of_reverse|].
  destruct (Hexp d Hd) as (collated & Hc & Heq).
  exists collated, content. split; [done|]. split; [congruence|done].
Qed.

End AfterMerge.

End Loop.

(** ** The small runs *)




(** The PICRUSt table of the study, and files that hold tables. *)
Definition study_full : table (F := Q) :=
  mkTable ["s1"; "s2"; "s3"] ["K00001"]
          {[ ("K00001", "s1") := QArith_base.inject_Z 3;
             ("K00001", "s3") := QArith_base.inject_Z 8 ]}.

Definition study_load (content : table (F := Q)) : result (table (F := Q)) :=
  Ok content.
Definition study_save (t : table (F := Q)) (generated_by : string)
  : result (table (F := Q)) := Ok t.

Lemma full_tables_follow_collated_witness :
  ∃ st', cell24 study_load study_save study_full (Alpha.sample_ids study_end)
           (Full.mkState ∅ 0 None None [] ∅) = Ok st' ∧
    ∀ d, d ∈ depths →
      ∃ collated content,
        collated_alpha_txt study_end !! d = Some collated ∧
        study_save (keep_samples (index collated) study_full) (generated_by d)
        = Ok content ∧
        picrust_out st' !! d = Some content.
Proof.
  apply (full_tables_follow_collated study_load study_save study_full
           qsum qdiv qfloat study_artifact study study_end study_full).
  - exact study_runs.
  - reflexivity.
  - intros d collated Hd Hc.
    assert (H : forallb (λ d, match collated_alpha_txt study_end !! d with
                              | Some c => bool_decide
                                  (Forall (λ s, s ∈ samples study_full) (index c))
                              | None => true
                              end) depths = true) by vm_refl.
    rewrite forallb_forall in H. apply list_elem_of_In, H in Hd.
    rewrite Hc in Hd. by apply bool_decide_eq_true in Hd.
  - reflexivity.
Defined.

End FullEdges.

(* ===================================================================== *)
(** * More on the table export (cell 10) *)
(* ===================================================================== *)

(** What the export has done by the time it raises: which command it
    has run, and which calls it has not reached. *)

Module KernelEdges.

Import Kernel.

(** The shell line of the first iteration, with [$old_table_fp] and
    [$temp_dir] expanded. *)
Definition export_command : string :=
  "qiime tools export ./02.build_package/02.rarefied/1250/deblur_125nt_0.qza --output-dir ./table_temp".

(** A call of [os.removedirs], and a shell line. *)
Definition is_removedirs (c : call) : bool :=
  match c with
  | Call (VAttr _ m) _ _ => String.eqb m "removedirs"
  | _ => false
  end.

Definition is_shell (c : call) : bool :=
  match c with
  | Shell _ => true
  | _ => false
  end.

(** The calls that neither run a command nor remove a directory. *)
Definition harmless (cs : list call) : Prop :=
  Forall (λ c, is_shell c = false ∧ is_removedirs c = false) cs.

(** [m] leaves the name [x] as it is and makes harmless calls only. *)
Definition keeps (x : string) {A} (m : M A) : Prop :=
  ∀ st r st', m st = (r, st') →
    globals st' !! x = globals st !! x ∧
    ∃ cs, history st' = history st ++ cs ∧ harmless cs.

(** [m] raises from every state in which [x] is unbound, after
    harmless calls only. *)
Definition stops_without (x : string) {A} (m : M A) : Prop :=
  ∀ st, globals st !! x = None →
    ∃ e st' cs, m st = (Raise e, st') ∧
                history st' = history st ++ cs ∧ harmless cs.

Section Run.

Variable extern : list call → call → result value.

Lemma run_bind {A B} (m : M A) (f : A → M B) (st st' : state) (a : A) :
  m st = (Ok a, st') → (m ≫= f) st = f a st'.
Proof. intros H. unfold mbind, M_bind. by rewrite H. Qed.

Lemma keeps_silent x {A} (m : M A) :
  (∀ st, ∃ r, m st = (r, st)) → keeps x m.
Proof.
  intros H st r st' E. destruct (H st) as [r' E']. rewrite E' in E.
  injection E as <- <-. split; [done|]. exists []. rewrite app_nil_r.
  split; [done|constructor].
Qed.

Lemma keeps_ret x {A} (a : A) : keeps x (mret a : M A).
Proof. apply keeps_silent. intros st. by eexists. Qed.

Lemma keeps_name x y : keeps x (name y).
Proof.
  apply keeps_silent. intros st. unfold name.
  destruct (globals st !! y); [|case_bool_decide]; by eexists.
Qed.

Lemma keeps_assign x y v : x ≠ y → keeps x (assign y v).
Proof.
  intros Hne st r st' [= <- <-]. simpl.
  split; [by rewrite lookup_insert_ne|]. exists []. rewrite app_nil_r.
  split; [done|constructor].
Qed.

Lemma keeps_ext x c :
  is_shell c = false → is_removedirs c = false → keeps x (ext extern c).
Proof.
  intros H1 H2 st r st' [= <- <-]. simpl. split; [done|].
  exists [c]. split; [done|]. by constructor.
Qed.

Lemma keeps_bind x {A B} (m : M A) (f : A → M B) :
  keeps x m → (∀ a, keeps x (f a)) → keeps x (m ≫= f).
Proof.
  intros Hm Hf st r st' H. unfold mbind, M_bind in H.
  destruct (m st) as [[a|e] st1] eqn:E.
  - destruct (Hm _ _ _ E) as (Hx & cs & Hh & Hq).
    destruct (Hf a _ _ _ H) as (Hx' & cs' & Hh' & Hq').
    split; [congruence|]. exists (cs ++ cs').
    rewrite Hh', Hh, app_assoc. split; [done | by apply Forall_app].
  - injection H as <- <-. exact (Hm _ _ _ E).
Qed.

Lemma stops_bind_l x {A B} (m : M A) (f : A → M B) :
  stops_without x m → stops_without x (m ≫= f).
Proof.
  intros Hm st Hx. destruct (Hm st Hx) as (e & st' & cs & E & Hh & Hq).
  exists e, st', cs. unfold mbind, M_bind. rewrite E. done.
Qed.

Lemma stops_bind_r x {A B} (m : M A) (f : A → M B) :
  keeps x m → (∀ a, stops_without x (f a)) → stops_without x (m ≫= f).
Proof.
  intros Hm Hf st Hx. unfold mbind, M_bind.
  destruct (m st) as [[a|e] st1] eqn:E;
    destruct (Hm _ _ _ E) as (Hx1 & cs & Hh & Hq).
  - destruct (Hf a st1) as (e & st' & cs' & E' & Hh' & Hq'); [congruence|].
    exists e, st', (cs ++ cs'). rewrite E', Hh', Hh, app_assoc.
    split; [done|]. split; [done | by apply Forall_app].
  - exists e, st1, cs. done.
Qed.

Lemma stops_name x : x ∉ builtins → stops_without x (name x).
Proof.
  intros Hb st Hx. exists (NameError x), st, [].
  unfold name. rewrite Hx, bool_decide_eq_false_2 by done.
  rewrite app_nil_r. repeat split. constructor.
Qed.

Lemma stops_with x cm (body : M unit) :
  stops_without x body → stops_without x (with_ extern cm body).
Proof.
  intros Hb st Hx. unfold with_, ext. simpl.
  destruct (extern (history st) (Enter cm)) as [v|e].
  - destruct (Hb (mkState (globals st) (history st ++ [Enter cm])) Hx)
      as (e & st' & cs & E & Hh & Hq).
    rewrite E. simpl. eexists e, _, ([Enter cm] ++ cs ++ [Exit cm]).
    split; [reflexivity|]. simpl. simpl in Hh. rewrite Hh, <- !app_assoc.
    split; [done|]. constructor; [done|]. apply Forall_app. split; [done|].
    by constructor.
  - eexists e, _, [Enter cm]. split; [reflexivity|]. split; [done|].
    by constructor.
Qed.

Ltac keeps_auto :=
  repeat first
    [ apply keeps_ret | apply keeps_name
    | apply keeps_assign; discriminate
    | apply keeps_ext; reflexivity
    | apply keeps_bind; [|intros ?] ].

(** The first iteration, from the state the loop gives it. *)
Lemma cell10_body_exports (st : state) :
  globals st !! "depth" = Some (VStr "1250") →
  globals st !! "f_" = None →
  ∃ e st' cs, cell10_body extern st = (Raise e, st') ∧
              history st' = history st ++ Shell export_command :: cs ∧
              harmless cs.
Proof.
  intros Hdepth Hf. unfold cell10_body.
  assert (Hread : ∀ g h, g !! "depth" = Some (VStr "1250") →
            (name "depth" ≫= str_of) (mkState g h) = (Ok "1250", mkState g h)).
  { intros g h Hg. unfold mbind, M_bind, name. simpl. by rewrite Hg. }
  destruct st as [g h]. simpl in Hdepth, Hf.
  rewrite (run_bind _ _ _ _ _ (Hread g h Hdepth)).
  erewrite run_bind by reflexivity. cbn [globals history].
  erewrite run_bind; [|apply Hread; by rewrite lookup_insert_ne].
  erewrite run_bind by reflexivity. cbn [globals history].
  erewrite run_bind by reflexivity. cbn [globals history].
  erewrite run_bind.
  2:{ unfold expand. cbn [globals].
      rewrite lookup_insert_ne, lookup_insert_ne, lookup_insert_eq by done.
      reflexivity. }
  erewrite run_bind.
  2:{ unfold expand. cbn [globals]. rewrite lookup_insert_eq. reflexivity. }
  erewrite run_bind by reflexivity. cbn [globals history].
  lazymatch goal with
  | |- ∃ e st' cs, ?rest ?st1 = _ ∧ _ =>
      assert (stops_without "f_" rest) as Hrest; [|destruct (Hrest st1) as (e & st' & cs & E & Hh & Hq)]
  end.
  - repeat (apply stops_bind_r; [solve [keeps_auto]|intros ?]).
    apply stops_bind_l. apply stops_with.
    apply stops_bind_r; [apply keeps_name|]. intros table_.
    apply stops_bind_l. apply stops_name. vm_compute. set_solver.
  - cbn [globals]. by rewrite !lookup_insert_ne.
  - exists e, st', cs. split; [done|]. split; [|done].
    rewrite Hh. cbn [history]. by rewrite <- app_assoc.
Qed.

(** X23.  By the time the table export raises, its first iteration
    has run the command [qiime tools export] on the artifact of depth
    1250, with [./table_temp] as the output directory; no other
    command is run and [os.removedirs] is not reached, so what the
    command wrote to [./table_temp] is left there. *)
Theorem table_export_leaves_temp_dir (st : state) :
  run_all [cell2 extern; cell4; cell6 extern] fresh = (Ok (), st) →
  ∃ e st' cs, cell10 extern st = (Raise e, st') ∧
              history st' = history st ++ Shell export_command :: cs ∧
              harmless cs.
Proof.
  intros H.
  pose proof (prefix_depths extern st H) as Hd.
  destruct (prefix_leaves extern "f_" ltac:(set_solver) _ _ _ H) as [Hf _].
  change (globals fresh !! "f_") with (@None value) in Hf.
  unfold cell10.
  erewrite run_bind; [|unfold name; by rewrite Hd].
  erewrite run_bind by reflexivity.
  cbn [for_in].
  erewrite run_bind by reflexivity.
  destruct (cell10_body_exports
              (mkState (<["depth" := VStr "1250"]> (globals st)) (history st)))
    as (e & st' & cs & E & Hh & Hq).
  - cbn [globals]. apply lookup_insert_eq.
  - cbn [globals]. by rewrite lookup_insert_ne.
  - exists e, st', cs. split; [|done].
    unfold mbind, M_bind. by rewrite E.
Qed.

End Run.

Lemma table_export_leaves_temp_dir_witness :
  ∃ e st' cs, cell10 lenient (after_prefix lenient) = (Raise e, st') ∧
              history st' = history (after_prefix lenient)
                            ++ Shell export_command :: cs ∧
              harmless cs.
Proof.
  apply (table_export_leaves_temp_dir lenient (after_prefix lenient)).
  vm_compute. reflexivity.
Defined.

End KernelEdges.
